(** * clapctl: deployment orchestration core

    A shallow embedding of the deployment orchestration code of clapctl
    (CloudFormation stack lifecycle, S3 artifact lookup, the deployment
    watcher in its legacy and provider versions, and the provider registry),
    followed by the properties established about it.

    Conventions of the embedding.
    - An [async] function is a computation in the monad [M]: it reads and
      extends a log of the calls made so far, and it either resolves with a
      value or rejects with a JavaScript error.
    - The remote side (S3, CloudFormation) is an oracle: a record of reply
      functions.  The polling loop runs against a finite script of such
      oracles, one per status query; when the script is used up the loop is
      left [Pending] on its next query.
    - A JavaScript [Map] whose iteration order matters is an association list
      in insertion order; one that is only looked up is a [gmap].
    - [number] values are integers ([Z]); [String(n)] is the decimal
      rendering.  [console.log] output is not modelled. *)

From Stdlib Require Import String Ascii ZArith List Bool Lia DecimalString.
From Stdlib Require DecimalPos.
From stdpp Require Import base option list gmap strings.

Local Open Scope string_scope.
Local Open Scope list_scope.
Local Open Scope stdpp_scope.

(** ** JavaScript values shared by all services *)

(** An [Error] object: its [name] and its [message]. *)
Record JsError : Type := mkJsError { name : string; message : string }.

(** [new Error(msg)] *)
Definition new_Error (msg : string) : JsError :=
  {| name := "Error"; message := msg |}.

(** The state of a promise: still pending, fulfilled, or rejected. *)
Inductive Promise (A : Type) : Type :=
| Pending
| Resolved (a : A)
| Rejected (e : JsError).
Arguments Pending {A}.
Arguments Resolved {A} a.
Arguments Rejected {A} e.

(** [String(b)] for a boolean. *)
Definition String_of_bool (b : bool) : string :=
  if b then "true" else "false".

(** [String(n)] for an integer-valued number. *)
Definition String_of_number (n : Z) : string :=
  NilZero.string_of_int (Z.to_int n).

(** Truthiness of a string: [""] is falsy. *)
Definition truthy (s : string) : bool :=
  match s with
  | EmptyString => false
  | String _ _ => true
  end.

(** Truthiness of an optional string: [undefined] and [""] are falsy. *)
Definition truthy_opt (o : option string) : bool :=
  match o with
  | None => false
  | Some s => truthy s
  end.

(** ** schemas/config.schema.ts and services/cloud/types.ts *)

Inductive Arch : Type := x86_64 | arm64.

Definition Arch_str (a : Arch) : string :=
  match a with
  | x86_64 => "x86_64"
  | arm64 => "arm64"
  end.

(** [DeployConfiguration] / [DeployConfig]: the three fields declared
    optional are options, the others are always present. *)
Record DeployConfig : Type := mkDeployConfig {
  stackName : string;
  arch : Arch;
  lambdaMemorySize : Z;
  dispatcherMemorySize : Z;
  reducerMemorySize : Z;
  workerMemorySize : Z;
  enablePrivateVpc : bool;
  enablePrivateEndpoint : bool;
  enableLogging : bool;
  clapdbVersion : option string;
  artifactsBucket : option string;
  templateBody : option string;
  updateBuiltinTemplate : bool
}.

(** [{ ...config, clapdbVersion: version, artifactsBucket: bucket }] *)
Definition with_version_bucket (config : DeployConfig)
    (version : string) (bucket : string) : DeployConfig :=
  {| stackName := stackName config;
     arch := arch config;
     lambdaMemorySize := lambdaMemorySize config;
     dispatcherMemorySize := dispatcherMemorySize config;
     reducerMemorySize := reducerMemorySize config;
     workerMemorySize := workerMemorySize config;
     enablePrivateVpc := enablePrivateVpc config;
     enablePrivateEndpoint := enablePrivateEndpoint config;
     enableLogging := enableLogging config;
     clapdbVersion := Some version;
     artifactsBucket := Some bucket;
     templateBody := templateBody config;
     updateBuiltinTemplate := updateBuiltinTemplate config |}.

Definition getArtifactsBucket (region : string) : string :=
  "clapdb-pkgs-" +:+ region.

Inductive DeployAction : Type := Deploy | Update | Delete.

(** ** The AWS SDK commands the services send *)

(** A CloudFormation [Parameter]: a key with either a value or the
    [UsePreviousValue] flag; a field left out of the object literal is
    [None]. *)
Record CfnParameter : Type := mkParameter {
  ParameterKey : string;
  ParameterValue : option string;
  UsePreviousValue : option bool
}.

Record Tag : Type := mkTag { Key : string; Value : string }.

Record CreateStackInput : Type := mkCreateStackInput {
  cs_StackName : string;
  cs_TemplateBody : option string;
  cs_Capabilities : list string;
  cs_Parameters : list CfnParameter;
  cs_Tags : list Tag
}.

Record UpdateStackInput : Type := mkUpdateStackInput {
  us_StackName : string;
  us_TemplateBody : option string;
  us_Capabilities : list string;
  us_Parameters : list CfnParameter;
  us_Tags : list Tag;
  us_UsePreviousTemplate : bool
}.

Record Output : Type := mkOutput {
  OutputKey : option string;
  OutputValue : option string
}.

(** The fields of a described [Stack] that the services read. *)
Record Stack : Type := mkStack {
  StackStatus : option string;
  Outputs : option (list Output)
}.

Record StackResource : Type := mkStackResource {
  LogicalResourceId : option string;
  ResourceStatus : option string
}.

(** What a run does to the outside, in the order it does it: the artifact
    queries of [S3Service], the commands sent through the SDK clients, the
    500 ms sleeps of the watcher and what it does to the spinner. *)
Inductive Event : Type :=
| EvGetLatestTag (bucket : string)
| EvGetLatestHash (bucket : string)
| EvHasArtifact (bucket version arch : string)
| EvGetObject (bucket key : string)
| EvCreateStack (input : CreateStackInput)
| EvUpdateStack (input : UpdateStackInput)
| EvGetTemplate (stack : string)
| EvDescribeStacks (stack : string)
| EvDescribeStackResources (stack : string)
| EvSleep (ms : nat)
| EvSpinnerText (text : string)
| EvSpinnerStop.

(** The remote side as an oracle: what each SDK call answers. *)
Record Cloud : Type := mkCloud {
  s3_GetObject : string -> string -> Promise (option string);
  cfn_CreateStack : CreateStackInput -> Promise (option string);
  cfn_UpdateStack : UpdateStackInput -> Promise (option string);
  cfn_GetTemplate : string -> Promise (option string);
  cfn_DescribeStacks : string -> Promise (option (list Stack));
  cfn_DescribeStackResources : string -> Promise (option (list StackResource))
}.

(** ** The monad of asynchronous calls *)

(** The local state a run threads: the events so far (oldest first) and the
    [outputs] field of the [CloudFormationService] instance. *)
Record World : Type := mkWorld {
  events : list Event;
  outputs : gmap string string
}.

Definition M (A : Type) : Type := World -> Promise A * World.

Definition ret {A : Type} (a : A) : M A := fun w => (Resolved a, w).

Definition throw {A : Type} (e : JsError) : M A := fun w => (Rejected e, w).

Definition bind {A B : Type} (m : M A) (k : A -> M B) : M B :=
  fun w =>
    match m w with
    | (Resolved a, w') => k a w'
    | (Rejected e, w') => (Rejected e, w')
    | (Pending, w') => (Pending, w')
    end.

#[global] Instance M_ret : MRet M := @ret.
#[global] Instance M_bind : MBind M := fun A B k m => bind m k.

(** [try { m } catch (e) { h e }] *)
Definition try_catch {A : Type} (m : M A) (h : JsError -> M A) : M A :=
  fun w =>
    match m w with
    | (Rejected e, w') => h e w'
    | r => r
    end.

(** [try { m } finally { fin }]: [fin] runs once [m] has returned or thrown. *)
Definition try_finally {A : Type} (m : M A) (fin : M unit) : M A :=
  fun w =>
    match m w with
    | (Pending, w') => (Pending, w')
    | (Resolved a, w') =>
        match fin w' with
        | (Resolved _, w'') => (Resolved a, w'')
        | (Rejected e', w'') => (Rejected e', w'')
        | (Pending, w'') => (Pending, w'')
        end
    | (Rejected e, w') =>
        match fin w' with
        | (Resolved _, w'') => (Rejected e, w'')
        | (Rejected e', w'') => (Rejected e', w'')
        | (Pending, w'') => (Pending, w'')
        end
    end.

(** The world after some more events. *)
Definition extend (w : World) (evs : list Event) : World :=
  {| events := events w ++ evs; outputs := outputs w |}.

(** Record an event. *)
Definition emit (ev : Event) : M unit :=
  fun w => (Resolved tt, extend w [ev]).

(** Await the answer of the remote side. *)
Definition await {A : Type} (p : Promise A) : M A := fun w => (p, w).

Definition get_outputs : M (gmap string string) :=
  fun w => (Resolved (outputs w), w).

Definition set_outputs (o : gmap string string) : M unit :=
  fun w => (Resolved tt, {| events := events w; outputs := o |}).

(** A world in which nothing has happened yet. *)
Definition fresh : World := {| events := []; outputs := ∅ |}.

(** [o ?? d] *)
Definition nullish {A : Type} (o : option A) (d : A) : A :=
  match o with
  | Some a => a
  | None => d
  end.

(** ** Calls that remove things

    Deleting a stack and its storage bucket uses SDK calls of its own.  Their
    runs are kept apart from the ones above: a run is a function on the list
    of the calls made so far. *)

Record S3Object : Type := mkS3Object { ObjectKey : option string }.

Record ListObjectsV2Output : Type := mkListObjectsV2Output {
  Contents : option (list S3Object);
  IsTruncated : option bool
}.

Record StackResourceDetail : Type := mkStackResourceDetail {
  rd_LogicalResourceId : option string;
  rd_PhysicalResourceId : option string
}.

Inductive Removal : Type :=
| RmDescribeStackResources (stack : string)
| RmListObjectsV2 (bucket : string)
| RmDeleteObjects (bucket : string) (keys : list string)
| RmDeleteBucket (bucket : string)
| RmDeleteStack (stack : string).

(** What the calls other than the listing answer. *)
Record Remover : Type := mkRemover {
  rm_DescribeStackResources :
    string -> Promise (option (list StackResourceDetail));
  rm_DeleteObjects : string -> list string -> Promise unit;
  rm_DeleteBucket : string -> Promise unit;
  rm_DeleteStack : string -> Promise unit
}.

Definition Trace (E A : Type) : Type := list E -> Promise A * list E.

Definition trace_ret {E A : Type} (a : A) : Trace E A :=
  fun log => (Resolved a, log).

Definition trace_bind {E A B : Type} (m : Trace E A) (k : A -> Trace E B)
    : Trace E B :=
  fun log =>
    match m log with
    | (Resolved a, log') => k a log'
    | (Rejected e, log') => (Rejected e, log')
    | (Pending, log') => (Pending, log')
    end.

#[global] Instance Trace_ret {E : Type} : MRet (Trace E) := @trace_ret E.
#[global] Instance Trace_bind {E : Type} : MBind (Trace E) :=
  fun A B k m => trace_bind m k.

(** Make a call and await its answer. *)
Definition call {E A : Type} (c : E) (answer : Promise A) : Trace E A :=
  fun log => (answer, log ++ [c]).

(** ** A JavaScript [Map] with string keys, in insertion order *)

Fixpoint map_set {V : Type} (k : string) (v : V) (m : list (string * V))
    : list (string * V) :=
  match m with
  | [] => [(k, v)]
  | (k', v') :: m' =>
      if String.eqb k' k then (k', v) :: m' else (k', v') :: map_set k v m'
  end.

Fixpoint map_get {V : Type} (k : string) (m : list (string * V)) : option V :=
  match m with
  | [] => None
  | (k', v') :: m' => if String.eqb k' k then Some v' else map_get k m'
  end.

Definition map_keys {V : Type} (m : list (string * V)) : list string :=
  map fst m.

(** [Set.prototype.has] on a set given by the list of its members. *)
Definition Set_has (members : list string) (s : string) : bool :=
  existsb (String.eqb s) members.

(** ** Built-in functions of JavaScript *)

(** The characters [encodeURIComponent] leaves as they are: letters, digits
    and [- _ . ! ~ * ' ( )]. *)
Definition is_unreserved (c : ascii) : bool :=
  let n := nat_of_ascii c in
  (Nat.leb 65 n && Nat.leb n 90) || (Nat.leb 97 n && Nat.leb n 122)
  || (Nat.leb 48 n && Nat.leb n 57)
  || existsb (Nat.eqb n) [45; 95; 46; 33; 126; 42; 39; 40; 41].

Definition hex_digit (n : nat) : ascii :=
  ascii_of_nat (if Nat.ltb n 10 then 48 + n else 55 + n).

(** [encodeURIComponent] on the UTF-8 bytes of a well-formed string: every
    byte that is not unreserved becomes [%XX]. *)
Fixpoint encodeURIComponent (s : string) : string :=
  match s with
  | EmptyString => EmptyString
  | String c s' =>
      if is_unreserved c then String c (encodeURIComponent s')
      else
        let n := nat_of_ascii c in
        String "%" (String (hex_digit (n / 16))
                      (String (hex_digit (n mod 16)) (encodeURIComponent s')))
  end.

(** [String.prototype.split] with a separator of one character. *)
Fixpoint String_split (sep : ascii) (s : string) : list string :=
  match s with
  | EmptyString => [EmptyString]
  | String c s' =>
      if Ascii.eqb c sep then EmptyString :: String_split sep s'
      else
        match String_split sep s' with
        | piece :: pieces => String c piece :: pieces
        | [] => [String c EmptyString]
        end
  end.

(** [Array.prototype.sort] with a comparator: a stable insertion sort; [x]
    goes before [y] when [cmp x y <= 0]. *)
Fixpoint sort_insert {A : Type} (cmp : A -> A -> Z) (x : A) (l : list A)
    : list A :=
  match l with
  | [] => [x]
  | y :: l' =>
      if (cmp x y <=? 0)%Z then x :: l else y :: sort_insert cmp x l'
  end.

Definition Array_sort {A : Type} (cmp : A -> A -> Z) (l : list A) : list A :=
  foldr (sort_insert cmp) [] l.

(** ** services/aws/cloudformation.ts *)

Module PARAMETER_NAMES.
Definition stackName := "StackName".
Definition arch := "Arch".
Definition artifactsBucket := "ArtifactsBucket".
Definition clapdbVersion := "ClapDBVersion".
Definition storageBucket := "StorageBucket".
Definition initLambda := "ClapDBInitLambda".
Definition lambdaMemorySize := "LambdaMemorySize".
Definition dispatcherMemorySize := "DispatcherMemorySize".
Definition reducerMemorySize := "ReducerMemorySize".
Definition workerMemorySize := "WorkerMemorySize".
Definition enablePrivateVpc := "EnablePrivateVPC".
Definition enablePrivateEndpoint := "EnablePrivateEndpoint".
Definition enableLogging := "EnableLogging".
Definition dataApiUrl := "ClapDataApiURL".
Definition licenseApiUrl := "ClapLicenseApiURL".
End PARAMETER_NAMES.

(** [{ ParameterKey: k, ParameterValue: v }] *)
Definition param_value (k : string) (v : option string) : CfnParameter :=
  {| ParameterKey := k; ParameterValue := v; UsePreviousValue := None |}.

(** [{ ParameterKey: k, UsePreviousValue: true }] *)
Definition param_previous (k : string) : CfnParameter :=
  {| ParameterKey := k; ParameterValue := None; UsePreviousValue := Some true |}.

Module CloudFormationService.

(** The [Parameters] array of the [CreateStackCommand]. *)
Definition createStack_Parameters (name : string) (config : DeployConfig)
    : list CfnParameter :=
  [ param_value PARAMETER_NAMES.stackName (Some name);
    param_value PARAMETER_NAMES.arch (Some (Arch_str (arch config)));
    param_value PARAMETER_NAMES.artifactsBucket (artifactsBucket config);
    param_value PARAMETER_NAMES.clapdbVersion (clapdbVersion config);
    param_value PARAMETER_NAMES.lambdaMemorySize
      (Some (String_of_number (lambdaMemorySize config)));
    param_value PARAMETER_NAMES.enablePrivateVpc
      (Some (String_of_bool (enablePrivateVpc config)));
    param_value PARAMETER_NAMES.enablePrivateEndpoint
      (Some (String_of_bool (enablePrivateEndpoint config)));
    param_value PARAMETER_NAMES.enableLogging
      (Some (String_of_bool (enableLogging config))) ].

Definition createStack_input (name : string) (config : DeployConfig)
    : CreateStackInput :=
  {| cs_StackName := name;
     cs_TemplateBody := templateBody config;
     cs_Capabilities := ["CAPABILITY_IAM"];
     cs_Parameters := createStack_Parameters name config;
     cs_Tags := [ {| Key := "Vendor"; Value := "ClapDB" |} ] |}.

Definition createStack (cloud : Cloud) (name : string) (config : DeployConfig)
    : M string :=
  let command := createStack_input name config in
  emit (EvCreateStack command);;
  response ← await (cfn_CreateStack cloud command);
  mret (nullish response "").

Definition getTemplateBody (cloud : Cloud) (stackName : string) : M string :=
  emit (EvGetTemplate stackName);;
  response ← await (cfn_GetTemplate cloud stackName);
  mret (nullish response "").

(** The [Parameters] array of the [UpdateStackCommand]. *)
Definition updateStack_Parameters (name : string) (config : DeployConfig)
    : list CfnParameter :=
  [ param_value PARAMETER_NAMES.stackName (Some name);
    param_previous PARAMETER_NAMES.arch;
    param_previous PARAMETER_NAMES.artifactsBucket;
    param_value PARAMETER_NAMES.clapdbVersion (clapdbVersion config);
    param_previous PARAMETER_NAMES.enablePrivateVpc;
    param_previous PARAMETER_NAMES.enablePrivateEndpoint;
    param_value PARAMETER_NAMES.lambdaMemorySize
      (Some (String_of_number (lambdaMemorySize config)));
    param_value PARAMETER_NAMES.dispatcherMemorySize
      (Some (String_of_number (dispatcherMemorySize config)));
    param_value PARAMETER_NAMES.reducerMemorySize
      (Some (String_of_number (reducerMemorySize config)));
    param_value PARAMETER_NAMES.workerMemorySize
      (Some (String_of_number (workerMemorySize config)));
    param_value PARAMETER_NAMES.enableLogging
      (Some (String_of_bool (enableLogging config))) ].

Definition updateStack_input (name : string) (config : DeployConfig)
    (templateBody : string) : UpdateStackInput :=
  {| us_StackName := name;
     us_TemplateBody := Some templateBody;
     us_Capabilities := ["CAPABILITY_NAMED_IAM"];
     us_Parameters := updateStack_Parameters name config;
     us_Tags := [ {| Key := "Vendor"; Value := "ClapDB" |} ];
     us_UsePreviousTemplate := false |}.

Definition updateStack (cloud : Cloud) (name : string) (config : DeployConfig)
    : M string :=
  templateBody ←
    (if negb (truthy_opt (templateBody config))
     then getTemplateBody cloud name
     else mret (nullish (templateBody config) ""));
  let command := updateStack_input name config templateBody in
  emit (EvUpdateStack command);;
  response ← await (cfn_UpdateStack cloud command);
  mret (nullish response "").

Definition getStackStatus (cloud : Cloud) (stackName : string) : M string :=
  emit (EvDescribeStacks stackName);;
  response ← await (cfn_DescribeStacks cloud stackName);
  match nullish response [] with
  | [] => throw (new_Error ("Stack '" +:+ stackName +:+ "' not found"))
  | stack :: _ => mret (nullish (StackStatus stack) "")
  end.

(** The inner loop of [getOutputs]: the outputs of one stack. *)
Definition set_stack_outputs (acc : gmap string string) (stack : Stack)
    : gmap string string :=
  foldl (fun acc output =>
           match OutputKey output, OutputValue output with
           | Some k, Some v =>
               if truthy k && truthy v then <[k := v]> acc else acc
           | _, _ => acc
           end)
        acc (nullish (Outputs stack) []).

Definition getOutputs (cloud : Cloud) (stackName : string)
    : M (gmap string string) :=
  emit (EvDescribeStacks stackName);;
  response ← await (cfn_DescribeStacks cloud stackName);
  set_outputs (foldl set_stack_outputs ∅ (nullish response []));;
  get_outputs.

Definition getDataApiUrl (cloud : Cloud) (stackName : string) : M string :=
  cached ← get_outputs;
  (if Nat.eqb (size cached) 0
   then getOutputs cloud stackName;; mret tt
   else mret tt);;
  current ← get_outputs;
  mret (nullish (current !! PARAMETER_NAMES.dataApiUrl) "").

Definition getLicenseApiUrl (cloud : Cloud) (stackName : string) : M string :=
  cached ← get_outputs;
  (if Nat.eqb (size cached) 0
   then getOutputs cloud stackName;; mret tt
   else mret tt);;
  current ← get_outputs;
  mret (nullish (current !! PARAMETER_NAMES.licenseApiUrl) "").

Definition getInitLambdaName (cloud : Cloud) (stackName : string) : M string :=
  cached ← get_outputs;
  (if Nat.eqb (size cached) 0
   then getOutputs cloud stackName;; mret tt
   else mret tt);;
  current ← get_outputs;
  mret (nullish (current !! PARAMETER_NAMES.initLambda) "").

Definition getResourcesStatus (cloud : Cloud) (stackName : string)
    : M (list (string * string)) :=
  emit (EvDescribeStackResources stackName);;
  response ← await (cfn_DescribeStackResources cloud stackName);
  mret (foldl (fun status resource =>
                 match LogicalResourceId resource, ResourceStatus resource with
                 | Some id, Some st =>
                     if truthy id && truthy st then map_set id st status
                     else status
                 | _, _ => status
                 end)
              [] (nullish response [])).

Definition terminalStates : list string :=
  [ "CREATE_COMPLETE"; "UPDATE_COMPLETE"; "DELETE_COMPLETE";
    "UPDATE_ROLLBACK_COMPLETE" ].

Definition isStackDeployCompleted (cloud : Cloud) (stackName : string)
    : M bool :=
  status ← getStackStatus cloud stackName;
  mret (Set_has terminalStates status).

Definition failedStates : list string :=
  [ "CREATE_FAILED"; "UPDATE_FAILED"; "DELETE_FAILED"; "ROLLBACK_FAILED";
    "UPDATE_ROLLBACK_FAILED"; "ROLLBACK_COMPLETE"; "UPDATE_ROLLBACK_COMPLETE" ].

Definition isStackDeployFailed (cloud : Cloud) (stackName : string)
    : M bool :=
  status ← getStackStatus cloud stackName;
  mret (Set_has failedStates status).

Definition hasStack (cloud : Cloud) (stackName : string) : M bool :=
  try_catch
    (emit (EvDescribeStacks stackName);;
     response ← await (cfn_DescribeStacks cloud stackName);
     mret (Nat.ltb 0 (length (nullish response []))))
    (fun err =>
       if String.eqb (name err) "ValidationError" then mret false
       else throw err).

Definition inProgressStates : list string :=
  [ "CREATE_IN_PROGRESS"; "UPDATE_IN_PROGRESS"; "DELETE_IN_PROGRESS" ].

Definition isWorkingInProgress (cloud : Cloud) (stackName : string)
    : M bool :=
  try_catch
    (status ← getStackStatus cloud stackName;
     mret (Set_has inProgressStates status))
    (fun _ => mret false).

Definition deleteStack (remover : Remover) (name : string)
    : Trace Removal unit :=
  call (RmDeleteStack name) (rm_DeleteStack remover name).

Definition getResources (remover : Remover) (stackName : string)
    : Trace Removal (list (string * string)) :=
  response ← call (RmDescribeStackResources stackName)
                  (rm_DescribeStackResources remover stackName);
  mret (foldl (fun resources resource =>
                 match rd_LogicalResourceId resource,
                       rd_PhysicalResourceId resource with
                 | Some id, Some physical =>
                     if truthy id && truthy physical
                     then map_set id physical resources
                     else resources
                 | _, _ => resources
                 end)
              [] (nullish response [])).

Definition getStorageBucket (remover : Remover) (stackName : string)
    : Trace Removal string :=
  resources ← getResources remover stackName;
  mret (nullish (map_get PARAMETER_NAMES.storageBucket resources) "").

(** The fields of a described stack that [listClapDBStacks] reads; a
    creation time is a number of milliseconds. *)
Record ListedStack : Type := mkListedStack {
  ls_StackName : option string;
  ls_StackStatus : option string;
  ls_CreationTime : option Z;
  ls_Tags : option (list (option string * option string))
}.

Record CloudFormationStack : Type := mkCloudFormationStack {
  cfs_name : string;
  cfs_status : string;
  cfs_createdAt : Z
}.

(** [stack.Tags?.some(tag => tag.Key === 'Vendor' && tag.Value === 'ClapDB')],
    as a truth value. *)
Definition isClapDB (stack : ListedStack) : bool :=
  match ls_Tags stack with
  | None => false
  | Some tags =>
      existsb (fun tag =>
                 match tag with
                 | (Some k, Some v) =>
                     String.eqb k "Vendor" && String.eqb v "ClapDB"
                 | _ => false
                 end) tags
  end.

(** [listClapDBStacks], given what the listing of all stacks answers. *)
Definition listClapDBStacks (answer : Promise (option (list ListedStack)))
    : Promise (list CloudFormationStack) :=
  match answer with
  | Pending => Pending
  | Rejected e => Rejected e
  | Resolved response =>
      Resolved
        (foldl (fun stacks stack =>
                  match ls_StackName stack, ls_StackStatus stack,
                        ls_CreationTime stack with
                  | Some n, Some st, Some t =>
                      if isClapDB stack && truthy n && truthy st
                      then stacks ++ [ {| cfs_name := n; cfs_status := st;
                                          cfs_createdAt := t |} ]
                      else stacks
                  | _, _, _ => stacks
                  end)
               [] (nullish response []))
  end.

End CloudFormationService.

(** ** services/aws/s3.ts *)

(** The ASCII white space that [String.prototype.trim] removes. *)
Definition is_space (c : ascii) : bool :=
  let n := nat_of_ascii c in
  (Nat.leb 9 n && Nat.leb n 13) || Nat.eqb n 32.

Fixpoint trim_start (s : string) : string :=
  match s with
  | EmptyString => EmptyString
  | String c s' => if is_space c then trim_start s' else s
  end.

Fixpoint trim_end (s : string) : string :=
  match s with
  | EmptyString => EmptyString
  | String c s' =>
      match trim_end s' with
      | EmptyString => if is_space c then EmptyString else String c EmptyString
      | t => String c t
      end
  end.

Definition trim (s : string) : string := trim_end (trim_start s).

Module S3Service.

Definition readObject (cloud : Cloud) (bucket key : string) : M string :=
  emit (EvGetObject bucket key);;
  response ← await (s3_GetObject cloud bucket key);
  mret (nullish response "").

Definition getLatestTag (cloud : Cloud) (bucket : string) : M string :=
  emit (EvGetLatestTag bucket);;
  try_catch
    (content ← readObject cloud bucket "LATEST_TAG";
     mret (trim content))
    (fun _ => throw (new_Error ("Failed to get latest tag from bucket " +:+ bucket))).

Definition getLatestHash (cloud : Cloud) (bucket : string) : M string :=
  emit (EvGetLatestHash bucket);;
  try_catch
    (content ← readObject cloud bucket "LATEST_HASH";
     mret (trim content))
    (fun _ => throw (new_Error ("Failed to get latest hash from bucket " +:+ bucket))).

Definition hasArtifact (cloud : Cloud) (bucket version arch : string)
    : M bool :=
  emit (EvHasArtifact bucket version arch);;
  let key := version +:+ "/" +:+ arch +:+ "/bootstrap.zip" in
  try_catch
    (emit (EvGetObject bucket key);;
     await (s3_GetObject cloud bucket key);;
     mret true)
    (fun _ => mret false).

(** [deleteAllObjects]: every call lists the bucket anew; [listings] holds
    what the successive listings answer, and the run is left pending when it
    is used up. *)
Fixpoint deleteAllObjects (remover : Remover)
    (listings : list (Promise ListObjectsV2Output)) (bucketName : string)
    : Trace Removal unit :=
  match listings with
  | [] => call (RmListObjectsV2 bucketName) Pending
  | answer :: later =>
      response ← call (RmListObjectsV2 bucketName) answer;
      match nullish (Contents response) [] with
      | [] => mret tt
      | contents =>
          let objects :=
            omap (fun obj =>
                    match ObjectKey obj with
                    | Some key => if truthy key then Some key else None
                    | None => None
                    end) contents in
          call (RmDeleteObjects bucketName objects)
               (rm_DeleteObjects remover bucketName objects);;
          if nullish (IsTruncated response) false
          then deleteAllObjects remover later bucketName
          else mret tt
      end
  end.

Definition deleteBucket (remover : Remover)
    (listings : list (Promise ListObjectsV2Output)) (bucketName : string)
    : Trace Removal unit :=
  deleteAllObjects remover listings bucketName;;
  call (RmDeleteBucket bucketName) (rm_DeleteBucket remover bucketName).

End S3Service.

(** The remote side once the script of a run is used up: no call is
    answered any more. *)
Definition unanswering : Cloud :=
  {| s3_GetObject := fun _ _ => Pending;
     cfn_CreateStack := fun _ => Pending;
     cfn_UpdateStack := fun _ => Pending;
     cfn_GetTemplate := fun _ => Pending;
     cfn_DescribeStacks := fun _ => Pending;
     cfn_DescribeStackResources := fun _ => Pending |}.

(** The remote side at the next call of a scripted run. *)
Definition next_cloud (script : list Cloud) : Cloud :=
  match script with
  | [] => unanswering
  | cloud :: _ => cloud
  end.

Definition DeployAction_eqb (a b : DeployAction) : bool :=
  match a, b with
  | Deploy, Deploy | Update, Update | Delete, Delete => true
  | _, _ => false
  end.

(** The result of a block that may [return] from the enclosing function:
    [Return r] leaves the function with [r], [Next a] goes on with [a]. *)
Inductive Flow (R A : Type) : Type :=
| Return (r : R)
| Next (a : A).
Arguments Return {R A} r.
Arguments Next {R A} a.

(** ** services/cloud/aws/provider.ts *)

Module AWSCloudProvider.

Definition deployService (cloud : Cloud) (region : string)
    (stackName : string) (config : DeployConfig) : M string :=
  let bucket := nullish (artifactsBucket config) (getArtifactsBucket region) in
  version ←
    match clapdbVersion config with
    | None => S3Service.getLatestTag cloud bucket
    | Some version =>
        if negb (truthy version) then S3Service.getLatestTag cloud bucket
        else if String.eqb version "latest"
        then S3Service.getLatestHash cloud bucket
        else
          hasArtifact ←
            S3Service.hasArtifact cloud bucket version (Arch_str (arch config));
          if negb hasArtifact then throw (new_Error "Invalid version")
          else mret version
    end;
  let deployConfig := with_version_bucket config version bucket in
  CloudFormationService.createStack cloud stackName deployConfig.

Definition updateService (cloud : Cloud) (region : string)
    (stackName : string) (config : DeployConfig) : M string :=
  let bucket := nullish (artifactsBucket config) (getArtifactsBucket region) in
  version ←
    match clapdbVersion config with
    | None => S3Service.getLatestTag cloud bucket
    | Some version =>
        if negb (truthy version) then S3Service.getLatestTag cloud bucket
        else if String.eqb version "latest"
        then S3Service.getLatestHash cloud bucket
        else
          hasArtifact ←
            S3Service.hasArtifact cloud bucket version (Arch_str (arch config));
          if negb hasArtifact
          then throw (new_Error "Artifact not found, check the version/commit")
          else mret version
    end;
  let updateConfig := with_version_bucket config version bucket in
  CloudFormationService.updateStack cloud stackName updateConfig.

(** The [for ... of] loop of [showFirstProcessedResource]: the first entry,
    in the map's order, at which one of the three tests succeeds. *)
Fixpoint first_processed (action : DeployAction)
    (status : list (string * string)) : option (string * string) :=
  match status with
  | [] => None
  | (resource, resourceStatus) :: rest =>
      if DeployAction_eqb action Deploy
         && (String.eqb resourceStatus "CREATE_COMPLETE"
             || String.eqb resourceStatus "UPDATE_COMPLETE")
      then Some (resource, resourceStatus)
      else if DeployAction_eqb action Delete
              && String.eqb resourceStatus "DELETE_COMPLETE"
      then Some (resource, resourceStatus)
      else if DeployAction_eqb action Update
              && String.eqb resourceStatus "UPDATE_COMPLETE"
      then Some (resource, resourceStatus)
      else first_processed action rest
  end.

Definition showFirstProcessedResource (cloud : Cloud) (stackName : string)
    (action : DeployAction) : M bool :=
  flow ←
    try_catch
      (status ← CloudFormationService.getResourcesStatus cloud stackName;
       match first_processed action status with
       | Some (resource, resourceStatus) =>
           emit (EvSpinnerText (" " +:+ resource +:+ " => " +:+ resourceStatus));;
           mret (Return true)
       | None => mret (Next tt)
       end)
      (fun _ =>
         if DeployAction_eqb action Delete || DeployAction_eqb action Deploy
         then mret (Return true)
         else mret (Next tt));
  match flow with
  | Return r => mret r
  | Next _ => mret false
  end.

Definition messages (action : DeployAction) : string :=
  match action with
  | Deploy => "deploy service failed, you should check deploy detail"
  | Update => "update service failed, you should check update detail"
  | Delete => "delete service failed, you should check delete detail"
  end.

(** The [while (true)] loop of [watchService].  Every status query takes the
    next oracle of [script]; the resource query of an iteration is answered
    by the oracle of that iteration's status query. *)
Fixpoint watchLoop (script : list Cloud) (stackName : string)
    (action : DeployAction) : M unit :=
  match script with
  | [] => CloudFormationService.isStackDeployCompleted unanswering stackName;; mret tt
  | cloud :: later =>
      completed ←
        try_catch
          (c ← CloudFormationService.isStackDeployCompleted cloud stackName;
           mret (Next c))
          (fun _ =>
             if DeployAction_eqb action Delete then mret (Return tt)
             else throw (new_Error "Failed to check deployment status"));
      match completed with
      | Return _ => mret tt
      | Next false =>
          showFirstProcessedResource cloud stackName action;;
          emit (EvSleep 500);;
          watchLoop later stackName action
      | Next true =>
          failed ←
            try_catch
              (f ← CloudFormationService.isStackDeployFailed
                     (next_cloud later) stackName;
               mret (Next f))
              (fun _ =>
                 if DeployAction_eqb action Delete then mret (Return tt)
                 else throw (new_Error "Failed to check deployment status"));
          match failed with
          | Return _ => mret tt
          | Next true => throw (new_Error (messages action))
          | Next false => mret tt
          end
      end
  end.

Definition watchService (script : list Cloud) (stackName : string)
    (action : DeployAction) : M unit :=
  try_finally (watchLoop script stackName action) (emit EvSpinnerStop).

(** [ArtifactInfo] of services/cloud/types.ts; the field [exists] is
    [exists_] here. *)
Record ArtifactInfo : Type := mkArtifactInfo {
  latestTag : string;
  latestHash : string;
  exists_ : bool
}.

Definition getArtifactInfo (cloud : Cloud) (bucket : string)
    (version arch : option string) : M ArtifactInfo :=
  latestTag ← S3Service.getLatestTag cloud bucket;
  latestHash ← S3Service.getLatestHash cloud bucket;
  exists_ ←
    (if truthy_opt version && truthy_opt arch
     then S3Service.hasArtifact cloud bucket (nullish version "") (nullish arch "")
     else mret true);
  mret {| latestTag := latestTag; latestHash := latestHash; exists_ := exists_ |}.

Definition isAWSChinaRegion (region : string) : bool :=
  String.prefix "cn-" region.

Definition getConsoleUrl (region : string) (stackId : string) : string :=
  let consoleDomain :=
    if isAWSChinaRegion region then "https://console.amazonaws.cn"
    else "https://console.aws.amazon.com" in
  consoleDomain +:+ "/cloudformation/home?region=" +:+ region
  +:+ "#/stacks/stackinfo?stackId=" +:+ encodeURIComponent stackId.

(** [deleteService]; the two lines it prints around the deletion of the
    bucket are not calls and leave no trace. *)
Definition deleteService (remover : Remover)
    (listings : list (Promise ListObjectsV2Output)) (region : string)
    (stackName : string) (withStorage : bool) : Trace Removal string :=
  (if withStorage
   then
     bucketName ← CloudFormationService.getStorageBucket remover stackName;
     if truthy bucketName
     then S3Service.deleteBucket remover listings bucketName
     else mret tt
   else mret tt);;
  CloudFormationService.deleteStack remover stackName;;
  mret (getConsoleUrl region stackName).

End AWSCloudProvider.

(** ** services/aws/index.ts: the legacy service *)

Module AWSService.

(** The [for ... of] loop of [showFirstProcessedResource]: the first entry,
    in the map's order, at which one of the three tests succeeds. *)
Fixpoint first_processed (action : DeployAction)
    (status : list (string * string)) : option (string * string) :=
  match status with
  | [] => None
  | (resource, resourceStatus) :: rest =>
      if DeployAction_eqb action Deploy
         && (String.eqb resourceStatus "CREATE_COMPLETE"
             || String.eqb resourceStatus "UPDATE_COMPLETE")
      then Some (resource, resourceStatus)
      else if DeployAction_eqb action Delete
              && String.eqb resourceStatus "DELETE_COMPLETE"
      then Some (resource, resourceStatus)
      else if DeployAction_eqb action Update
              && String.eqb resourceStatus "UPDATE_COMPLETE"
      then Some (resource, resourceStatus)
      else first_processed action rest
  end.

Definition showFirstProcessedResource (cloud : Cloud) (stackName : string)
    (action : DeployAction) : M bool :=
  flow ←
    try_catch
      (status ← CloudFormationService.getResourcesStatus cloud stackName;
       match first_processed action status with
       | Some (resource, resourceStatus) =>
           emit (EvSpinnerText (" " +:+ resource +:+ " => " +:+ resourceStatus));;
           mret (Return true)
       | None => mret (Next tt)
       end)
      (fun _ =>
         if DeployAction_eqb action Delete || DeployAction_eqb action Deploy
         then mret (Return true)
         else mret (Next tt));
  match flow with
  | Return r => mret r
  | Next _ => mret false
  end.

Definition messages (action : DeployAction) : string :=
  match action with
  | Deploy => "deploy service failed, you should check deploy detail"
  | Update => "update service failed, you should check update detail"
  | Delete => "delete service failed, you should check delete detail"
  end.

(** The [while (true)] loop of [watchService].  Every status query takes the
    next oracle of [script]; the resource query of an iteration is answered
    by the oracle of that iteration's status query. *)
Fixpoint watchLoop (script : list Cloud) (stackName : string)
    (action : DeployAction) : M unit :=
  match script with
  | [] => CloudFormationService.isStackDeployCompleted unanswering stackName;; mret tt
  | cloud :: later =>
      completed ←
        try_catch
          (c ← CloudFormationService.isStackDeployCompleted cloud stackName;
           mret (Next c))
          (fun err =>
             if DeployAction_eqb action Delete then mret (Return tt)
             else throw err);
      match completed with
      | Return _ => mret tt
      | Next false =>
          showFirstProcessedResource cloud stackName action;;
          emit (EvSleep 500);;
          watchLoop later stackName action
      | Next true =>
          failed ←
            try_catch
              (f ← CloudFormationService.isStackDeployFailed
                     (next_cloud later) stackName;
               mret (Next f))
              (fun err =>
                 if DeployAction_eqb action Delete then mret (Return tt)
                 else throw err);
          match failed with
          | Return _ => mret tt
          | Next true => throw (new_Error (messages action))
          | Next false => mret tt
          end
      end
  end.

Definition watchService (script : list Cloud) (stackName : string)
    (action : DeployAction) : M unit :=
  try_finally (watchLoop script stackName action) (emit EvSpinnerStop).

End AWSService.

(** ** services/cloud/provider.ts: the provider registry *)

(** [String.prototype.toLowerCase] on the ASCII letters. *)
Definition lower_ascii (c : ascii) : ascii :=
  let n := nat_of_ascii c in
  if Nat.leb 65 n && Nat.leb n 90 then ascii_of_nat (n + 32) else c.

Fixpoint toLowerCase (s : string) : string :=
  match s with
  | EmptyString => EmptyString
  | String c s' => String (lower_ascii c) (toLowerCase s')
  end.

(** [Array.prototype.join] *)
Definition join (sep : string) (l : list string) : string :=
  String.concat sep l.

Module provider.
Section Registry.

(** The provider type is left open: the registry only passes providers on. *)
Context {CloudProvider : Type}.

Definition CloudProviderFactory : Type := string -> Promise CloudProvider.

(** The module-level [providerFactories] map, passed explicitly. *)
Definition Registry : Type := list (string * CloudProviderFactory).

Definition registerCloudProvider (name : string)
    (factory : CloudProviderFactory) (providerFactories : Registry) : Registry :=
  map_set (toLowerCase name) factory providerFactories.

Definition createCloudProvider (providerFactories : Registry)
    (name : string) (profile : string) : Promise CloudProvider :=
  match map_get (toLowerCase name) providerFactories with
  | None =>
      let available := join ", " (map_keys providerFactories) in
      Rejected (new_Error ("Unknown cloud provider: " +:+ name
                           +:+ ". Available: "
                           +:+ (if truthy available then available else "none")))
  | Some factory => factory profile
  end.

Definition getRegisteredProviders (providerFactories : Registry)
    : list string :=
  map_keys providerFactories.

End Registry.
End provider.

(** ** services/aws/ecr.ts *)

Record ImageDetail : Type := mkImageDetail {
  imagePushedAt : option Z;
  imageTags : option (list string)
}.

Module ECRService.

(** [a.imagePushedAt?.getTime() ?? 0] *)
Definition pushed (image : ImageDetail) : Z := nullish (imagePushedAt image) 0%Z.

(** [getLatestImage], given what the description of the tagged images
    answers. *)
Definition getLatestImage (answer : Promise (option (list ImageDetail)))
    (repositoryName : string) : Promise string :=
  match answer with
  | Pending => Pending
  | Rejected e => Rejected e
  | Resolved response =>
      match nullish response [] with
      | [] =>
          Rejected (new_Error ("No images found in repository "
                               +:+ repositoryName))
      | imageDetails =>
          let sortedImages :=
            Array_sort (fun a b => (pushed b - pushed a)%Z) imageDetails in
          match sortedImages with
          | [] =>
              Rejected {| name := "TypeError";
                          message := "Cannot read properties of undefined" |}
          | latestImage :: _ =>
              match nullish (imageTags latestImage) [] with
              | tag :: _ =>
                  if truthy tag then Resolved tag
                  else Rejected (new_Error "Latest image has no tag")
              | [] => Rejected (new_Error "Latest image has no tag")
              end
          end
      end
  end.

End ECRService.

(** ** services/clapdb/regression.ts *)

Definition is_digit (c : ascii) : bool :=
  let n := nat_of_ascii c in Nat.leb 48 n && Nat.leb n 57.

(** The value of the longest prefix of decimal digits, if there is a digit. *)
Fixpoint digits_value (s : string) (acc : option Z) : option Z :=
  match s with
  | EmptyString => acc
  | String c s' =>
      if is_digit c
      then digits_value s'
             (Some (10 * nullish acc 0 + Z.of_nat (nat_of_ascii c - 48)))%Z
      else acc
  end.

(** [Number.parseInt(s, 10)]: white space, an optional sign, then digits;
    [None] is [NaN].  The value is exact, as it is in JavaScript up to
    2^53. *)
Definition parseInt (s : string) : option Z :=
  match trim_start s with
  | String "-" s' => Z.opp <$> digits_value s' None
  | String "+" s' => digits_value s' None
  | s' => digits_value s' None
  end.

Module regression.

Definition parseSubset (value : string) : list Z :=
  if negb (truthy value) then []
  else omap (fun s => parseInt (trim s)) (String_split "," value).

Definition isInSubset (val : Z) (subset : list Z) : bool :=
  if Nat.eqb (length subset) 0 then true
  else existsb (Z.eqb val) subset.

End regression.

(** ** utils/password.ts *)

Module password.

Definition lowercase : string := "abcdefghijklmnopqrstuvwxyz".
Definition uppercase : string := "ABCDEFGHIJKLMNOPQRSTUVWXYZ".
Definition digits : string := "0123456789".
Definition special : string := "!@#$%^&*".

(** [password += chars[i]]: what is appended; an index out of range appends
    the text of [undefined]. *)
Definition pick (chars : string) (i : nat) : string :=
  match String.get i chars with
  | Some c => String c EmptyString
  | None => "undefined"
  end.

Section Random.

(** [random k n] is [Math.floor(Math.random() * n)] at the [k]-th call of
    [Math.random]; [shuffle] is what sorting with the comparator
    [() => Math.random() - 0.5] makes of an array of characters. *)
Variable random : nat -> nat -> nat.
Variable shuffle : list ascii -> list ascii.

(** The loop [for (let i = password.length; i < length; i++)], [count]
    rounds of it, the next call of [Math.random] being the [k]-th. *)
Fixpoint fill (allChars : string) (k count : nat) (password : string)
    : string :=
  match count with
  | O => password
  | S count' =>
      fill allChars (S k) count'
        (password +:+ pick allChars (random k (String.length allChars)))
  end.

Definition generateRandomPassword (length : nat) : string :=
  let allChars := lowercase +:+ uppercase +:+ digits +:+ special in
  let password := "" in
  let password :=
    password +:+ pick lowercase (random 0 (String.length lowercase)) in
  let password :=
    password +:+ pick uppercase (random 1 (String.length uppercase)) in
  let password :=
    password +:+ pick digits (random 2 (String.length digits)) in
  let password :=
    password +:+ pick special (random 3 (String.length special)) in
  let password :=
    fill allChars 4 (length - String.length password) password in
  string_of_list_ascii (shuffle (list_ascii_of_string password)).

End Random.

(** [/[a-z]/], [/[A-Z]/], [/\d/] and [/[!@#$%^&*]/] on one character; the
    characters of a string stand for its code units. *)
Definition is_lowercase (c : ascii) : bool :=
  let n := nat_of_ascii c in Nat.leb 97 n && Nat.leb n 122.
Definition is_uppercase (c : ascii) : bool :=
  let n := nat_of_ascii c in Nat.leb 65 n && Nat.leb n 90.
Definition is_decimal (c : ascii) : bool :=
  let n := nat_of_ascii c in Nat.leb 48 n && Nat.leb n 57.
Definition is_special (c : ascii) : bool :=
  existsb (Ascii.eqb c) (list_ascii_of_string special).

Definition isPasswordValid (password : string) : bool :=
  if Nat.ltb (String.length password) 8 then false
  else
    let hasLowercase := existsb is_lowercase (list_ascii_of_string password) in
    let hasUppercase := existsb is_uppercase (list_ascii_of_string password) in
    let hasDigit := existsb is_decimal (list_ascii_of_string password) in
    let hasSpecial := existsb is_special (list_ascii_of_string password) in
    hasLowercase && hasUppercase && hasDigit && hasSpecial.

End password.

(** ** utils/console.ts *)

(** ['*'.repeat(n)] *)
Fixpoint stars (n : nat) : string :=
  match n with
  | O => EmptyString
  | S n' => String "*" (stars n')
  end.

Definition mask (value : string) : string :=
  if Nat.leb (String.length value) 4 then stars (String.length value)
  else
    substring 0 2 value +:+ stars (String.length value - 4)
    +:+ substring (String.length value - 2) 2 value.

(** ** Observations on runs, used to state the properties *)

(** The parameter submitted under a key: the first entry with that key. *)
Definition find_param (key : string) (ps : list CfnParameter)
    : option CfnParameter :=
  List.find (fun p => String.eqb (ParameterKey p) key) ps.

Definition param_keys (ps : list CfnParameter) : list string :=
  map ParameterKey ps.

(** A configuration with other memory sizes for the three non-lambda roles. *)
Definition with_role_sizes (config : DeployConfig) (d r k : Z) : DeployConfig :=
  {| stackName := stackName config;
     arch := arch config;
     lambdaMemorySize := lambdaMemorySize config;
     dispatcherMemorySize := d;
     reducerMemorySize := r;
     workerMemorySize := k;
     enablePrivateVpc := enablePrivateVpc config;
     enablePrivateEndpoint := enablePrivateEndpoint config;
     enableLogging := enableLogging config;
     clapdbVersion := clapdbVersion config;
     artifactsBucket := artifactsBucket config;
     templateBody := templateBody config;
     updateBuiltinTemplate := updateBuiltinTemplate config |}.

(** The configuration the schema's defaults give for a stack name and,
    possibly, a version. *)
Definition plain_config (name : string) (version : option string)
    : DeployConfig :=
  {| stackName := name;
     arch := x86_64;
     lambdaMemorySize := 3008;
     dispatcherMemorySize := 3008;
     reducerMemorySize := 3008;
     workerMemorySize := 3008;
     enablePrivateVpc := false;
     enablePrivateEndpoint := false;
     enableLogging := false;
     clapdbVersion := version;
     artifactsBucket := None;
     templateBody := None;
     updateBuiltinTemplate := false |}.

(** The parameter lists of the update requests among some events. *)
Definition update_requests (evs : list Event) : list (list CfnParameter) :=
  omap (fun ev =>
          match ev with
          | EvUpdateStack input => Some (us_Parameters input)
          | _ => None
          end) evs.

(** The parameter lists of the create requests among some events. *)
Definition create_requests (evs : list Event) : list (list CfnParameter) :=
  omap (fun ev =>
          match ev with
          | EvCreateStack input => Some (cs_Parameters input)
          | _ => None
          end) evs.

(** The artifact queries among some events, in order. *)
Definition is_artifact_query (ev : Event) : bool :=
  match ev with
  | EvGetLatestTag _ | EvGetLatestHash _ | EvHasArtifact _ _ _ => true
  | _ => false
  end.

Definition artifact_queries (evs : list Event) : list Event :=
  List.filter is_artifact_query evs.

(** The reads of the object store among some events, in order. *)
Definition is_store_read (ev : Event) : bool :=
  match ev with
  | EvGetObject _ _ => true
  | _ => false
  end.

Definition store_reads (evs : list Event) : list Event :=
  List.filter is_store_read evs.

(** The requests that change a stack among some events, in order. *)
Definition is_mutation (ev : Event) : bool :=
  match ev with
  | EvCreateStack _ | EvUpdateStack _ => true
  | _ => false
  end.

Definition mutations (evs : list Event) : list Event :=
  List.filter is_mutation evs.

(** The key under which the artifact of a version and architecture lives. *)
Definition artifact_key (version arch : string) : string :=
  version +:+ "/" +:+ arch +:+ "/bootstrap.zip".

(** What a status query answers against an oracle. *)
Definition status_reply (cloud : Cloud) (stackName : string) : Promise string :=
  fst (CloudFormationService.getStackStatus cloud stackName fresh).

(** An oracle at which the watcher goes round once more: the status query
    answers with a status outside the terminal states and the resource query
    is answered, with a result or an error. *)
Definition polls_on (stackName : string) (cloud : Cloud) : bool :=
  match status_reply cloud stackName with
  | Resolved status =>
      negb (Set_has CloudFormationService.terminalStates status)
      && match cfn_DescribeStackResources cloud stackName with
         | Pending => false
         | _ => true
         end
  | _ => false
  end.

(** The events of the progress report of one iteration. *)
Definition progress_events (cloud : Cloud) (stackName : string)
    (action : DeployAction) : list Event :=
  events (snd (AWSCloudProvider.showFirstProcessedResource
                 cloud stackName action fresh)).

(** The events of the rounds the watcher goes through on the oracles of
    [pre], each a status query, a progress report and a sleep. *)
Definition rounds (stackName : string) (action : DeployAction)
    (pre : list Cloud) : list Event :=
  flat_map (fun cloud =>
              EvDescribeStacks stackName
              :: progress_events cloud stackName action ++ [EvSleep 500])
           pre.

(** What the provider's watcher makes of a status query that throws. *)
Definition on_status_error (action : DeployAction) : Promise unit :=
  if DeployAction_eqb action Delete then Resolved tt
  else Rejected (new_Error "Failed to check deployment status").

(** What the legacy watcher makes of a status query that throws [e]. *)
Definition on_status_error_legacy (action : DeployAction) (e : JsError)
    : Promise unit :=
  if DeployAction_eqb action Delete then Resolved tt else Rejected e.

(** Counting among some events: status queries, releases of the spinner,
    sleeps of the polling loop. *)
Definition is_status_query (ev : Event) : bool :=
  match ev with
  | EvDescribeStacks _ => true
  | _ => false
  end.

Definition is_spinner_stop (ev : Event) : bool :=
  match ev with
  | EvSpinnerStop => true
  | _ => false
  end.

Definition is_sleep (ev : Event) : bool :=
  match ev with
  | EvSleep _ => true
  | _ => false
  end.

Definition count (p : Event -> bool) (w : World) : nat :=
  length (List.filter p (events w)).

(** A stack that is in the given status and has no resources to show. *)
Definition stack_in (status : string) : Cloud :=
  {| s3_GetObject := fun _ _ => Pending;
     cfn_CreateStack := fun _ => Pending;
     cfn_UpdateStack := fun _ => Pending;
     cfn_GetTemplate := fun _ => Pending;
     cfn_DescribeStacks := fun _ =>
       Resolved (Some [ {| StackStatus := Some status; Outputs := None |} ]);
     cfn_DescribeStackResources := fun _ => Resolved (Some []) |}.

(** A stack whose description fails with the given error. *)
Definition stack_failing (e : JsError) : Cloud :=
  {| s3_GetObject := fun _ _ => Pending;
     cfn_CreateStack := fun _ => Pending;
     cfn_UpdateStack := fun _ => Pending;
     cfn_GetTemplate := fun _ => Pending;
     cfn_DescribeStacks := fun _ => Rejected e;
     cfn_DescribeStackResources := fun _ => Rejected e |}.

Definition validation_error : JsError :=
  {| name := "ValidationError";
     message := "Stack with id clapdb does not exist" |}.

(** The outputs map that [getOutputs] builds from a response. *)
Definition fetched_outputs (response : option (list Stack))
    : gmap string string :=
  foldl CloudFormationService.set_stack_outputs ∅ (nullish response []).

(** A stack with the given outputs. *)
Definition stack_with_outputs (outs : list (string * string)) : Cloud :=
  {| s3_GetObject := fun _ _ => Pending;
     cfn_CreateStack := fun _ => Pending;
     cfn_UpdateStack := fun _ => Pending;
     cfn_GetTemplate := fun _ => Pending;
     cfn_DescribeStacks := fun _ =>
       Resolved (Some [ {| StackStatus := Some "UPDATE_COMPLETE";
                           Outputs :=
                             Some (map (fun kv => {| OutputKey := Some (fst kv);
                                                     OutputValue := Some (snd kv) |})
                                       outs) |} ]);
     cfn_DescribeStackResources := fun _ => Resolved (Some []) |}.

(** A service instance whose outputs cache holds the given map and which
    has made no call yet. *)
Definition cached (o : gmap string string) : World :=
  {| events := []; outputs := o |}.

(** [whole] contains [part] as a substring. *)
Definition contains (part whole : string) : Prop :=
  exists before after, whole = before +:+ part +:+ after.

(** The outputs of a response that [getOutputs] keeps: those with a
    non-empty key and a non-empty value, stack by stack, in order. *)
Definition usable_output (output : Output) : option (string * string) :=
  match OutputKey output, OutputValue output with
  | Some k, Some v => if truthy k && truthy v then Some (k, v) else None
  | _, _ => None
  end.

Definition usable_outputs (response : option (list Stack))
    : list (string * string) :=
  flat_map (fun stack => omap usable_output (nullish (Outputs stack) []))
           (nullish response []).

(** The value of the last kept output of a response that has the key [k]. *)
Definition last_usable (response : option (list Stack)) (k : string)
    : option string :=
  snd <$> List.find (fun kv => String.eqb (fst kv) k)
                    (rev (usable_outputs response)).

(** The same call, [n] times in a row. *)
Fixpoint repeatedly {A : Type} (n : nat) (m : M A) : M unit :=
  match n with
  | 0 => mret tt
  | S n' => m;; repeatedly n' m
  end.

(** How the store decides the version of a request: the trimmed content
    of [LATEST_TAG] for an absent or empty token, the trimmed content of
    [LATEST_HASH] for [latest], and the token itself when its artifact for the
    architecture can be read. *)
Inductive version_from_store (cloud : Cloud) (bucket arch : string)
    : option string -> string -> Prop :=
| from_tag (token : option string) (body : option string) :
    token = None \/ token = Some "" ->
    s3_GetObject cloud bucket "LATEST_TAG" = Resolved body ->
    version_from_store cloud bucket arch token (trim (nullish body ""))
| from_hash (body : option string) :
    s3_GetObject cloud bucket "LATEST_HASH" = Resolved body ->
    version_from_store cloud bucket arch (Some "latest") (trim (nullish body ""))
| from_token (v : string) (body : option string) :
    v <> "" -> v <> "latest" ->
    s3_GetObject cloud bucket (artifact_key v arch) = Resolved body ->
    version_from_store cloud bucket arch (Some v) v.

(** The resource statuses a progress report shows for an action. *)
Definition just_completed (action : DeployAction) (resourceStatus : string)
    : bool :=
  match action with
  | Deploy =>
      String.eqb resourceStatus "CREATE_COMPLETE"
      || String.eqb resourceStatus "UPDATE_COMPLETE"
  | Update => String.eqb resourceStatus "UPDATE_COMPLETE"
  | Delete => String.eqb resourceStatus "DELETE_COMPLETE"
  end.

(** What the watcher is allowed to do: query the status and the resources
    of its stack, sleep for 500 ms, and write to or stop the spinner. *)
Definition watcher_event (stackName : string) (ev : Event) : Prop :=
  match ev with
  | EvDescribeStacks stack | EvDescribeStackResources stack => stack = stackName
  | EvSleep ms => ms = 500
  | EvSpinnerText _ | EvSpinnerStop => True
  | _ => False
  end.

(** The registry after the registrations of [regs], in order. *)
Definition register_all {CloudProvider : Type}
    (regs : list (string * (string -> Promise CloudProvider)))
    (registry : list (string * (string -> Promise CloudProvider)))
    : list (string * (string -> Promise CloudProvider)) :=
  foldl (fun r reg => provider.registerCloudProvider (fst reg) (snd reg) r)
        registry regs.

(** A stack in progress with the given resources and their statuses. *)
Definition stack_with_resources (status : string)
    (resources : list (string * string)) : Cloud :=
  {| s3_GetObject := fun _ _ => Pending;
     cfn_CreateStack := fun _ => Pending;
     cfn_UpdateStack := fun _ => Pending;
     cfn_GetTemplate := fun _ => Pending;
     cfn_DescribeStacks := fun _ =>
       Resolved (Some [ {| StackStatus := Some status; Outputs := None |} ]);
     cfn_DescribeStackResources := fun _ =>
       Resolved (Some (map (fun r => {| LogicalResourceId := Some (fst r);
                                        ResourceStatus := Some (snd r) |})
                           resources)) |}.

(** Two oracles that answer the status query alike and both answer the
    resource query, with whatever result or error. *)
Definition same_status (stackName : string) (c c' : Cloud) : Prop :=
  status_reply c stackName = status_reply c' stackName
  /\ cfn_DescribeStackResources c stackName <> Pending
  /\ cfn_DescribeStackResources c' stackName <> Pending.

(** [listed listings key]: some listing answered a page that holds an object
    with this key. *)
Definition listed (listings : list (Promise ListObjectsV2Output))
    (key : string) : Prop :=
  exists page contents obj,
    In (Resolved page) listings /\ Contents page = Some contents
    /\ In obj contents /\ ObjectKey obj = Some key.

(** A call that [deleteBucket] may make on a bucket. *)
Definition empties (remover : Remover)
    (listings : list (Promise ListObjectsV2Output)) (bucketName : string)
    (c : Removal) : Prop :=
  match c with
  | RmListObjectsV2 b => b = bucketName
  | RmDeleteObjects b keys =>
      b = bucketName /\ Forall (listed listings) keys
  | _ => False
  end.

(** The requests to delete objects of a run that were made. *)
Definition object_deletions (calls : list Removal)
    : list (string * list string) :=
  omap (fun c => match c with
                 | RmDeleteObjects b keys => Some (b, keys)
                 | _ => None
                 end) calls.

(** The number of listings of a bucket among the calls of a run. *)
Definition listings_made (calls : list Removal) : nat :=
  length (List.filter (fun c => match c with
                                | RmListObjectsV2 _ => true
                                | _ => false
                                end) calls).

(** The integers that a JavaScript number holds exactly. *)
Definition safe_integer (n : Z) : Prop :=
  (- 9007199254740992 < n < 9007199254740992)%Z.

(** Example oracles.  [artifact_store tag hash present] is a store whose
    [LATEST_TAG] and [LATEST_HASH] objects hold [tag] and [hash] and in which
    exactly the keys of [present] exist; its CloudFormation side accepts every
    request. *)
Definition not_found : JsError :=
  {| name := "NoSuchKey"; message := "The specified key does not exist." |}.

Definition artifact_store (tag hash : string) (present : list string) : Cloud :=
  {| s3_GetObject := fun _ key =>
       if String.eqb key "LATEST_TAG" then Resolved (Some tag)
       else if String.eqb key "LATEST_HASH" then Resolved (Some hash)
       else if Set_has present key then Resolved (Some "")
       else Rejected not_found;
     cfn_CreateStack := fun input => Resolved (Some ("arn:" +:+ cs_StackName input));
     cfn_UpdateStack := fun input => Resolved (Some ("arn:" +:+ us_StackName input));
     cfn_GetTemplate := fun _ => Resolved (Some "Resources: {}");
     cfn_DescribeStacks := fun _ => Resolved (Some []);
     cfn_DescribeStackResources := fun _ => Resolved (Some []) |}.

Definition access_denied : JsError :=
  {| name := "AccessDenied"; message := "Access Denied" |}.

(** A store to which every access fails. *)
Definition denied_store : Cloud :=
  {| s3_GetObject := fun _ _ => Rejected access_denied;
     cfn_CreateStack := fun input => Resolved (Some ("arn:" +:+ cs_StackName input));
     cfn_UpdateStack := fun input => Resolved (Some ("arn:" +:+ us_StackName input));
     cfn_GetTemplate := fun _ => Resolved (Some "Resources: {}");
     cfn_DescribeStacks := fun _ => Resolved (Some []);
     cfn_DescribeStackResources := fun _ => Resolved (Some []) |}.

(** * Properties *)

Import CloudFormationService.

Arguments extend : simpl never.

Ltac run :=
  unfold mbind, mret, M_bind, M_ret, bind, ret, throw, try_catch,
    try_finally, emit, await, get_outputs, set_outputs; cbn.

Ltac not_in_keys :=
  let H := fresh in
  intros H; cbn in H;
  repeat (destruct H as [H | H]; [discriminate H |]); destruct H.

(** *** Worlds *)

Lemma extend_extend (w : World) (a b : list Event) :
  extend (extend w a) b = extend w (a ++ b).
Proof. unfold extend; cbn. rewrite <- app_assoc. reflexivity. Qed.

Lemma extend_nil (w : World) : extend w [] = w.
Proof. destruct w. unfold extend; cbn. rewrite app_nil_r. reflexivity. Qed.

Lemma events_extend (w : World) (evs : list Event) :
  events (extend w evs) = events w ++ evs.
Proof. reflexivity. Qed.

Lemma outputs_extend (w : World) (evs : list Event) :
  outputs (extend w evs) = outputs w.
Proof. reflexivity. Qed.

Lemma truthy_eqb (s : string) : truthy s = negb (String.eqb s "").
Proof. destruct s; reflexivity. Qed.

(** *** Stack parameters *)

Lemma createStack_run (cloud : Cloud) (name : string) (config : DeployConfig)
    (w : World) :
  createStack cloud name config w
  = (match cfn_CreateStack cloud (createStack_input name config) with
     | Pending => Pending
     | Resolved id => Resolved (nullish id "")
     | Rejected e => Rejected e
     end,
     extend w [EvCreateStack (createStack_input name config)]).
Proof.
  unfold createStack. run. destruct (cfn_CreateStack cloud _); reflexivity.
Qed.

(** What [updateStack] does: at most a template fetch and then at most one
    update request, whose parameters are [updateStack_Parameters]. *)
Lemma updateStack_effects (cloud : Cloud) (name : string)
    (config : DeployConfig) (w : World) :
  exists evs,
    snd (updateStack cloud name config w) = extend w evs
    /\ artifact_queries evs = [] /\ store_reads evs = []
    /\ (update_requests evs = []
        \/ update_requests evs = [updateStack_Parameters name config]).
Proof.
  unfold updateStack, getTemplateBody. run.
  destruct (truthy_opt (templateBody config)); cbn.
  - destruct (cfn_UpdateStack cloud _); cbn; eexists;
      (split; [reflexivity | repeat split; right; reflexivity]).
  - destruct (cfn_GetTemplate cloud name); cbn.
    + eexists; (split; [reflexivity | repeat split; left; reflexivity]).
    + destruct (cfn_UpdateStack cloud _); cbn; rewrite extend_extend; eexists;
        (split; [reflexivity | repeat split; right; reflexivity]).
    + eexists; (split; [reflexivity | repeat split; left; reflexivity]).
Qed.

(** C10: the create request carries [LambdaMemorySize] and none of
    [DispatcherMemorySize], [ReducerMemorySize], [WorkerMemorySize]; the three
    role sizes of the configuration do not change what [createStack] does,
    and the update request does carry them. *)
Theorem createStack_omits_role_memory_sizes (cloud : Cloud) (name : string)
    (config : DeployConfig) (w : World) :
  let created := createStack_Parameters name config in
  let updated := updateStack_Parameters name config in
  (find_param "LambdaMemorySize" created
   = Some (param_value "LambdaMemorySize"
             (Some (String_of_number (lambdaMemorySize config))))
   /\ ~ In "DispatcherMemorySize" (param_keys created)
   /\ ~ In "ReducerMemorySize" (param_keys created)
   /\ ~ In "WorkerMemorySize" (param_keys created))
  /\ create_requests (events (snd (createStack cloud name config w)))
     = create_requests (events w) ++ [created]
  /\ (forall d r k : Z,
        createStack cloud name (with_role_sizes config d r k) w
        = createStack cloud name config w)
  /\ (find_param "DispatcherMemorySize" updated
      = Some (param_value "DispatcherMemorySize"
                (Some (String_of_number (dispatcherMemorySize config))))
      /\ find_param "ReducerMemorySize" updated
         = Some (param_value "ReducerMemorySize"
                   (Some (String_of_number (reducerMemorySize config))))
      /\ find_param "WorkerMemorySize" updated
         = Some (param_value "WorkerMemorySize"
                   (Some (String_of_number (workerMemorySize config))))).
Proof.
  cbn zeta. repeat split; try reflexivity; try not_in_keys.
  rewrite createStack_run. cbn [snd]. rewrite events_extend.
  unfold create_requests. rewrite omap_app. reflexivity.
Qed.

(** *** Artifact store *)

Lemma getLatestTag_run (cloud : Cloud) (bucket : string) (w : World) :
  S3Service.getLatestTag cloud bucket w
  = (match s3_GetObject cloud bucket "LATEST_TAG" with
     | Pending => Pending
     | Resolved body => Resolved (trim (nullish body ""))
     | Rejected _ =>
         Rejected (new_Error ("Failed to get latest tag from bucket " +:+ bucket))
     end,
     extend w [EvGetLatestTag bucket; EvGetObject bucket "LATEST_TAG"]).
Proof.
  unfold S3Service.getLatestTag, S3Service.readObject. run.
  rewrite extend_extend.
  destruct (s3_GetObject cloud bucket "LATEST_TAG"); reflexivity.
Qed.

Lemma getLatestHash_run (cloud : Cloud) (bucket : string) (w : World) :
  S3Service.getLatestHash cloud bucket w
  = (match s3_GetObject cloud bucket "LATEST_HASH" with
     | Pending => Pending
     | Resolved body => Resolved (trim (nullish body ""))
     | Rejected _ =>
         Rejected (new_Error ("Failed to get latest hash from bucket " +:+ bucket))
     end,
     extend w [EvGetLatestHash bucket; EvGetObject bucket "LATEST_HASH"]).
Proof.
  unfold S3Service.getLatestHash, S3Service.readObject. run.
  rewrite extend_extend.
  destruct (s3_GetObject cloud bucket "LATEST_HASH"); reflexivity.
Qed.

Lemma hasArtifact_run (cloud : Cloud) (bucket version a : string) (w : World) :
  S3Service.hasArtifact cloud bucket version a w
  = (match s3_GetObject cloud bucket (artifact_key version a) with
     | Pending => Pending
     | Resolved _ => Resolved true
     | Rejected _ => Resolved false
     end,
     extend w [EvHasArtifact bucket version a;
               EvGetObject bucket (artifact_key version a)]).
Proof.
  unfold S3Service.hasArtifact. run.
  rewrite extend_extend. fold (artifact_key version a).
  destruct (s3_GetObject cloud bucket _); reflexivity.
Qed.

Lemma artifact_queries_extend (w : World) (evs : list Event) :
  artifact_queries (events (extend w evs))
  = artifact_queries (events w) ++ artifact_queries evs.
Proof. apply List.filter_app. Qed.

Arguments createStack : simpl never.
Arguments updateStack : simpl never.
Arguments S3Service.getLatestTag : simpl never.
Arguments S3Service.getLatestHash : simpl never.
Arguments S3Service.hasArtifact : simpl never.

(** *** Version resolution: what [deployService] and [updateService] do for
    each kind of version token *)

Section Resolution.

Variables (cloud : Cloud) (region name : string) (config : DeployConfig).

Let bucket := nullish (artifactsBucket config) (getArtifactsBucket region).
Let a := Arch_str (arch config).

Lemma deployService_tag (w : World) :
  clapdbVersion config = None \/ clapdbVersion config = Some "" ->
  AWSCloudProvider.deployService cloud region name config w
  = match s3_GetObject cloud bucket "LATEST_TAG" with
    | Pending =>
        (Pending, extend w [EvGetLatestTag bucket; EvGetObject bucket "LATEST_TAG"])
    | Rejected _ =>
        (Rejected (new_Error ("Failed to get latest tag from bucket " +:+ bucket)),
         extend w [EvGetLatestTag bucket; EvGetObject bucket "LATEST_TAG"])
    | Resolved body =>
        createStack cloud name
          (with_version_bucket config (trim (nullish body "")) bucket)
          (extend w [EvGetLatestTag bucket; EvGetObject bucket "LATEST_TAG"])
    end.
Proof.
  intros H. unfold AWSCloudProvider.deployService. fold bucket.
  unfold mbind, M_bind, bind.
  destruct H as [-> | ->]; cbn [truthy negb]; rewrite getLatestTag_run;
    destruct (s3_GetObject cloud bucket "LATEST_TAG"); reflexivity.
Qed.

Lemma deployService_latest (w : World) :
  clapdbVersion config = Some "latest" ->
  AWSCloudProvider.deployService cloud region name config w
  = match s3_GetObject cloud bucket "LATEST_HASH" with
    | Pending =>
        (Pending, extend w [EvGetLatestHash bucket; EvGetObject bucket "LATEST_HASH"])
    | Rejected _ =>
        (Rejected (new_Error ("Failed to get latest hash from bucket " +:+ bucket)),
         extend w [EvGetLatestHash bucket; EvGetObject bucket "LATEST_HASH"])
    | Resolved body =>
        createStack cloud name
          (with_version_bucket config (trim (nullish body "")) bucket)
          (extend w [EvGetLatestHash bucket; EvGetObject bucket "LATEST_HASH"])
    end.
Proof.
  intros H. unfold AWSCloudProvider.deployService. fold bucket.
  unfold mbind, M_bind, bind.
  rewrite H; cbn [truthy negb String.eqb Ascii.eqb Bool.eqb]; rewrite getLatestHash_run;
    destruct (s3_GetObject cloud bucket "LATEST_HASH"); reflexivity.
Qed.

Lemma deployService_version (v : string) (w : World) :
  clapdbVersion config = Some v -> v <> "" -> v <> "latest" ->
  AWSCloudProvider.deployService cloud region name config w
  = match s3_GetObject cloud bucket (artifact_key v a) with
    | Pending =>
        (Pending,
         extend w [EvHasArtifact bucket v a;
                   EvGetObject bucket (artifact_key v a)])
    | Rejected _ =>
        (Rejected (new_Error "Invalid version"),
         extend w [EvHasArtifact bucket v a;
                   EvGetObject bucket (artifact_key v a)])
    | Resolved _ =>
        createStack cloud name (with_version_bucket config v bucket)
          (extend w [EvHasArtifact bucket v a;
                     EvGetObject bucket (artifact_key v a)])
    end.
Proof.
  intros Hv H1 H2. unfold AWSCloudProvider.deployService. fold bucket a.
  unfold mbind, M_bind, bind. rewrite Hv, truthy_eqb.
  destruct (String.eqb_spec v ""); [contradiction |].
  destruct (String.eqb_spec v "latest"); [contradiction |].
  cbn [negb]. rewrite hasArtifact_run.
  destruct (s3_GetObject cloud bucket (artifact_key v a)); reflexivity.
Qed.

Lemma updateService_tag (w : World) :
  clapdbVersion config = None \/ clapdbVersion config = Some "" ->
  AWSCloudProvider.updateService cloud region name config w
  = match s3_GetObject cloud bucket "LATEST_TAG" with
    | Pending =>
        (Pending, extend w [EvGetLatestTag bucket; EvGetObject bucket "LATEST_TAG"])
    | Rejected _ =>
        (Rejected (new_Error ("Failed to get latest tag from bucket " +:+ bucket)),
         extend w [EvGetLatestTag bucket; EvGetObject bucket "LATEST_TAG"])
    | Resolved body =>
        updateStack cloud name
          (with_version_bucket config (trim (nullish body "")) bucket)
          (extend w [EvGetLatestTag bucket; EvGetObject bucket "LATEST_TAG"])
    end.
Proof.
  intros H. unfold AWSCloudProvider.updateService. fold bucket.
  unfold mbind, M_bind, bind.
  destruct H as [-> | ->]; cbn [truthy negb]; rewrite getLatestTag_run;
    destruct (s3_GetObject cloud bucket "LATEST_TAG"); reflexivity.
Qed.

Lemma updateService_latest (w : World) :
  clapdbVersion config = Some "latest" ->
  AWSCloudProvider.updateService cloud region name config w
  = match s3_GetObject cloud bucket "LATEST_HASH" with
    | Pending =>
        (Pending, extend w [EvGetLatestHash bucket; EvGetObject bucket "LATEST_HASH"])
    | Rejected _ =>
        (Rejected (new_Error ("Failed to get latest hash from bucket " +:+ bucket)),
         extend w [EvGetLatestHash bucket; EvGetObject bucket "LATEST_HASH"])
    | Resolved body =>
        updateStack cloud name
          (with_version_bucket config (trim (nullish body "")) bucket)
          (extend w [EvGetLatestHash bucket; EvGetObject bucket "LATEST_HASH"])
    end.
Proof.
  intros H. unfold AWSCloudProvider.updateService. fold bucket.
  unfold mbind, M_bind, bind.
  rewrite H; cbn [truthy negb String.eqb Ascii.eqb Bool.eqb]; rewrite getLatestHash_run;
    destruct (s3_GetObject cloud bucket "LATEST_HASH"); reflexivity.
Qed.

Lemma updateService_version (v : string) (w : World) :
  clapdbVersion config = Some v -> v <> "" -> v <> "latest" ->
  AWSCloudProvider.updateService cloud region name config w
  = match s3_GetObject cloud bucket (artifact_key v a) with
    | Pending =>
        (Pending,
         extend w [EvHasArtifact bucket v a;
                   EvGetObject bucket (artifact_key v a)])
    | Rejected _ =>
        (Rejected (new_Error "Artifact not found, check the version/commit"),
         extend w [EvHasArtifact bucket v a;
                   EvGetObject bucket (artifact_key v a)])
    | Resolved _ =>
        updateStack cloud name (with_version_bucket config v bucket)
          (extend w [EvHasArtifact bucket v a;
                     EvGetObject bucket (artifact_key v a)])
    end.
Proof.
  intros Hv H1 H2. unfold AWSCloudProvider.updateService. fold bucket a.
  unfold mbind, M_bind, bind. rewrite Hv, truthy_eqb.
  destruct (String.eqb_spec v ""); [contradiction |].
  destruct (String.eqb_spec v "latest"); [contradiction |].
  cbn [negb]. rewrite hasArtifact_run.
  destruct (s3_GetObject cloud bucket (artifact_key v a)); reflexivity.
Qed.

End Resolution.

Lemma createStack_queries (cloud : Cloud) (name : string)
    (config : DeployConfig) (w : World) :
  artifact_queries (events (snd (createStack cloud name config w)))
  = artifact_queries (events w).
Proof.
  rewrite createStack_run. cbn [snd].
  rewrite artifact_queries_extend. apply app_nil_r.
Qed.

Lemma updateStack_queries (cloud : Cloud) (name : string)
    (config : DeployConfig) (w : World) :
  artifact_queries (events (snd (updateStack cloud name config w)))
  = artifact_queries (events w).
Proof.
  destruct (updateStack_effects cloud name config w) as (evs & -> & Hq & _).
  rewrite artifact_queries_extend, Hq. apply app_nil_r.
Qed.

Ltac queries :=
  cbn [snd];
  rewrite ?createStack_queries, ?updateStack_queries, artifact_queries_extend;
  reflexivity.

(** C3: version resolution dispatches on the token as the grammar says, on
    the deploy and on the update path: an empty token makes exactly one
    latest-tag query and no other artifact query, [latest] exactly one
    latest-hash query, any other token exactly one has-artifact query for
    that token and the architecture of the configuration; when that query
    answers false the deploy path fails with [Invalid version] and the update
    path with [Artifact not found, check the version/commit]. *)
Theorem version_resolution_dispatch (cloud : Cloud) (region name : string)
    (config : DeployConfig) (w : World) :
  let bucket := nullish (artifactsBucket config) (getArtifactsBucket region) in
  let a := Arch_str (arch config) in
  let deployed := AWSCloudProvider.deployService cloud region name config w in
  let updated := AWSCloudProvider.updateService cloud region name config w in
  (clapdbVersion config = None \/ clapdbVersion config = Some "" ->
     artifact_queries (events (snd deployed))
     = artifact_queries (events w) ++ [EvGetLatestTag bucket]
     /\ artifact_queries (events (snd updated))
        = artifact_queries (events w) ++ [EvGetLatestTag bucket])
  /\ (clapdbVersion config = Some "latest" ->
     artifact_queries (events (snd deployed))
     = artifact_queries (events w) ++ [EvGetLatestHash bucket]
     /\ artifact_queries (events (snd updated))
        = artifact_queries (events w) ++ [EvGetLatestHash bucket])
  /\ (forall v : string,
       clapdbVersion config = Some v -> v <> "" -> v <> "latest" ->
       (artifact_queries (events (snd deployed))
        = artifact_queries (events w) ++ [EvHasArtifact bucket v a]
        /\ artifact_queries (events (snd updated))
           = artifact_queries (events w) ++ [EvHasArtifact bucket v a])
       /\ (fst (S3Service.hasArtifact cloud bucket v a w) = Resolved false ->
           fst deployed = Rejected (new_Error "Invalid version")
           /\ fst updated
              = Rejected
                  (new_Error "Artifact not found, check the version/commit"))).
Proof.
  cbn zeta. split; [| split].
  - intros H. rewrite deployService_tag, updateService_tag by exact H.
    destruct (s3_GetObject cloud _ "LATEST_TAG"); split; queries.
  - intros H. rewrite deployService_latest, updateService_latest by exact H.
    destruct (s3_GetObject cloud _ "LATEST_HASH"); split; queries.
  - intros v Hv H1 H2.
    rewrite (deployService_version _ _ _ _ v), (updateService_version _ _ _ _ v)
      by assumption.
    rewrite hasArtifact_run. cbn [fst].
    destruct (s3_GetObject cloud _ (artifact_key v _)); split;
      try (split; queries); intros H; try discriminate H.
    split; reflexivity.
Qed.

(** The three cases of C3 on concrete requests against a store holding the
    tag [v3], the hash [abc123] and no artifact. *)
Lemma version_resolution_dispatch_witness :
  let store := artifact_store "v3" "abc123" [] in
  let run version :=
    AWSCloudProvider.deployService store "us-east-1" "clapdb"
      (plain_config "clapdb" version) fresh in
  artifact_queries (events (snd (run None)))
  = [EvGetLatestTag "clapdb-pkgs-us-east-1"]
  /\ artifact_queries (events (snd (run (Some "latest"))))
     = [EvGetLatestHash "clapdb-pkgs-us-east-1"]
  /\ artifact_queries (events (snd (run (Some "v9"))))
     = [EvHasArtifact "clapdb-pkgs-us-east-1" "v9" "x86_64"]
  /\ fst (run (Some "v9")) = Rejected (new_Error "Invalid version").
Proof.
  cbn zeta.
  pose proof (version_resolution_dispatch (artifact_store "v3" "abc123" [])
                "us-east-1" "clapdb" (plain_config "clapdb" None) fresh)
    as (Htag & _ & _).
  pose proof (version_resolution_dispatch (artifact_store "v3" "abc123" [])
                "us-east-1" "clapdb" (plain_config "clapdb" (Some "latest"))
                fresh)
    as (_ & Hhash & _).
  pose proof (version_resolution_dispatch (artifact_store "v3" "abc123" [])
                "us-east-1" "clapdb" (plain_config "clapdb" (Some "v9")) fresh)
    as (_ & _ & Hver).
  specialize (Htag (or_introl eq_refl)).
  specialize (Hhash eq_refl).
  specialize (Hver "v9" eq_refl).
  destruct Hver as ((Hv & _) & Habsent); [discriminate | discriminate |].
  specialize (Habsent eq_refl).
  split; [apply Htag | split; [apply Hhash | split; [apply Hv | apply Habsent]]].
Defined.

(** A store-access failure during the has-artifact check, on a store to
    which every access is denied, comes out as the artifact-absent result:
    the very results a reachable store without the artifact gives.  C5 as
    stated fails here. *)
Lemma store_failure_reported_as_absent :
  let denied version :=
    (AWSCloudProvider.deployService denied_store "us-east-1" "clapdb"
       (plain_config "clapdb" version) fresh,
     AWSCloudProvider.updateService denied_store "us-east-1" "clapdb"
       (plain_config "clapdb" version) fresh) in
  let absent version :=
    (AWSCloudProvider.deployService (artifact_store "v3" "abc123" [])
       "us-east-1" "clapdb" (plain_config "clapdb" version) fresh,
     AWSCloudProvider.updateService (artifact_store "v3" "abc123" [])
       "us-east-1" "clapdb" (plain_config "clapdb" version) fresh) in
  s3_GetObject denied_store "clapdb-pkgs-us-east-1"
    (artifact_key "v9" "x86_64") = Rejected access_denied
  /\ fst (fst (denied (Some "v9"))) = Rejected (new_Error "Invalid version")
  /\ fst (snd (denied (Some "v9")))
     = Rejected (new_Error "Artifact not found, check the version/commit")
  /\ denied (Some "v9") = absent (Some "v9").
Proof. cbn zeta. repeat split; reflexivity. Qed.

(** C5, amended: a store-access failure is never retried and no stack
    request follows it.  During the latest-tag or latest-hash read it reaches
    the caller as the error [Failed to get latest tag/hash from bucket
    <bucket>]; during the has-artifact check it is reported as an absent
    artifact: [Invalid version] on the deploy path, [Artifact not found, check
    the version/commit] on the update path. *)
Theorem store_failure_outcome (cloud : Cloud) (region name : string)
    (config : DeployConfig) (w : World) (e : JsError) :
  let bucket := nullish (artifactsBucket config) (getArtifactsBucket region) in
  let a := Arch_str (arch config) in
  let deployed := AWSCloudProvider.deployService cloud region name config w in
  let updated := AWSCloudProvider.updateService cloud region name config w in
  (clapdbVersion config = None \/ clapdbVersion config = Some "" ->
   s3_GetObject cloud bucket "LATEST_TAG" = Rejected e ->
   let failed :=
     (Rejected (new_Error ("Failed to get latest tag from bucket " +:+ bucket)),
      extend w [EvGetLatestTag bucket; EvGetObject bucket "LATEST_TAG"]) in
   deployed = failed /\ updated = failed)
  /\ (clapdbVersion config = Some "latest" ->
      s3_GetObject cloud bucket "LATEST_HASH" = Rejected e ->
      let failed :=
        (Rejected (new_Error ("Failed to get latest hash from bucket " +:+ bucket)),
         extend w [EvGetLatestHash bucket; EvGetObject bucket "LATEST_HASH"]) in
      deployed = failed /\ updated = failed)
  /\ (forall v : string,
        clapdbVersion config = Some v -> v <> "" -> v <> "latest" ->
        s3_GetObject cloud bucket (artifact_key v a) = Rejected e ->
        let after :=
          extend w [EvHasArtifact bucket v a;
                    EvGetObject bucket (artifact_key v a)] in
        deployed = (Rejected (new_Error "Invalid version"), after)
        /\ updated
           = (Rejected (new_Error "Artifact not found, check the version/commit"),
              after)).
Proof.
  cbn zeta. split; [| split].
  - intros H He. rewrite deployService_tag, updateService_tag by exact H.
    rewrite He. split; reflexivity.
  - intros H He. rewrite deployService_latest, updateService_latest by exact H.
    rewrite He. split; reflexivity.
  - intros v Hv H1 H2 He.
    rewrite (deployService_version _ _ _ _ v), (updateService_version _ _ _ _ v)
      by assumption.
    rewrite He. split; reflexivity.
Qed.

(** The three cases of the amended C5 on the store to which every access is
    denied. *)
Lemma store_failure_outcome_witness :
  let run version :=
    AWSCloudProvider.deployService denied_store "us-east-1" "clapdb"
      (plain_config "clapdb" version) fresh in
  let bucket := "clapdb-pkgs-us-east-1" in
  run None
  = (Rejected (new_Error "Failed to get latest tag from bucket clapdb-pkgs-us-east-1"),
     extend fresh [EvGetLatestTag bucket; EvGetObject bucket "LATEST_TAG"])
  /\ run (Some "latest")
     = (Rejected (new_Error "Failed to get latest hash from bucket clapdb-pkgs-us-east-1"),
        extend fresh [EvGetLatestHash bucket; EvGetObject bucket "LATEST_HASH"])
  /\ run (Some "v9")
     = (Rejected (new_Error "Invalid version"),
        extend fresh [EvHasArtifact bucket "v9" "x86_64";
                      EvGetObject bucket "v9/x86_64/bootstrap.zip"]).
Proof.
  cbn zeta.
  pose proof (store_failure_outcome denied_store "us-east-1" "clapdb"
                (plain_config "clapdb" None) fresh access_denied)
    as (Htag & _ & _).
  pose proof (store_failure_outcome denied_store "us-east-1" "clapdb"
                (plain_config "clapdb" (Some "latest")) fresh access_denied)
    as (_ & Hhash & _).
  pose proof (store_failure_outcome denied_store "us-east-1" "clapdb"
                (plain_config "clapdb" (Some "v9")) fresh access_denied)
    as (_ & _ & Hver).
  specialize (Htag (or_introl eq_refl) eq_refl).
  specialize (Hhash eq_refl eq_refl).
  specialize (Hver "v9" eq_refl).
  destruct Hver as (Hv & _); [discriminate | discriminate | reflexivity |].
  split; [apply Htag | split; [apply Hhash | apply Hv]].
Defined.

(** *** Update requests *)

Lemma update_requests_extend (w : World) (evs : list Event) :
  update_requests (events (extend w evs))
  = update_requests (events w) ++ update_requests evs.
Proof. unfold update_requests. rewrite events_extend. apply omap_app. Qed.

Lemma updateStack_requests (cloud : Cloud) (name : string)
    (config : DeployConfig) (w : World) :
  exists sent,
    update_requests (events (snd (updateStack cloud name config w)))
    = update_requests (events w) ++ sent
    /\ (sent = [] \/ sent = [updateStack_Parameters name config]).
Proof.
  destruct (updateStack_effects cloud name config w) as (evs & -> & _ & _ & H).
  rewrite update_requests_extend. eauto.
Qed.

(** Whatever the version token, [updateService] sends at most one update
    request, built by [updateStack] from the configuration with the resolved
    version and bucket. *)
Lemma updateService_requests (cloud : Cloud) (region name : string)
    (config : DeployConfig) (w : World) :
  let bucket := nullish (artifactsBucket config) (getArtifactsBucket region) in
  exists sent,
    update_requests
      (events (snd (AWSCloudProvider.updateService cloud region name config w)))
    = update_requests (events w) ++ sent
    /\ (sent = []
        \/ exists v,
             sent = [updateStack_Parameters name
                       (with_version_bucket config v bucket)]).
Proof.
  cbn zeta.
  assert (Hstack : forall v evs,
    update_requests evs = [] ->
    exists sent,
      update_requests
        (events (snd (updateStack cloud name
                        (with_version_bucket config v
                           (nullish (artifactsBucket config)
                              (getArtifactsBucket region)))
                        (extend w evs))))
      = update_requests (events w) ++ sent
      /\ (sent = []
          \/ exists v,
               sent = [updateStack_Parameters name
                         (with_version_bucket config v
                            (nullish (artifactsBucket config)
                               (getArtifactsBucket region)))])).
  { intros v evs Hevs.
    destruct (updateStack_requests cloud name
                (with_version_bucket config v
                   (nullish (artifactsBucket config) (getArtifactsBucket region)))
                (extend w evs)) as (sent & -> & Hsent).
    rewrite update_requests_extend, Hevs, app_nil_r.
    exists sent. split; [reflexivity |].
    destruct Hsent as [-> | ->]; [left | right; exists v]; reflexivity. }
  assert (Hnone : forall (r : Promise string) evs,
    update_requests evs = [] ->
    exists sent,
      update_requests (events (snd (r, extend w evs)))
      = update_requests (events w) ++ sent
      /\ (sent = []
          \/ exists v,
               sent = [updateStack_Parameters name
                         (with_version_bucket config v
                            (nullish (artifactsBucket config)
                               (getArtifactsBucket region)))])).
  { intros r evs Hevs. exists []. cbn [snd].
    rewrite update_requests_extend, Hevs. split; [reflexivity | left; reflexivity]. }
  destruct (clapdbVersion config) as [v |] eqn:Hv.
  - destruct (String.eqb_spec v "") as [-> | Hne].
    + rewrite updateService_tag by (right; exact Hv).
      destruct (s3_GetObject cloud _ "LATEST_TAG"); auto.
    + destruct (String.eqb_spec v "latest") as [-> | Hnl].
      * rewrite updateService_latest by exact Hv.
        destruct (s3_GetObject cloud _ "LATEST_HASH"); auto.
      * rewrite (updateService_version _ _ _ _ v) by assumption.
        destruct (s3_GetObject cloud _ (artifact_key v _)); auto.
  - rewrite updateService_tag by (left; exact Hv).
    destruct (s3_GetObject cloud _ "LATEST_TAG"); auto.
Qed.

(** An update whose configuration leaves the version out does not submit
    the use-previous-value sentinel for it: [updateService] submits the
    latest tag of the store, and [updateStack] on its own submits the
    parameter with no value.  The memory size that stands at the schema's
    default is submitted as that value.  C6 as stated fails here. *)
Lemma update_absent_version_not_previous :
  let config := plain_config "clapdb" None in
  let sent :=
    update_requests
      (events (snd (AWSCloudProvider.updateService
                      (artifact_store "v3" "abc123" []) "us-east-1" "clapdb"
                      config fresh))) in
  clapdbVersion config = None
  /\ find_param "ClapDBVersion" <$> sent
     = [Some (param_value "ClapDBVersion" (Some "v3"))]
  /\ find_param "LambdaMemorySize" <$> sent
     = [Some (param_value "LambdaMemorySize" (Some "3008"))]
  /\ find_param "ClapDBVersion" (updateStack_Parameters "clapdb" config)
     = Some (param_value "ClapDBVersion" None)
  /\ param_value "ClapDBVersion" (Some "v3") <> param_previous "ClapDBVersion"
  /\ param_value "ClapDBVersion" None <> param_previous "ClapDBVersion".
Proof.
  cbn zeta. split; [reflexivity |]. split; [reflexivity |].
  split; [reflexivity |]. split; [reflexivity |]. split; discriminate.
Qed.

(** C6, amended: every update request submits the use-previous-value
    sentinel for [Arch], [ArtifactsBucket], [EnablePrivateVPC] and
    [EnablePrivateEndpoint], whatever the configuration holds for them, so an
    update never resets these four; in particular [EnablePrivateVPC] is never
    submitted as [false].  The version, the four memory sizes and the logging
    flag are submitted as the values of the configuration. *)
Theorem update_previous_value_parameters (cloud : Cloud) (region name : string)
    (config : DeployConfig) (w : World) :
  let ps := updateStack_Parameters name config in
  let keeps (ps : list CfnParameter) :=
    find_param "Arch" ps = Some (param_previous "Arch")
    /\ find_param "ArtifactsBucket" ps = Some (param_previous "ArtifactsBucket")
    /\ find_param "EnablePrivateVPC" ps = Some (param_previous "EnablePrivateVPC")
    /\ find_param "EnablePrivateEndpoint" ps
       = Some (param_previous "EnablePrivateEndpoint") in
  keeps ps
  /\ (find_param "ClapDBVersion" ps
      = Some (param_value "ClapDBVersion" (clapdbVersion config))
      /\ find_param "LambdaMemorySize" ps
         = Some (param_value "LambdaMemorySize"
                   (Some (String_of_number (lambdaMemorySize config))))
      /\ find_param "DispatcherMemorySize" ps
         = Some (param_value "DispatcherMemorySize"
                   (Some (String_of_number (dispatcherMemorySize config))))
      /\ find_param "ReducerMemorySize" ps
         = Some (param_value "ReducerMemorySize"
                   (Some (String_of_number (reducerMemorySize config))))
      /\ find_param "WorkerMemorySize" ps
         = Some (param_value "WorkerMemorySize"
                   (Some (String_of_number (workerMemorySize config))))
      /\ find_param "EnableLogging" ps
         = Some (param_value "EnableLogging"
                   (Some (String_of_bool (enableLogging config)))))
  /\ (exists sent,
        update_requests (events (snd (updateStack cloud name config w)))
        = update_requests (events w) ++ sent
        /\ (sent = [] \/ sent = [ps]))
  /\ (exists sent,
        update_requests
          (events (snd (AWSCloudProvider.updateService cloud region name
                          config w)))
        = update_requests (events w) ++ sent
        /\ Forall keeps sent).
Proof.
  cbn zeta. split; [repeat split |]. split; [repeat split |].
  split; [apply updateStack_requests |].
  destruct (updateService_requests cloud region name config w)
    as (sent & Hsent & Hshape).
  exists sent. split; [exact Hsent |].
  destruct Hshape as [-> | (v & ->)]; [constructor |].
  constructor; [repeat split | constructor].
Qed.

(** *** Status queries *)

Lemma getStackStatus_run (cloud : Cloud) (name : string) (w : World) :
  getStackStatus cloud name w
  = (status_reply cloud name, extend w [EvDescribeStacks name]).
Proof.
  unfold status_reply, getStackStatus. run.
  destruct (cfn_DescribeStacks cloud name) as [| [[| stack more] |] | e];
    reflexivity.
Qed.

Lemma isStackDeployCompleted_run (cloud : Cloud) (name : string) (w : World) :
  isStackDeployCompleted cloud name w
  = (match status_reply cloud name with
     | Pending => Pending
     | Resolved status => Resolved (Set_has terminalStates status)
     | Rejected e => Rejected e
     end, extend w [EvDescribeStacks name]).
Proof.
  unfold isStackDeployCompleted, mbind, M_bind, bind.
  rewrite getStackStatus_run. destruct (status_reply cloud name); reflexivity.
Qed.

Lemma isStackDeployFailed_run (cloud : Cloud) (name : string) (w : World) :
  isStackDeployFailed cloud name w
  = (match status_reply cloud name with
     | Pending => Pending
     | Resolved status => Resolved (Set_has failedStates status)
     | Rejected e => Rejected e
     end, extend w [EvDescribeStacks name]).
Proof.
  unfold isStackDeployFailed, mbind, M_bind, bind.
  rewrite getStackStatus_run. destruct (status_reply cloud name); reflexivity.
Qed.

Lemma status_reply_stack_in (status name : string) :
  status_reply (stack_in status) name = Resolved status.
Proof. reflexivity. Qed.

Lemma status_reply_unanswering (name : string) :
  status_reply unanswering name = Pending.
Proof. reflexivity. Qed.

(** *** One round of the watcher *)

Lemma show_run (cloud : Cloud) (name : string) (action : DeployAction)
    (w : World) :
  AWSCloudProvider.showFirstProcessedResource cloud name action w
  = (fst (AWSCloudProvider.showFirstProcessedResource cloud name action fresh),
     extend w (progress_events cloud name action)).
Proof.
  unfold progress_events, AWSCloudProvider.showFirstProcessedResource,
    getResourcesStatus.
  run.
  destruct (cfn_DescribeStackResources cloud name) as [| response | e]; cbn.
  - reflexivity.
  - destruct (AWSCloudProvider.first_processed action _) as [[resource st] |];
      cbn; [rewrite extend_extend |]; reflexivity.
  - destruct (DeployAction_eqb action Delete || DeployAction_eqb action Deploy);
      reflexivity.
Qed.

(** The progress report never throws: it is pending when the resource query
    is, and has a result otherwise. *)
Lemma show_result (cloud : Cloud) (name : string) (action : DeployAction) :
  match cfn_DescribeStackResources cloud name with
  | Pending =>
      fst (AWSCloudProvider.showFirstProcessedResource cloud name action fresh)
      = Pending
  | _ =>
      exists b,
        fst (AWSCloudProvider.showFirstProcessedResource cloud name action fresh)
        = Resolved b
  end.
Proof.
  unfold AWSCloudProvider.showFirstProcessedResource, getResourcesStatus.
  run.
  destruct (cfn_DescribeStackResources cloud name) as [| response | e]; cbn.
  - reflexivity.
  - destruct (AWSCloudProvider.first_processed action _) as [[resource st] |];
      cbn; eauto.
  - destruct (DeployAction_eqb action Delete || DeployAction_eqb action Deploy);
      cbn; eauto.
Qed.

(** The progress report queries the resources and may set the spinner's
    text; it neither queries the status, nor sleeps, nor stops the spinner. *)
Lemma progress_events_shape (cloud : Cloud) (name : string)
    (action : DeployAction) :
  progress_events cloud name action = [EvDescribeStackResources name]
  \/ exists text,
       progress_events cloud name action
       = [EvDescribeStackResources name; EvSpinnerText text].
Proof.
  unfold progress_events, AWSCloudProvider.showFirstProcessedResource,
    getResourcesStatus.
  run.
  destruct (cfn_DescribeStackResources cloud name) as [| response | e]; cbn.
  - left; reflexivity.
  - destruct (AWSCloudProvider.first_processed action _) as [[resource st] |];
      cbn; [right; eexists |left]; reflexivity.
  - destruct (DeployAction_eqb action Delete || DeployAction_eqb action Deploy);
      left; reflexivity.
Qed.

Lemma show_legacy_same :
  AWSService.showFirstProcessedResource
  = AWSCloudProvider.showFirstProcessedResource.
Proof. reflexivity. Qed.

Arguments AWSCloudProvider.showFirstProcessedResource : simpl never.
Arguments AWSService.showFirstProcessedResource : simpl never.
Arguments isStackDeployCompleted : simpl never.
Arguments isStackDeployFailed : simpl never.

Lemma watchLoop_nil (name : string) (action : DeployAction) (w : World) :
  AWSCloudProvider.watchLoop [] name action w
  = (Pending, extend w [EvDescribeStacks name]).
Proof.
  cbn [AWSCloudProvider.watchLoop]. unfold mbind, M_bind, bind.
  rewrite isStackDeployCompleted_run. reflexivity.
Qed.

Lemma watchLoop_step (cloud : Cloud) (later : list Cloud) (name : string)
    (action : DeployAction) (w : World) :
  AWSCloudProvider.watchLoop (cloud :: later) name action w
  = match status_reply cloud name with
    | Pending => (Pending, extend w [EvDescribeStacks name])
    | Rejected _ => (on_status_error action, extend w [EvDescribeStacks name])
    | Resolved status =>
        if Set_has terminalStates status
        then (match status_reply (next_cloud later) name with
              | Pending => Pending
              | Rejected _ => on_status_error action
              | Resolved status' =>
                  if Set_has failedStates status'
                  then Rejected (new_Error (AWSCloudProvider.messages action))
                  else Resolved tt
              end,
              extend w [EvDescribeStacks name; EvDescribeStacks name])
        else
          match fst (AWSCloudProvider.showFirstProcessedResource
                       cloud name action fresh) with
          | Resolved _ =>
              AWSCloudProvider.watchLoop later name action
                (extend w (EvDescribeStacks name
                           :: progress_events cloud name action
                           ++ [EvSleep 500]))
          | Pending =>
              (Pending,
               extend w (EvDescribeStacks name
                         :: progress_events cloud name action))
          | Rejected e =>
              (Rejected e,
               extend w (EvDescribeStacks name
                         :: progress_events cloud name action))
          end
    end.
Proof.
  cbn [AWSCloudProvider.watchLoop].
  unfold mbind, M_bind, bind, try_catch, mret, M_ret, ret, throw,
    on_status_error.
  rewrite isStackDeployCompleted_run.
  destruct (status_reply cloud name) as [| status | e].
  - reflexivity.
  - destruct (Set_has terminalStates status).
    + rewrite isStackDeployFailed_run, extend_extend.
      destruct (status_reply (next_cloud later) name) as [| status' | e'].
      * reflexivity.
      * destruct (Set_has failedStates status'); reflexivity.
      * destruct (DeployAction_eqb action Delete); reflexivity.
    + rewrite show_run, extend_extend.
      destruct (fst (AWSCloudProvider.showFirstProcessedResource
                       cloud name action fresh)).
      * reflexivity.
      * unfold emit. rewrite extend_extend. reflexivity.
      * reflexivity.
  - destruct (DeployAction_eqb action Delete); reflexivity.
Qed.

Lemma legacy_watchLoop_nil (name : string) (action : DeployAction) (w : World) :
  AWSService.watchLoop [] name action w
  = (Pending, extend w [EvDescribeStacks name]).
Proof.
  cbn [AWSService.watchLoop]. unfold mbind, M_bind, bind.
  rewrite isStackDeployCompleted_run. reflexivity.
Qed.

Lemma legacy_watchLoop_step (cloud : Cloud) (later : list Cloud)
    (name : string) (action : DeployAction) (w : World) :
  AWSService.watchLoop (cloud :: later) name action w
  = match status_reply cloud name with
    | Pending => (Pending, extend w [EvDescribeStacks name])
    | Rejected e =>
        (on_status_error_legacy action e, extend w [EvDescribeStacks name])
    | Resolved status =>
        if Set_has terminalStates status
        then (match status_reply (next_cloud later) name with
              | Pending => Pending
              | Rejected e => on_status_error_legacy action e
              | Resolved status' =>
                  if Set_has failedStates status'
                  then Rejected (new_Error (AWSService.messages action))
                  else Resolved tt
              end,
              extend w [EvDescribeStacks name; EvDescribeStacks name])
        else
          match fst (AWSCloudProvider.showFirstProcessedResource
                       cloud name action fresh) with
          | Resolved _ =>
              AWSService.watchLoop later name action
                (extend w (EvDescribeStacks name
                           :: progress_events cloud name action
                           ++ [EvSleep 500]))
          | Pending =>
              (Pending,
               extend w (EvDescribeStacks name
                         :: progress_events cloud name action))
          | Rejected e =>
              (Rejected e,
               extend w (EvDescribeStacks name
                         :: progress_events cloud name action))
          end
    end.
Proof.
  cbn [AWSService.watchLoop].
  unfold mbind, M_bind, bind, try_catch, mret, M_ret, ret, throw,
    on_status_error_legacy.
  rewrite isStackDeployCompleted_run.
  destruct (status_reply cloud name) as [| status | e].
  - reflexivity.
  - destruct (Set_has terminalStates status).
    + rewrite isStackDeployFailed_run, extend_extend.
      destruct (status_reply (next_cloud later) name) as [| status' | e'].
      * reflexivity.
      * destruct (Set_has failedStates status'); reflexivity.
      * destruct (DeployAction_eqb action Delete); reflexivity.
    + rewrite show_legacy_same, show_run, extend_extend.
      destruct (fst (AWSCloudProvider.showFirstProcessedResource
                       cloud name action fresh)).
      * reflexivity.
      * unfold emit. rewrite extend_extend. reflexivity.
      * reflexivity.
  - destruct (DeployAction_eqb action Delete); reflexivity.
Qed.

(** *** Runs of the provider's watcher *)

Lemma watchService_run (script : list Cloud) (name : string)
    (action : DeployAction) (w : World) :
  AWSCloudProvider.watchService script name action w
  = match AWSCloudProvider.watchLoop script name action w with
    | (Pending, w') => (Pending, w')
    | (r, w') => (r, extend w' [EvSpinnerStop])
    end.
Proof.
  unfold AWSCloudProvider.watchService, try_finally, emit.
  destruct (AWSCloudProvider.watchLoop script name action w)
    as [[| [] | e] w']; reflexivity.
Qed.

Lemma legacy_watchService_run (script : list Cloud) (name : string)
    (action : DeployAction) (w : World) :
  AWSService.watchService script name action w
  = match AWSService.watchLoop script name action w with
    | (Pending, w') => (Pending, w')
    | (r, w') => (r, extend w' [EvSpinnerStop])
    end.
Proof.
  unfold AWSService.watchService, try_finally, emit.
  destruct (AWSService.watchLoop script name action w)
    as [[| [] | e] w']; reflexivity.
Qed.

Lemma polls_on_inv (name : string) (cloud : Cloud) :
  polls_on name cloud = true ->
  exists status b,
    status_reply cloud name = Resolved status
    /\ Set_has terminalStates status = false
    /\ forall action,
         fst (AWSCloudProvider.showFirstProcessedResource cloud name action fresh)
         = Resolved (b action).
Proof.
  unfold polls_on.
  destruct (status_reply cloud name) as [| status |]; try discriminate.
  intros H. apply andb_prop in H. destruct H as [H1 H2].
  apply negb_true_iff in H1.
  assert (Hb : forall action, exists b,
             fst (AWSCloudProvider.showFirstProcessedResource
                    cloud name action fresh) = Resolved b).
  { intros action. pose proof (show_result cloud name action) as Hs.
    destruct (cfn_DescribeStackResources cloud name);
      [discriminate | exact Hs | exact Hs]. }
  exists status.
  exists (fun action =>
            match fst (AWSCloudProvider.showFirstProcessedResource
                         cloud name action fresh) with
            | Resolved b => b
            | _ => false
            end).
  split; [reflexivity |]. split; [assumption |].
  intros action. destruct (Hb action) as [b ->]. reflexivity.
Qed.

(** While the stack is not in a terminal state the watcher goes round. *)
Lemma watchLoop_prefix (pre script : list Cloud) (name : string)
    (action : DeployAction) (w : World) :
  forallb (polls_on name) pre = true ->
  AWSCloudProvider.watchLoop (pre ++ script) name action w
  = AWSCloudProvider.watchLoop script name action
      (extend w (rounds name action pre)).
Proof.
  revert w. induction pre as [| cloud pre IH]; intros w Hpre.
  - cbn. rewrite extend_nil. reflexivity.
  - cbn [forallb] in Hpre. apply andb_prop in Hpre. destruct Hpre as [Hc Hpre].
    destruct (polls_on_inv name cloud Hc) as (status & b & Hs & Ht & Hshow).
    cbn [app]. rewrite watchLoop_step, Hs, Ht, Hshow, IH by exact Hpre.
    rewrite extend_extend. reflexivity.
Qed.

(** Counting events. *)
Lemma count_extend (p : Event -> bool) (w : World) (evs : list Event) :
  count p (extend w evs) = count p w + length (List.filter p evs).
Proof.
  unfold count. rewrite events_extend, List.filter_app, length_app.
  reflexivity.
Qed.

Lemma progress_events_quiet (cloud : Cloud) (name : string)
    (action : DeployAction) :
  List.filter is_status_query (progress_events cloud name action) = []
  /\ List.filter is_sleep (progress_events cloud name action) = []
  /\ List.filter is_spinner_stop (progress_events cloud name action) = [].
Proof.
  destruct (progress_events_shape cloud name action) as [-> | (text & ->)];
    repeat split.
Qed.

Lemma rounds_counts (name : string) (action : DeployAction)
    (pre : list Cloud) :
  length (List.filter is_status_query (rounds name action pre)) = length pre
  /\ length (List.filter is_sleep (rounds name action pre)) = length pre
  /\ length (List.filter is_spinner_stop (rounds name action pre)) = 0.
Proof.
  induction pre as [| cloud pre (IH1 & IH2 & IH3)]; [repeat split |].
  destruct (progress_events_quiet cloud name action) as (H1 & H2 & H3).
  unfold rounds in *. cbn [flat_map].
  rewrite !List.filter_app, !length_app. cbn [List.filter app is_status_query
    is_sleep is_spinner_stop].
  rewrite !List.filter_app, H1, H2, H3, IH1, IH2, IH3. repeat split.
Qed.

(** The loop itself never stops the spinner. *)
Lemma watchLoop_no_stop (script : list Cloud) (name : string)
    (action : DeployAction) (w : World) :
  count is_spinner_stop (snd (AWSCloudProvider.watchLoop script name action w))
  = count is_spinner_stop w.
Proof.
  revert w. induction script as [| cloud later IH]; intros w.
  - rewrite watchLoop_nil. cbn [snd]. rewrite count_extend. cbn. lia.
  - destruct (progress_events_quiet cloud name action) as (_ & _ & Hq).
    rewrite watchLoop_step.
    destruct (status_reply cloud name) as [| status | e]; cbn [snd];
      try (rewrite count_extend; cbn; lia).
    destruct (Set_has terminalStates status); cbn [snd];
      try (rewrite count_extend; cbn; lia).
    destruct (fst (AWSCloudProvider.showFirstProcessedResource
                     cloud name action fresh)); cbn [snd];
      rewrite ?IH, count_extend; cbn [List.filter is_spinner_stop];
      rewrite ?List.filter_app, Hq; cbn; lia.
Qed.

(** A watch that observes [UPDATE_ROLLBACK_COMPLETE] ends in failure, for
    each of the three actions: the status passes the Completed check and is
    then found in the Failed set.  C1 as stated fails here. *)
Lemma update_rollback_complete_not_success :
  let urc := stack_in "UPDATE_ROLLBACK_COMPLETE" in
  let watch action :=
    fst (AWSCloudProvider.watchService [urc; urc] "clapdb" action fresh) in
  watch Deploy
  = Rejected (new_Error "deploy service failed, you should check deploy detail")
  /\ watch Update
     = Rejected (new_Error "update service failed, you should check update detail")
  /\ watch Delete
     = Rejected (new_Error "delete service failed, you should check delete detail")
  /\ watch Update <> Resolved tt.
Proof. cbn zeta. repeat split. discriminate. Qed.

(** C1, amended: for each of the three actions, a watch that observes
    [UPDATE_ROLLBACK_COMPLETE] after any number of rounds ends in failure with
    the message of the action.  The Completed check does run first, and the
    status is a member of both sets, but passing the Completed check only
    leads on to the Failed check, which then decides. *)
Theorem update_rollback_complete_is_failure (action : DeployAction)
    (name : string) (pre : list Cloud) (c1 c2 : Cloud) (later : list Cloud)
    (w : World) :
  forallb (polls_on name) pre = true ->
  status_reply c1 name = Resolved "UPDATE_ROLLBACK_COMPLETE" ->
  status_reply c2 name = Resolved "UPDATE_ROLLBACK_COMPLETE" ->
  Set_has terminalStates "UPDATE_ROLLBACK_COMPLETE" = true
  /\ Set_has failedStates "UPDATE_ROLLBACK_COMPLETE" = true
  /\ AWSCloudProvider.watchService (pre ++ c1 :: c2 :: later) name action w
     = (Rejected (new_Error (AWSCloudProvider.messages action)),
        extend w (rounds name action pre
                  ++ [EvDescribeStacks name; EvDescribeStacks name;
                      EvSpinnerStop])).
Proof.
  intros Hpre H1 H2. split; [reflexivity |]. split; [reflexivity |].
  rewrite watchService_run, watchLoop_prefix, watchLoop_step by exact Hpre.
  cbn [next_cloud]. rewrite H1, H2. cbn.
  rewrite !extend_extend. reflexivity.
Qed.

(** The amended C1 on an update watch that sees two rounds of
    [UPDATE_IN_PROGRESS] before the rollback completes. *)
Lemma update_rollback_complete_is_failure_witness :
  let urc := stack_in "UPDATE_ROLLBACK_COMPLETE" in
  let uip := stack_in "UPDATE_IN_PROGRESS" in
  fst (AWSCloudProvider.watchService ([uip; uip] ++ [urc; urc]) "clapdb"
         Update fresh)
  = Rejected (new_Error "update service failed, you should check update detail").
Proof.
  cbn zeta.
  pose proof (update_rollback_complete_is_failure Update "clapdb"
                [stack_in "UPDATE_IN_PROGRESS"; stack_in "UPDATE_IN_PROGRESS"]
                (stack_in "UPDATE_ROLLBACK_COMPLETE")
                (stack_in "UPDATE_ROLLBACK_COMPLETE") [] fresh
                eq_refl eq_refl eq_refl) as (_ & _ & H).
  rewrite H. reflexivity.
Defined.

(** The statuses of the Completed set other than [UPDATE_ROLLBACK_COMPLETE]
    are the ones a watch reports as success. *)
Lemma complete_status_is_success (action : DeployAction) (name : string)
    (pre : list Cloud) (c1 c2 : Cloud) (later : list Cloud) (w : World)
    (status : string) :
  forallb (polls_on name) pre = true ->
  In status ["CREATE_COMPLETE"; "UPDATE_COMPLETE"; "DELETE_COMPLETE"] ->
  status_reply c1 name = Resolved status ->
  status_reply c2 name = Resolved status ->
  AWSCloudProvider.watchService (pre ++ c1 :: c2 :: later) name action w
  = (Resolved tt,
     extend w (rounds name action pre
               ++ [EvDescribeStacks name; EvDescribeStacks name;
                   EvSpinnerStop])).
Proof.
  intros Hpre Hin H1 H2.
  rewrite watchService_run, watchLoop_prefix, watchLoop_step by exact Hpre.
  cbn [next_cloud]. rewrite H1, H2.
  destruct Hin as [<- | [<- | [<- | []]]]; cbn;
    rewrite !extend_extend; reflexivity.
Qed.

(** After the three status replies [CREATE_IN_PROGRESS],
    [CREATE_IN_PROGRESS], [CREATE_COMPLETE] the watcher has not stopped: it
    has sent a fourth status query, for the Failed check, and the spinner is
    still running; what that query answers decides the outcome.  C2 as stated
    fails here. *)
Lemma create_scenario_needs_fourth_query :
  let ip := stack_in "CREATE_IN_PROGRESS" in
  let cc := stack_in "CREATE_COMPLETE" in
  let three := AWSCloudProvider.watchService [ip; ip; cc] "clapdb" Deploy fresh in
  fst three = Pending
  /\ count is_status_query (snd three) = 4
  /\ count is_spinner_stop (snd three) = 0
  /\ fst (AWSCloudProvider.watchService
            [ip; ip; cc; stack_failing validation_error] "clapdb" Deploy fresh)
     = Rejected (new_Error "Failed to check deployment status").
Proof. cbn zeta. repeat split. Qed.

(** C2, amended: on the status replies [CREATE_IN_PROGRESS],
    [CREATE_IN_PROGRESS], [CREATE_COMPLETE], [CREATE_COMPLETE] a create watch
    stops in its third round with success, after exactly four status queries
    (the third round queries the status twice, for the Completed and for the
    Failed check) and two sleeps, with the spinner released once.  On every
    run the spinner is released exactly once when the watcher returns or
    throws, and not while it is still waiting. *)
Theorem create_scenario_and_spinner_release :
  (forall (name : string) (c1 c2 c3 c4 : Cloud) (later : list Cloud) (w : World),
     polls_on name c1 = true ->
     polls_on name c2 = true ->
     status_reply c1 name = Resolved "CREATE_IN_PROGRESS" ->
     status_reply c2 name = Resolved "CREATE_IN_PROGRESS" ->
     status_reply c3 name = Resolved "CREATE_COMPLETE" ->
     status_reply c4 name = Resolved "CREATE_COMPLETE" ->
     let r :=
       AWSCloudProvider.watchService (c1 :: c2 :: c3 :: c4 :: later)
         name Deploy w in
     fst r = Resolved tt
     /\ count is_status_query (snd r) = count is_status_query w + 4
     /\ count is_sleep (snd r) = count is_sleep w + 2
     /\ count is_spinner_stop (snd r) = count is_spinner_stop w + 1)
  /\ (forall (script : list Cloud) (name : string) (action : DeployAction)
        (w : World),
        let r := AWSCloudProvider.watchService script name action w in
        count is_spinner_stop (snd r)
        = count is_spinner_stop w
          + match fst r with
            | Pending => 0
            | _ => 1
            end).
Proof.
  split.
  - intros name c1 c2 c3 c4 later w P1 P2 _ _ H3 H4. cbn zeta.
    assert (Hpre : forallb (polls_on name) [c1; c2] = true)
      by (cbn; rewrite P1, P2; reflexivity).
    change (c1 :: c2 :: c3 :: c4 :: later) with ([c1; c2] ++ c3 :: c4 :: later).
    rewrite (complete_status_is_success Deploy name [c1; c2] c3 c4 later w
               "CREATE_COMPLETE" Hpre (or_introl eq_refl) H3 H4).
    cbn [fst snd].
    destruct (rounds_counts name Deploy [c1; c2]) as (R1 & R2 & R3).
    rewrite !count_extend, !List.filter_app, !length_app, R1, R2, R3.
    cbn. repeat split; lia.
  - intros script name action w. cbn zeta. rewrite watchService_run.
    pose proof (watchLoop_no_stop script name action w) as Hloop.
    destruct (AWSCloudProvider.watchLoop script name action w)
      as [[| [] | e] w']; cbn [fst snd] in *;
      rewrite ?count_extend, Hloop; cbn; lia.
Qed.

(** The amended C2 on the scenario itself. *)
Lemma create_scenario_and_spinner_release_witness :
  let ip := stack_in "CREATE_IN_PROGRESS" in
  let cc := stack_in "CREATE_COMPLETE" in
  let r := AWSCloudProvider.watchService [ip; ip; cc; cc] "clapdb" Deploy fresh in
  fst r = Resolved tt
  /\ count is_status_query (snd r) = count is_status_query fresh + 4
  /\ count is_sleep (snd r) = count is_sleep fresh + 2
  /\ count is_spinner_stop (snd r) = count is_spinner_stop fresh + 1.
Proof.
  cbn zeta.
  destruct create_scenario_and_spinner_release as [Hscenario _].
  apply (Hscenario "clapdb" (stack_in "CREATE_IN_PROGRESS")
           (stack_in "CREATE_IN_PROGRESS") (stack_in "CREATE_COMPLETE")
           (stack_in "CREATE_COMPLETE") [] fresh);
    reflexivity.
Defined.

(** A deploy or an update watch whose status query throws does not pass
    that error on: the caller gets a new error with a fixed message.  C4 as
    stated fails here. *)
Lemma status_error_not_propagated :
  let watch action :=
    fst (AWSCloudProvider.watchService [stack_failing validation_error]
           "clapdb" action fresh) in
  status_reply (stack_failing validation_error) "clapdb"
  = Rejected validation_error
  /\ watch Deploy = Rejected (new_Error "Failed to check deployment status")
  /\ watch Update = Rejected (new_Error "Failed to check deployment status")
  /\ new_Error "Failed to check deployment status" <> validation_error.
Proof. cbn zeta. repeat split. discriminate. Qed.

(** C4, amended: when a status query of the watch loop throws, whether it is
    the query of the Completed check or the one of the Failed check, and
    after any number of rounds, a delete watch stops at once with success and
    no error reaches the caller; a deploy or update watch stops at once with
    the error [Failed to check deployment status], which replaces the error
    of the query.  In both cases the last things done are that query and the
    release of the spinner. *)
Theorem status_query_error_outcome (action : DeployAction) (name : string)
    (pre : list Cloud) (failing : Cloud) (later : list Cloud) (e : JsError)
    (w : World) :
  forallb (polls_on name) pre = true ->
  status_reply failing name = Rejected e ->
  let outcome :=
    match action with
    | Delete => Resolved tt
    | _ => Rejected (new_Error "Failed to check deployment status")
    end in
  AWSCloudProvider.watchService (pre ++ failing :: later) name action w
  = (outcome,
     extend w (rounds name action pre ++ [EvDescribeStacks name; EvSpinnerStop]))
  /\ (forall (complete : Cloud) (status : string),
        status_reply complete name = Resolved status ->
        Set_has terminalStates status = true ->
        AWSCloudProvider.watchService (pre ++ complete :: failing :: later)
          name action w
        = (outcome,
           extend w (rounds name action pre
                     ++ [EvDescribeStacks name; EvDescribeStacks name;
                         EvSpinnerStop]))).
Proof.
  intros Hpre He. cbn zeta. split.
  - rewrite watchService_run, watchLoop_prefix, watchLoop_step, He by exact Hpre.
    destruct action; cbn; rewrite !extend_extend; reflexivity.
  - intros complete status Hs Ht.
    rewrite watchService_run, watchLoop_prefix, watchLoop_step, Hs, Ht
      by exact Hpre.
    cbn [next_cloud]. rewrite He.
    destruct action; cbn; rewrite !extend_extend; reflexivity.
Qed.

(** The amended C4 on a delete watch whose second status query throws: the
    watcher returns, and the error does not reach the caller. *)
Lemma status_query_error_outcome_witness :
  AWSCloudProvider.watchService
    ([stack_in "DELETE_IN_PROGRESS"] ++ [stack_failing validation_error])
    "clapdb" Delete fresh
  = (Resolved tt,
     extend fresh
       (rounds "clapdb" Delete [stack_in "DELETE_IN_PROGRESS"]
        ++ [EvDescribeStacks "clapdb"; EvSpinnerStop])).
Proof.
  apply (status_query_error_outcome Delete "clapdb"
           [stack_in "DELETE_IN_PROGRESS"] (stack_failing validation_error) []
           validation_error fresh eq_refl eq_refl).
Defined.

(** *** The legacy watcher against the provider's *)

(** On a deploy watch whose status query throws, the legacy watcher passes
    the error of the query on and the provider's watcher throws another one.
    C9 as stated fails here. *)
Lemma watchers_differ_on_status_error :
  let script := [stack_failing validation_error] in
  fst (AWSService.watchService script "clapdb" Deploy fresh)
  = Rejected validation_error
  /\ fst (AWSCloudProvider.watchService script "clapdb" Deploy fresh)
     = Rejected (new_Error "Failed to check deployment status")
  /\ fst (AWSService.watchService script "clapdb" Deploy fresh)
     <> fst (AWSCloudProvider.watchService script "clapdb" Deploy fresh).
Proof. cbn zeta. repeat split. discriminate. Qed.

(** The two loops do the same things, and end alike except for the error of
    a status query that throws. *)
Lemma watchLoop_legacy_provider (script : list Cloud) (name : string)
    (action : DeployAction) (w : World) :
  let legacy := AWSService.watchLoop script name action w in
  let provider := AWSCloudProvider.watchLoop script name action w in
  snd legacy = snd provider
  /\ match fst legacy with
     | Rejected e =>
         fst provider = Rejected e
         \/ (action <> Delete
             /\ (exists cloud, In cloud script /\ status_reply cloud name = Rejected e)
             /\ fst provider
                = Rejected (new_Error "Failed to check deployment status"))
     | r => fst provider = r
     end.
Proof.
  cbn zeta. revert w. induction script as [| cloud later IH]; intros w.
  - rewrite legacy_watchLoop_nil, watchLoop_nil. split; reflexivity.
  - rewrite legacy_watchLoop_step, watchLoop_step.
    destruct (status_reply cloud name) as [| status | e] eqn:Hs.
    + split; reflexivity.
    + destruct (Set_has terminalStates status).
      * cbn [fst snd]. split; [reflexivity |].
        destruct later as [| cloud' later']; cbn [next_cloud].
        { rewrite status_reply_unanswering. reflexivity. }
        destruct (status_reply cloud' name) as [| status' | e'] eqn:Hs'.
        -- reflexivity.
        -- destruct (Set_has failedStates status'); [left |]; reflexivity.
        -- destruct action; cbn; try reflexivity; right;
             (split; [discriminate |]);
             (split; [exists cloud'; split; [right; left; reflexivity | exact Hs']
                     | reflexivity]).
      * destruct (fst (AWSCloudProvider.showFirstProcessedResource
                         cloud name action fresh)).
        -- split; reflexivity.
        -- destruct (IH (extend w (EvDescribeStacks name
                                    :: progress_events cloud name action
                                    ++ [EvSleep 500]))) as [IH1 IH2].
           split; [exact IH1 |].
           destruct (fst (AWSService.watchLoop later name action _));
             try exact IH2.
           destruct IH2 as [IH2 | (Ha & (c & Hin & Hc) & Hp)]; [left; exact IH2 |].
           right. split; [exact Ha |].
           split; [exists c; split; [right; exact Hin | exact Hc] | exact Hp].
        -- split; [reflexivity | left; reflexivity].
    + cbn [fst snd]. split; [reflexivity |].
      destruct action; cbn; try reflexivity; right;
        (split; [discriminate |]);
        (split; [exists cloud; split; [left; reflexivity | exact Hs]
                | reflexivity]).
Qed.

(** C9, amended: on every action and every script the legacy watcher and
    the provider's watcher do the same things (the same queries, sleeps and
    spinner updates) and end alike: both pending, both with success, or both
    with an error.  The error is the same one when it reports a failed stack;
    when it comes from a status query that throws on a deploy or update
    watch, the legacy watcher passes on the error of the query and the
    provider's watcher throws [Failed to check deployment status].  On a
    delete watch, and on every script in which no status query throws, the
    two runs are equal. *)
Theorem watchers_agree_up_to_status_error (script : list Cloud)
    (name : string) (action : DeployAction) (w : World) :
  let legacy := AWSService.watchService script name action w in
  let provider := AWSCloudProvider.watchService script name action w in
  snd legacy = snd provider
  /\ match fst legacy with
     | Rejected e =>
         fst provider = Rejected e
         \/ (action <> Delete
             /\ (exists cloud,
                   In cloud script /\ status_reply cloud name = Rejected e)
             /\ fst provider
                = Rejected (new_Error "Failed to check deployment status"))
     | r => fst provider = r
     end
  /\ (action = Delete -> legacy = provider)
  /\ ((forall cloud e, In cloud script -> status_reply cloud name <> Rejected e)
      -> legacy = provider).
Proof.
  cbn zeta.
  rewrite legacy_watchService_run, watchService_run.
  destruct (watchLoop_legacy_provider script name action w) as [Hw Hr].
  destruct (AWSService.watchLoop script name action w) as [rl wl].
  destruct (AWSCloudProvider.watchLoop script name action w) as [rp wp].
  cbn [fst snd] in Hw, Hr. subst wp.
  destruct rl as [| [] | e].
  - subst rp. repeat split; reflexivity.
  - subst rp. repeat split; reflexivity.
  - destruct Hr as [-> | (Ha & (c & Hin & Hc) & ->)].
    + repeat split; try reflexivity. left; reflexivity.
    + cbn [fst snd]. split; [reflexivity |]. split.
      * right. split; [exact Ha |]. split; [exists c; tauto | reflexivity].
      * split; [intros ->; contradiction |].
        intros Hno. destruct (Hno c e Hin Hc).
Qed.

(** The amended C9 on the create scenario, in which no status query throws:
    the two runs are equal. *)
Lemma watchers_agree_up_to_status_error_witness :
  let script :=
    [stack_in "CREATE_IN_PROGRESS"; stack_in "CREATE_IN_PROGRESS";
     stack_in "CREATE_COMPLETE"; stack_in "CREATE_COMPLETE"] in
  AWSService.watchService script "clapdb" Deploy fresh
  = AWSCloudProvider.watchService script "clapdb" Deploy fresh.
Proof.
  cbn zeta.
  apply (watchers_agree_up_to_status_error
           [stack_in "CREATE_IN_PROGRESS"; stack_in "CREATE_IN_PROGRESS";
            stack_in "CREATE_COMPLETE"; stack_in "CREATE_COMPLETE"]
           "clapdb" Deploy fresh).
  intros cloud e Hin.
  destruct Hin as [<- | [<- | [<- | [<- | []]]]]; discriminate.
Defined.

(** *** The outputs cache *)

Lemma getOutputs_run (cloud : Cloud) (name : string) (w : World) :
  getOutputs cloud name w
  = match cfn_DescribeStacks cloud name with
    | Pending => (Pending, extend w [EvDescribeStacks name])
    | Rejected e => (Rejected e, extend w [EvDescribeStacks name])
    | Resolved response =>
        (Resolved (fetched_outputs response),
         {| events := events w ++ [EvDescribeStacks name];
            outputs := fetched_outputs response |})
    end.
Proof.
  unfold getOutputs. run.
  destruct (cfn_DescribeStacks cloud name); reflexivity.
Qed.

Arguments getOutputs : simpl never.

Ltac getter_cached w :=
  let Hsize := fresh in
  intros Hsize;
  unfold getDataApiUrl, getLicenseApiUrl, getInitLambdaName; run;
  destruct (Nat.eqb_spec (size (outputs w)) 0) as [Hz | _];
  [apply map_size_empty_iff in Hz; contradiction | destruct w; reflexivity].

Ltac getter_empty cloud name :=
  let Hempty := fresh in
  intros Hempty;
  unfold getDataApiUrl, getLicenseApiUrl, getInitLambdaName; run;
  rewrite Hempty, map_size_empty; cbn;
  rewrite getOutputs_run;
  destruct (cfn_DescribeStacks cloud name); reflexivity.

Section Getters.

Variables (cloud : Cloud) (name : string) (w : World).

(** With a non-empty cache a getter answers from the cache and leaves the
    world as it is: no call is made. *)
Lemma getDataApiUrl_cached :
  outputs w <> ∅ ->
  getDataApiUrl cloud name w
  = (Resolved (nullish (outputs w !! "ClapDataApiURL") ""), w).
Proof. getter_cached w. Qed.

Lemma getLicenseApiUrl_cached :
  outputs w <> ∅ ->
  getLicenseApiUrl cloud name w
  = (Resolved (nullish (outputs w !! "ClapLicenseApiURL") ""), w).
Proof. getter_cached w. Qed.

Lemma getInitLambdaName_cached :
  outputs w <> ∅ ->
  getInitLambdaName cloud name w
  = (Resolved (nullish (outputs w !! "ClapDBInitLambda") ""), w).
Proof. getter_cached w. Qed.

(** With an empty cache a getter fetches the outputs, once, and answers
    from what it fetched. *)
Lemma getDataApiUrl_empty :
  outputs w = ∅ ->
  getDataApiUrl cloud name w
  = match cfn_DescribeStacks cloud name with
    | Pending => (Pending, extend w [EvDescribeStacks name])
    | Rejected e => (Rejected e, extend w [EvDescribeStacks name])
    | Resolved response =>
        (Resolved (nullish (fetched_outputs response !! "ClapDataApiURL") ""),
         {| events := events w ++ [EvDescribeStacks name];
            outputs := fetched_outputs response |})
    end.
Proof. getter_empty cloud name. Qed.

Lemma getLicenseApiUrl_empty :
  outputs w = ∅ ->
  getLicenseApiUrl cloud name w
  = match cfn_DescribeStacks cloud name with
    | Pending => (Pending, extend w [EvDescribeStacks name])
    | Rejected e => (Rejected e, extend w [EvDescribeStacks name])
    | Resolved response =>
        (Resolved (nullish (fetched_outputs response !! "ClapLicenseApiURL") ""),
         {| events := events w ++ [EvDescribeStacks name];
            outputs := fetched_outputs response |})
    end.
Proof. getter_empty cloud name. Qed.

Lemma getInitLambdaName_empty :
  outputs w = ∅ ->
  getInitLambdaName cloud name w
  = match cfn_DescribeStacks cloud name with
    | Pending => (Pending, extend w [EvDescribeStacks name])
    | Rejected e => (Rejected e, extend w [EvDescribeStacks name])
    | Resolved response =>
        (Resolved (nullish (fetched_outputs response !! "ClapDBInitLambda") ""),
         {| events := events w ++ [EvDescribeStacks name];
            outputs := fetched_outputs response |})
    end.
Proof. getter_empty cloud name. Qed.

End Getters.

Lemma getDataApiUrl_result (cloud : Cloud) (name : string) (w w1 : World)
    (url : string) :
  getDataApiUrl cloud name w = (Resolved url, w1) ->
  url = nullish (outputs w1 !! "ClapDataApiURL") "".
Proof.
  destruct (decide (outputs w = ∅)) as [He | Hne].
  - rewrite getDataApiUrl_empty by exact He.
    destruct (cfn_DescribeStacks cloud name); intros H; inversion H; reflexivity.
  - rewrite getDataApiUrl_cached by exact Hne.
    intros H; inversion H; subst; reflexivity.
Qed.

Lemma getLicenseApiUrl_result (cloud : Cloud) (name : string) (w w1 : World)
    (url : string) :
  getLicenseApiUrl cloud name w = (Resolved url, w1) ->
  url = nullish (outputs w1 !! "ClapLicenseApiURL") "".
Proof.
  destruct (decide (outputs w = ∅)) as [He | Hne].
  - rewrite getLicenseApiUrl_empty by exact He.
    destruct (cfn_DescribeStacks cloud name); intros H; inversion H; reflexivity.
  - rewrite getLicenseApiUrl_cached by exact Hne.
    intros H; inversion H; subst; reflexivity.
Qed.

Lemma getInitLambdaName_result (cloud : Cloud) (name : string) (w w1 : World)
    (lambda : string) :
  getInitLambdaName cloud name w = (Resolved lambda, w1) ->
  lambda = nullish (outputs w1 !! "ClapDBInitLambda") "".
Proof.
  destruct (decide (outputs w = ∅)) as [He | Hne].
  - rewrite getInitLambdaName_empty by exact He.
    destruct (cfn_DescribeStacks cloud name); intros H; inversion H; reflexivity.
  - rewrite getInitLambdaName_cached by exact Hne.
    intros H; inversion H; subst; reflexivity.
Qed.

(** *** What the outputs cache holds *)

Lemma set_stack_outputs_usable (acc : gmap string string) (stack : Stack) :
  set_stack_outputs acc stack
  = foldl (fun m kv => <[fst kv := snd kv]> m) acc
      (omap usable_output (nullish (Outputs stack) [])).
Proof.
  unfold set_stack_outputs. generalize (nullish (Outputs stack) []) as outs.
  intros outs. revert acc. induction outs as [| o outs IH]; intros acc.
  - reflexivity.
  - cbn [foldl]. rewrite IH.
    change (omap usable_output (o :: outs))
      with (match usable_output o with
            | Some kv => kv :: omap usable_output outs
            | None => omap usable_output outs
            end).
    unfold usable_output at 2.
    destruct (OutputKey o) as [k |], (OutputValue o) as [v |]; try reflexivity.
    destruct (truthy k && truthy v); reflexivity.
Qed.

Lemma fetched_outputs_usable (response : option (list Stack)) :
  fetched_outputs response
  = foldl (fun m kv => <[fst kv := snd kv]> m) ∅ (usable_outputs response).
Proof.
  unfold fetched_outputs, usable_outputs.
  generalize (∅ : gmap string string) as acc.
  induction (nullish response []) as [| stack stacks IH]; intros acc.
  - reflexivity.
  - cbn [foldl flat_map]. rewrite foldl_app, IH, set_stack_outputs_usable.
    reflexivity.
Qed.

Lemma find_app {A : Type} (f : A -> bool) (l1 l2 : list A) :
  List.find f (l1 ++ l2)
  = match List.find f l1 with
    | Some x => Some x
    | None => List.find f l2
    end.
Proof.
  induction l1 as [| x l1 IH]; [reflexivity |].
  cbn. destruct (f x); [reflexivity | exact IH].
Qed.

Lemma foldl_insert_lookup (pairs : list (string * string))
    (acc : gmap string string) (k : string) :
  foldl (fun m kv => <[fst kv := snd kv]> m) acc pairs !! k
  = match List.find (fun kv => String.eqb (fst kv) k) (rev pairs) with
    | Some kv => Some (snd kv)
    | None => acc !! k
    end.
Proof.
  revert acc. induction pairs as [| [k' v'] pairs IH]; intros acc.
  - reflexivity.
  - cbn [foldl rev]. rewrite IH, find_app.
    destruct (List.find _ (rev pairs)); [reflexivity |].
    cbn [List.find fst snd].
    destruct (String.eqb_spec k' k) as [-> | Hne].
    + apply lookup_insert_eq.
    + apply lookup_insert_ne, Hne.
Qed.

Lemma usable_output_nonempty (o : Output) (k v : string) :
  usable_output o = Some (k, v) -> k <> "" /\ v <> "".
Proof.
  unfold usable_output.
  destruct (OutputKey o) as [k' |], (OutputValue o) as [v' |]; try discriminate.
  destruct k', v'; cbn; try discriminate. intros H; inversion H; subst.
  split; discriminate.
Qed.

Lemma usable_outputs_nonempty (response : option (list Stack)) (k v : string) :
  In (k, v) (usable_outputs response) -> k <> "" /\ v <> "".
Proof.
  unfold usable_outputs. intros Hin. apply in_flat_map in Hin.
  destruct Hin as (stack & _ & Hin).
  apply list_elem_of_In, list_elem_of_omap in Hin.
  destruct Hin as (o & _ & Ho). eapply usable_output_nonempty, Ho.
Qed.

Lemma fetched_outputs_lookup (response : option (list Stack)) (k : string) :
  fetched_outputs response !! k = last_usable response k.
Proof.
  rewrite fetched_outputs_usable, foldl_insert_lookup, lookup_empty.
  unfold last_usable.
  destruct (List.find _ (rev (usable_outputs response))); reflexivity.
Qed.

Lemma fetched_outputs_nonempty (response : option (list Stack)) :
  usable_outputs response <> [] -> fetched_outputs response <> ∅.
Proof.
  intros Hne Hempty.
  destruct (exists_last Hne) as (before & [k v] & Hlast).
  apply (f_equal (fun m => m !! k)) in Hempty.
  rewrite fetched_outputs_lookup, lookup_empty in Hempty.
  unfold last_usable in Hempty. rewrite Hlast, rev_app_distr in Hempty.
  cbn in Hempty. rewrite String.eqb_refl in Hempty. discriminate Hempty.
Qed.

(** C8: on one service instance the three endpoint getters fetch the stack
    outputs only when the cached map is empty, and then with one query, whose
    kept outputs become the cache and give the answer; with a non-empty cache
    they answer from the cache and make no call, whatever the engine would
    answer.  So, once a fetch has kept at least one output, every getter
    gives the fetched value against any later state of the engine and for
    any stack name, until the cache is emptied or [getOutputs], which always
    queries the engine and replaces the cache, is called. *)
Theorem endpoint_getters_memoize (cloud : Cloud) (name : string) (w : World) :
  (outputs w <> ∅ ->
     getDataApiUrl cloud name w
     = (Resolved (nullish (outputs w !! "ClapDataApiURL") ""), w)
     /\ getLicenseApiUrl cloud name w
        = (Resolved (nullish (outputs w !! "ClapLicenseApiURL") ""), w)
     /\ getInitLambdaName cloud name w
        = (Resolved (nullish (outputs w !! "ClapDBInitLambda") ""), w))
  /\ (outputs w = ∅ ->
      (cfn_DescribeStacks cloud name = Pending ->
       getDataApiUrl cloud name w
       = (Pending, extend w [EvDescribeStacks name])
       /\ getLicenseApiUrl cloud name w
          = (Pending, extend w [EvDescribeStacks name])
       /\ getInitLambdaName cloud name w
          = (Pending, extend w [EvDescribeStacks name]))
      /\ (forall e,
            cfn_DescribeStacks cloud name = Rejected e ->
            getDataApiUrl cloud name w
            = (Rejected e, extend w [EvDescribeStacks name])
            /\ getLicenseApiUrl cloud name w
               = (Rejected e, extend w [EvDescribeStacks name])
            /\ getInitLambdaName cloud name w
               = (Rejected e, extend w [EvDescribeStacks name]))
      /\ (forall response,
            cfn_DescribeStacks cloud name = Resolved response ->
            exists cache,
              let w1 := {| events := events w ++ [EvDescribeStacks name];
                           outputs := cache |} in
              (forall k, cache !! k = last_usable response k)
              /\ getDataApiUrl cloud name w
                 = (Resolved
                      (nullish (last_usable response "ClapDataApiURL") ""),
                    w1)
              /\ getLicenseApiUrl cloud name w
                 = (Resolved
                      (nullish (last_usable response "ClapLicenseApiURL") ""),
                    w1)
              /\ getInitLambdaName cloud name w
                 = (Resolved
                      (nullish (last_usable response "ClapDBInitLambda") ""),
                    w1)
              /\ (usable_outputs response <> [] ->
                  forall (later : Cloud) (other : string),
                    getDataApiUrl later other w1
                    = (Resolved
                         (nullish (last_usable response "ClapDataApiURL") ""),
                       w1)
                    /\ getLicenseApiUrl later other w1
                       = (Resolved
                            (nullish
                               (last_usable response "ClapLicenseApiURL") ""),
                          w1)
                    /\ getInitLambdaName later other w1
                       = (Resolved
                            (nullish
                               (last_usable response "ClapDBInitLambda") ""),
                          w1))))
  /\ (forall (later : Cloud) (answer : string) (w1 : World),
        outputs w1 <> ∅ ->
        (getDataApiUrl cloud name w = (Resolved answer, w1) ->
         getDataApiUrl later name w1 = (Resolved answer, w1))
        /\ (getLicenseApiUrl cloud name w = (Resolved answer, w1) ->
            getLicenseApiUrl later name w1 = (Resolved answer, w1))
        /\ (getInitLambdaName cloud name w = (Resolved answer, w1) ->
            getInitLambdaName later name w1 = (Resolved answer, w1)))
  /\ ((cfn_DescribeStacks cloud name = Pending ->
       getOutputs cloud name w = (Pending, extend w [EvDescribeStacks name]))
      /\ (forall e,
            cfn_DescribeStacks cloud name = Rejected e ->
            getOutputs cloud name w
            = (Rejected e, extend w [EvDescribeStacks name]))
      /\ (forall response,
            cfn_DescribeStacks cloud name = Resolved response ->
            exists cache,
              (forall k, cache !! k = last_usable response k)
              /\ getOutputs cloud name w
                 = (Resolved cache,
                    {| events := events w ++ [EvDescribeStacks name];
                       outputs := cache |}))).
Proof.
  split; [| split; [| split]].
  - intros Hne.
    rewrite getDataApiUrl_cached, getLicenseApiUrl_cached,
      getInitLambdaName_cached by exact Hne.
    repeat split.
  - intros He.
    rewrite getDataApiUrl_empty, getLicenseApiUrl_empty,
      getInitLambdaName_empty by exact He.
    split; [| split].
    + intros ->. repeat split.
    + intros e ->. repeat split.
    + intros response ->. exists (fetched_outputs response). cbn zeta.
      split; [apply fetched_outputs_lookup |].
      rewrite <- !fetched_outputs_lookup.
      split; [reflexivity |]. split; [reflexivity |].
      split; [reflexivity |].
      intros Husable later other.
      apply fetched_outputs_nonempty in Husable.
      rewrite getDataApiUrl_cached, getLicenseApiUrl_cached,
        getInitLambdaName_cached by exact Husable.
      repeat split.
  - intros later answer w1 Hne. split; [| split]; intros H.
    + apply getDataApiUrl_result in H. subst answer.
      apply getDataApiUrl_cached, Hne.
    + apply getLicenseApiUrl_result in H. subst answer.
      apply getLicenseApiUrl_cached, Hne.
    + apply getInitLambdaName_result in H. subst answer.
      apply getInitLambdaName_cached, Hne.
  - rewrite getOutputs_run. split; [| split].
    + intros ->. reflexivity.
    + intros e ->. reflexivity.
    + intros response ->. exists (fetched_outputs response).
      split; [apply fetched_outputs_lookup | reflexivity].
Qed.

(** C8 on a new instance: the first call fetches the data API URL with one
    query; after the stack has been updated to another URL, the getter on
    the same instance still answers with the first URL and sends nothing. *)
Lemma endpoint_getters_memoize_witness :
  let first :=
    stack_with_outputs [("ClapDataApiURL", "https://old.example")] in
  let updated :=
    stack_with_outputs [("ClapDataApiURL", "https://new.example")] in
  let w1 := snd (getDataApiUrl first "clapdb" fresh) in
  fst (getDataApiUrl first "clapdb" fresh) = Resolved "https://old.example"
  /\ events w1 = [EvDescribeStacks "clapdb"]
  /\ getDataApiUrl updated "clapdb" w1 = (Resolved "https://old.example", w1).
Proof.
  cbn zeta.
  destruct (endpoint_getters_memoize
              (stack_with_outputs [("ClapDataApiURL", "https://old.example")])
              "clapdb" fresh)
    as (_ & Hfetch & _).
  destruct (Hfetch eq_refl) as (_ & _ & Hresolved).
  destruct (Hresolved _ eq_refl) as (cache & _ & Hdata & _ & _ & Hmemo).
  rewrite Hdata. cbn [fst snd events].
  split; [reflexivity |]. split; [reflexivity |].
  destruct (Hmemo ltac:(discriminate)
              (stack_with_outputs [("ClapDataApiURL", "https://new.example")])
              "clapdb") as (Hagain & _).
  exact Hagain.
Defined.

(** *** The provider registry *)

Lemma string_app_assoc (a b c : string) : (a +:+ b) +:+ c = a +:+ b +:+ c.
Proof.
  induction a as [| ch a IH]; [reflexivity |].
  change (String ch ((a +:+ b) +:+ c) = String ch (a +:+ b +:+ c)).
  rewrite IH. reflexivity.
Qed.

Lemma string_app_nil_r (a : string) : a +:+ "" = a.
Proof.
  induction a as [| ch a IH]; [reflexivity |].
  change (String ch (a +:+ "") = String ch a).
  rewrite IH. reflexivity.
Qed.

Lemma contains_refl (s : string) : contains s s.
Proof. exists "", "". cbn. rewrite string_app_nil_r. reflexivity. Qed.

Lemma contains_app_l (part whole more : string) :
  contains part whole -> contains part (whole +:+ more).
Proof.
  intros (before & after & ->). exists before, (after +:+ more).
  rewrite !string_app_assoc. reflexivity.
Qed.

Lemma contains_app_r (part whole more : string) :
  contains part whole -> contains part (more +:+ whole).
Proof.
  intros (before & after & ->). exists (more +:+ before), after.
  rewrite !string_app_assoc. reflexivity.
Qed.

Lemma contains_trans (a b c : string) :
  contains a b -> contains b c -> contains a c.
Proof.
  intros (before & after & ->) Hbc.
  destruct Hbc as (before' & after' & ->).
  exists (before' +:+ before), (after +:+ after').
  rewrite !string_app_assoc. reflexivity.
Qed.

(** Every joined string is a part of the result of [join]. *)
Lemma contains_join (sep : string) (l : list string) (s : string) :
  In s l -> contains s (join sep l).
Proof.
  unfold join. induction l as [| x l IH]; [intros [] |].
  intros [-> | Hin].
  - destruct l as [| y l]; cbn [String.concat]; [apply contains_refl |].
    apply contains_app_l, contains_refl.
  - destruct l as [| y l]; [destruct Hin |]. cbn [String.concat].
    apply contains_app_r, contains_app_r, IH, Hin.
Qed.

Section MapLemmas.

Context {V : Type}.

Lemma map_get_set (k : string) (v : V) (m : list (string * V)) :
  map_get k (map_set k v m) = Some v.
Proof.
  induction m as [| [k' v'] m IH]; cbn.
  - rewrite String.eqb_refl. reflexivity.
  - destruct (String.eqb_spec k' k) as [-> | Hne]; cbn.
    + rewrite String.eqb_refl. reflexivity.
    + destruct (String.eqb_spec k' k); [contradiction | exact IH].
Qed.

Lemma map_get_set_ne (k k0 : string) (v : V) (m : list (string * V)) :
  k0 <> k -> map_get k0 (map_set k v m) = map_get k0 m.
Proof.
  intros Hne. induction m as [| [k' v'] m IH]; cbn.
  - destruct (String.eqb_spec k k0); [congruence | reflexivity].
  - destruct (String.eqb_spec k' k) as [-> | Hk]; cbn.
    + destruct (String.eqb_spec k k0); [congruence | reflexivity].
    + destruct (String.eqb_spec k' k0); [reflexivity | exact IH].
Qed.

Lemma map_keys_set_in (k : string) (v : V) (m : list (string * V)) :
  In k (map_keys (map_set k v m)).
Proof.
  unfold map_keys. induction m as [| [k' v'] m IH]; cbn; [left; reflexivity |].
  destruct (String.eqb_spec k' k) as [-> | Hk]; cbn; [left | right]; auto.
Qed.

(** Setting a key that is present keeps the keys and their order. *)
Lemma map_keys_set_present (k : string) (v : V) (m : list (string * V)) :
  In k (map_keys m) -> map_keys (map_set k v m) = map_keys m.
Proof.
  unfold map_keys. induction m as [| [k' v'] m IH]; cbn; [intros [] |].
  destruct (String.eqb_spec k' k) as [-> | Hk]; cbn; [reflexivity |].
  intros [Heq | Hin]; [contradiction |]. rewrite IH by exact Hin. reflexivity.
Qed.

(** Setting a key that is absent appends it. *)
Lemma map_keys_set_absent (k : string) (v : V) (m : list (string * V)) :
  map_get k m = None -> map_keys (map_set k v m) = map_keys m ++ [k].
Proof.
  unfold map_keys. induction m as [| [k' v'] m IH]; cbn; [reflexivity |].
  destruct (String.eqb_spec k' k) as [-> | Hk]; cbn; [discriminate |].
  intros Hnone. rewrite IH by exact Hnone. reflexivity.
Qed.

End MapLemmas.

(** C7: registration stores the factory under the lower-cased name, so that
    a create for that name, in any case, calls it; registering again under a
    name with the same lower-cased form replaces the factory and adds no key
    (last writer wins), and other keys are left alone; a create for a name
    whose lower-cased form is not registered fails with a message that ends
    in the registered names joined by [", "], hence contains each of them, or
    in [none] when nothing is registered. *)
Theorem registry_register_and_create {CloudProvider : Type}
    (registry : list (string * (string -> Promise CloudProvider)))
    (name name' profile : string)
    (factory factory' : string -> Promise CloudProvider) :
  let registered := provider.registerCloudProvider name factory registry in
  let again := provider.registerCloudProvider name' factory' registered in
  (map_get (toLowerCase name) registered = Some factory
   /\ In (toLowerCase name) (provider.getRegisteredProviders registered)
   /\ (map_get (toLowerCase name) registry = None ->
       provider.getRegisteredProviders registered
       = provider.getRegisteredProviders registry ++ [toLowerCase name])
   /\ (forall other,
         other <> toLowerCase name ->
         map_get other registered = map_get other registry)
   /\ (toLowerCase name' = toLowerCase name ->
       provider.createCloudProvider registered name' profile = factory profile))
  /\ (toLowerCase name' = toLowerCase name ->
      map_get (toLowerCase name) again = Some factory'
      /\ provider.getRegisteredProviders again
         = provider.getRegisteredProviders registered
      /\ provider.createCloudProvider again name profile = factory' profile)
  /\ (map_get (toLowerCase name) registry = None ->
      let available := join ", " (provider.getRegisteredProviders registry) in
      let msg :=
        "Unknown cloud provider: " +:+ name +:+ ". Available: "
        +:+ (if truthy available then available else "none") in
      provider.createCloudProvider registry name profile
      = Rejected (new_Error msg)
      /\ contains available msg
      /\ (forall key,
            In key (provider.getRegisteredProviders registry) ->
            contains key msg)
      /\ (registry = [] -> contains "none" msg)).
Proof.
  cbn zeta.
  unfold provider.registerCloudProvider, provider.createCloudProvider,
    provider.getRegisteredProviders, provider.CloudProviderFactory.
  split; [| split].
  - split; [apply map_get_set |]. split; [apply map_keys_set_in |].
    split; [apply map_keys_set_absent |].
    split; [intros other Hne; apply map_get_set_ne, Hne |].
    intros ->. rewrite map_get_set. reflexivity.
  - intros ->. split; [apply map_get_set |].
    split; [apply map_keys_set_present, map_keys_set_in |].
    rewrite map_get_set. reflexivity.
  - intros ->.
    assert (Havail :
      contains (join ", " (map_keys registry))
        ("Unknown cloud provider: " +:+ name +:+ ". Available: "
         +:+ (if truthy (join ", " (map_keys registry))
              then join ", " (map_keys registry) else "none"))).
    { destruct (truthy (join ", " (map_keys registry))) eqn:Ht.
      - do 3 apply contains_app_r. apply contains_refl.
      - destruct (join ", " (map_keys registry)); [| discriminate Ht].
        exists "". eexists. reflexivity. }
    split; [reflexivity |]. split; [exact Havail |]. split.
    + intros key Hin. eapply contains_trans; [| exact Havail].
      apply contains_join, Hin.
    + intros ->. cbn. do 3 apply contains_app_r. apply contains_refl.
Qed.

(** C7 on a registry that holds [aws] and [azure], asked for [GCP], and on
    the empty registry. *)
Lemma registry_register_and_create_witness :
  let factory : string -> Promise unit := fun _ => Resolved tt in
  let registry :=
    provider.registerCloudProvider "Azure" factory
      (provider.registerCloudProvider "AWS" factory []) in
  provider.createCloudProvider registry "GCP" "default"
  = Rejected (new_Error "Unknown cloud provider: GCP. Available: aws, azure")
  /\ provider.createCloudProvider ([] : list (string * (string -> Promise unit)))
       "GCP" "default"
     = Rejected (new_Error "Unknown cloud provider: GCP. Available: none").
Proof.
  cbn zeta.
  pose proof (registry_register_and_create
                (provider.registerCloudProvider "Azure" (fun _ => Resolved tt)
                   (provider.registerCloudProvider "AWS" (fun _ => Resolved tt) []))
                "GCP" "GCP" "default" (fun _ => Resolved tt) (fun _ => Resolved tt))
    as (_ & _ & Hmiss).
  pose proof (registry_register_and_create
                ([] : list (string * (string -> Promise unit)))
                "GCP" "GCP" "default" (fun _ => Resolved tt) (fun _ => Resolved tt))
    as (_ & _ & Hnone).
  destruct (Hmiss eq_refl) as (Hm & _).
  destruct (Hnone eq_refl) as (Hn & _).
  split; [exact Hm | exact Hn].
Defined.

(** *** A remark on the Failed set *)

(** A status of the Failed set that is not in the Completed set never ends a
    watch: the Failed check is only reached through the Completed check, so on
    such a status the watcher goes round again, however often it is seen. *)
Lemma failed_status_outside_terminal_keeps_polling (action : DeployAction)
    (name : string) (pre : list Cloud) (w : World) :
  forallb (polls_on name) pre = true ->
  fst (AWSCloudProvider.watchService pre name action w) = Pending.
Proof.
  intros Hpre. rewrite watchService_run.
  rewrite <- (app_nil_r pre), watchLoop_prefix, watchLoop_nil by exact Hpre.
  reflexivity.
Qed.

Example create_failed_keeps_polling :
  let failed := stack_in "CREATE_FAILED" in
  Set_has failedStates "CREATE_FAILED" = true
  /\ polls_on "clapdb" failed = true
  /\ fst (AWSCloudProvider.watchService [failed; failed; failed] "clapdb"
            Deploy fresh) = Pending.
Proof. cbn zeta. repeat split. Qed.

(** * Further properties *)

(** *** Existence and progress of a stack *)

Lemma hasStack_run (cloud : Cloud) (stackName : string) (w : World) :
  hasStack cloud stackName w
  = (match cfn_DescribeStacks cloud stackName with
     | Pending => Pending
     | Resolved response => Resolved (Nat.ltb 0 (length (nullish response [])))
     | Rejected e =>
         if String.eqb (name e) "ValidationError" then Resolved false
         else Rejected e
     end,
     extend w [EvDescribeStacks stackName]).
Proof.
  unfold hasStack. run.
  destruct (cfn_DescribeStacks cloud stackName) as [| response | e]; cbn;
    try reflexivity.
  destruct (String.eqb (name e) "ValidationError"); reflexivity.
Qed.

(** X1: [hasStack] asks the engine once.  When the query fails with an
    error named [ValidationError] the answer is [false] and nothing is
    thrown; any other error reaches the caller as it is; when the query
    succeeds the answer tells whether at least one stack came back. *)
Theorem hasStack_error_classes (cloud : Cloud) (stackName : string)
    (w : World) :
  snd (hasStack cloud stackName w) = extend w [EvDescribeStacks stackName]
  /\ (forall e,
        cfn_DescribeStacks cloud stackName = Rejected e ->
        name e = "ValidationError" ->
        fst (hasStack cloud stackName w) = Resolved false)
  /\ (forall e,
        cfn_DescribeStacks cloud stackName = Rejected e ->
        name e <> "ValidationError" ->
        fst (hasStack cloud stackName w) = Rejected e)
  /\ (forall response,
        cfn_DescribeStacks cloud stackName = Resolved response ->
        fst (hasStack cloud stackName w)
        = Resolved (negb (Nat.eqb (length (nullish response [])) 0))).
Proof.
  rewrite hasStack_run. cbn [fst snd]. split; [reflexivity |].
  split; [| split].
  - intros e -> Hn. rewrite Hn. reflexivity.
  - intros e -> Hn. destruct (String.eqb_spec (name e) "ValidationError");
      [contradiction | reflexivity].
  - intros response ->. destruct (nullish response []); reflexivity.
Qed.

Lemma hasStack_error_classes_witness :
  fst (hasStack (stack_failing validation_error) "clapdb" fresh) = Resolved false
  /\ fst (hasStack (stack_failing access_denied) "clapdb" fresh)
     = Rejected access_denied.
Proof.
  destruct (hasStack_error_classes (stack_failing validation_error) "clapdb" fresh)
    as (_ & Hv & _).
  destruct (hasStack_error_classes (stack_failing access_denied) "clapdb" fresh)
    as (_ & _ & Ho & _).
  split.
  - apply (Hv validation_error); reflexivity.
  - apply (Ho access_denied); [reflexivity | discriminate].
Defined.

(** X2: [hasStack] and [getStackStatus] agree on one state of the engine.
    Where [hasStack] answers [true] the status query gives the status of the
    first stack; where it answers [false] the status query throws, with
    [Stack '<name>' not found] when the engine answered with no stack. *)
Theorem hasStack_then_getStackStatus (cloud : Cloud) (stackName : string)
    (w w' : World) :
  (fst (hasStack cloud stackName w) = Resolved true ->
   exists stack more,
     cfn_DescribeStacks cloud stackName = Resolved (Some (stack :: more))
     /\ fst (getStackStatus cloud stackName w')
        = Resolved (nullish (StackStatus stack) ""))
  /\ (fst (hasStack cloud stackName w) = Resolved false ->
      exists e,
        fst (getStackStatus cloud stackName w') = Rejected e
        /\ (cfn_DescribeStacks cloud stackName = Rejected e
            \/ e = new_Error ("Stack '" +:+ stackName +:+ "' not found"))).
Proof.
  rewrite hasStack_run. unfold getStackStatus. run.
  destruct (cfn_DescribeStacks cloud stackName)
    as [| [[| stack more] |] | e]; cbn; split; intros H; try discriminate H.
  - eexists. split; [reflexivity | right; reflexivity].
  - exists stack, more. split; reflexivity.
  - eexists. split; [reflexivity | right; reflexivity].
  - destruct (String.eqb (name e) "ValidationError"); discriminate H.
  - exists e. split; [reflexivity | left; reflexivity].
Qed.

Lemma hasStack_then_getStackStatus_witness :
  fst (getStackStatus (stack_in "CREATE_COMPLETE") "clapdb" fresh)
  = Resolved "CREATE_COMPLETE".
Proof.
  destruct (hasStack_then_getStackStatus (stack_in "CREATE_COMPLETE") "clapdb"
              fresh fresh) as (Htrue & _).
  destruct (Htrue eq_refl) as (stack & more & Hd & Hs).
  inversion Hd; subst. exact Hs.
Defined.

(** X3: [isWorkingInProgress] never throws: a failing status query counts
    as not in progress.  A stack it reports in progress is, on the same state
    of the engine, neither completed nor failed for the watcher. *)
Theorem isWorkingInProgress_exclusive (cloud : Cloud) (stackName : string)
    (w w' : World) :
  (forall e, fst (isWorkingInProgress cloud stackName w) <> Rejected e)
  /\ (forall e,
        status_reply cloud stackName = Rejected e ->
        fst (isWorkingInProgress cloud stackName w) = Resolved false)
  /\ (fst (isWorkingInProgress cloud stackName w) = Resolved true ->
      fst (isStackDeployCompleted cloud stackName w') = Resolved false
      /\ fst (isStackDeployFailed cloud stackName w') = Resolved false).
Proof.
  rewrite isStackDeployCompleted_run, isStackDeployFailed_run.
  unfold isWorkingInProgress, mbind, M_bind, bind, try_catch.
  rewrite getStackStatus_run.
  destruct (status_reply cloud stackName) as [| status | e]; cbn [fst snd].
  - split; [discriminate |]. split; [discriminate | discriminate].
  - split; [discriminate |]. split; [discriminate |].
    unfold mret, M_ret, ret. cbn [fst]. intros H.
    assert (Hin : Set_has inProgressStates status = true) by congruence.
    unfold Set_has, inProgressStates in Hin. cbn [existsb] in Hin.
    repeat (apply orb_prop in Hin; destruct Hin as [Hin | Hin];
            [apply String.eqb_eq in Hin; subst; split; reflexivity |]).
    discriminate Hin.
  - split; [discriminate |]. split; [reflexivity | discriminate].
Qed.

Lemma isWorkingInProgress_exclusive_witness :
  fst (isStackDeployCompleted (stack_in "UPDATE_IN_PROGRESS") "clapdb" fresh)
  = Resolved false
  /\ fst (isStackDeployFailed (stack_in "UPDATE_IN_PROGRESS") "clapdb" fresh)
     = Resolved false.
Proof.
  destruct (isWorkingInProgress_exclusive (stack_in "UPDATE_IN_PROGRESS")
              "clapdb" fresh fresh) as (_ & _ & H).
  apply H. reflexivity.
Defined.

(** X4: what [getOutputs] leaves in the cache.  An entry of the cache is a
    usable output of the response (key and value both non-empty), so the cache
    never maps a key to the empty string; of several usable outputs with one
    key, over all the stacks of the response, the last one is kept; and a key
    is absent exactly when no usable output has it. *)
Theorem fetched_outputs_last_usable (response : option (list Stack))
    (k : string) :
  (forall v,
     fetched_outputs response !! k = Some v ->
     In (k, v) (usable_outputs response) /\ k <> "" /\ v <> "")
  /\ (forall v before after,
        usable_outputs response = before ++ (k, v) :: after ->
        ~ In k (map fst after) ->
        fetched_outputs response !! k = Some v)
  /\ (fetched_outputs response !! k = None
      <-> ~ In k (map fst (usable_outputs response))).
Proof.
  rewrite fetched_outputs_usable, foldl_insert_lookup, lookup_empty.
  split; [| split].
  - intros v H.
    destruct (List.find _ (rev (usable_outputs response))) as [[k' v'] |] eqn:Hf;
      [| discriminate H].
    apply find_some in Hf. destruct Hf as [Hin Hk].
    apply String.eqb_eq in Hk. cbn in Hk, H. inversion H; subst.
    apply in_rev in Hin. split; [exact Hin |].
    eapply usable_outputs_nonempty, Hin.
  - intros v before after -> Hlast.
    rewrite rev_app_distr. cbn [rev]. rewrite <- app_assoc, find_app.
    destruct (List.find _ (rev after)) as [[k' v'] |] eqn:Hf.
    + apply find_some in Hf. destruct Hf as [Hin Hk].
      apply String.eqb_eq in Hk. cbn in Hk. subst k'.
      apply in_rev in Hin. destruct Hlast.
      apply in_map_iff. exists (k, v'). split; [reflexivity | exact Hin].
    + cbn. rewrite String.eqb_refl. reflexivity.
  - split.
    + intros H Hin. apply in_map_iff in Hin. destruct Hin as ([k' v'] & Hk & Hin).
      cbn in Hk. subst k'.
      destruct (List.find _ (rev (usable_outputs response))) eqn:Hf;
        [discriminate H |].
      apply in_rev in Hin.
      pose proof (find_none _ _ Hf (k, v') Hin) as Hno.
      cbn in Hno. rewrite String.eqb_refl in Hno. discriminate Hno.
    + intros Hno.
      destruct (List.find _ (rev (usable_outputs response))) as [[k' v'] |] eqn:Hf;
        [| reflexivity].
      apply find_some in Hf. destruct Hf as [Hin Hk].
      apply String.eqb_eq in Hk. cbn in Hk. subst k'.
      destruct Hno. apply in_map_iff. exists (k, v'). split; [reflexivity |].
      apply in_rev, Hin.
Qed.

Lemma fetched_outputs_last_usable_witness :
  fetched_outputs
    (Some [ {| StackStatus := None;
               Outputs := Some [ {| OutputKey := Some "ClapDataApiURL";
                                    OutputValue := Some "https://a.example" |};
                                 {| OutputKey := Some "ClapDataApiURL";
                                    OutputValue := Some "https://b.example" |};
                                 {| OutputKey := Some "ClapLicenseApiURL";
                                    OutputValue := Some "" |} ] |} ])
    !! "ClapDataApiURL"
  = Some "https://b.example".
Proof.
  eapply (fetched_outputs_last_usable _ "ClapDataApiURL").
  - instantiate (1 := []). instantiate (1 := [("ClapDataApiURL", "https://a.example")]).
    reflexivity.
  - intros [].
Defined.

(** X5: the cache is one map for the instance, whatever the stack name and
    whichever getter filled it.  Once a getter has left a non-empty cache,
    the three getters asked for any other stack name, against any state of
    the engine, answer from that cache and send nothing: the URLs of the
    first stack are given for the second. *)
Theorem outputs_cache_ignores_stack_name (cloud other : Cloud)
    (first second : string) (w w1 : World) (answer : string) :
  getDataApiUrl cloud first w = (Resolved answer, w1) ->
  outputs w1 <> ∅ ->
  getDataApiUrl other second w1 = (Resolved answer, w1)
  /\ getLicenseApiUrl other second w1
     = (Resolved (nullish (outputs w1 !! "ClapLicenseApiURL") ""), w1)
  /\ getInitLambdaName other second w1
     = (Resolved (nullish (outputs w1 !! "ClapDBInitLambda") ""), w1).
Proof.
  intros Hfirst Hne.
  apply getDataApiUrl_result in Hfirst. subst answer.
  rewrite getDataApiUrl_cached, getLicenseApiUrl_cached,
    getInitLambdaName_cached by exact Hne.
  repeat split.
Qed.

Lemma outputs_cache_ignores_stack_name_witness :
  let a := stack_with_outputs [("ClapDataApiURL", "https://a.example")] in
  let b := stack_with_outputs [("ClapDataApiURL", "https://b.example")] in
  let w1 := snd (getDataApiUrl a "stack-a" fresh) in
  getDataApiUrl b "stack-b" w1 = (Resolved "https://a.example", w1).
Proof.
  cbn zeta.
  apply (outputs_cache_ignores_stack_name
           (stack_with_outputs [("ClapDataApiURL", "https://a.example")])
           (stack_with_outputs [("ClapDataApiURL", "https://b.example")])
           "stack-a" "stack-b" fresh).
  - reflexivity.
  - intros H. apply (f_equal (fun m => m !! "ClapDataApiURL")) in H.
    vm_compute in H. discriminate H.
Defined.

(** X6: an empty answer is not remembered.  While the engine answers with
    no usable output, every call of a getter on an instance with an empty
    cache sends a query again and answers with the empty string. *)
Theorem empty_outputs_are_fetched_again (cloud : Cloud) (stackName : string)
    (response : option (list Stack)) (n : nat) (w : World) :
  outputs w = ∅ ->
  cfn_DescribeStacks cloud stackName = Resolved response ->
  fetched_outputs response = ∅ ->
  getDataApiUrl cloud stackName w
  = (Resolved "", extend w [EvDescribeStacks stackName])
  /\ repeatedly n (getDataApiUrl cloud stackName) w
     = (Resolved tt, extend w (repeat (EvDescribeStacks stackName) n)).
Proof.
  intros Hw Hr Hf.
  assert (Hone : forall w0, outputs w0 = ∅ ->
            getDataApiUrl cloud stackName w0
            = (Resolved "", extend w0 [EvDescribeStacks stackName])).
  { intros w0 H0. rewrite getDataApiUrl_empty, Hr, Hf by exact H0.
    rewrite lookup_empty. unfold extend. rewrite H0. reflexivity. }
  split; [apply Hone, Hw |].
  revert w Hw. induction n as [| n IH]; intros w Hw.
  - cbn. rewrite extend_nil. reflexivity.
  - cbn [repeatedly repeat]. unfold mbind, M_bind, bind.
    rewrite Hone by exact Hw. rewrite IH by exact Hw.
    rewrite extend_extend. reflexivity.
Qed.

Lemma empty_outputs_are_fetched_again_witness :
  repeatedly 3 (getDataApiUrl (stack_with_outputs []) "clapdb") fresh
  = (Resolved tt, extend fresh (repeat (EvDescribeStacks "clapdb") 3)).
Proof.
  apply (empty_outputs_are_fetched_again (stack_with_outputs []) "clapdb"
           (Some [ {| StackStatus := Some "UPDATE_COMPLETE"; Outputs := Some [] |} ])
           3 fresh); reflexivity.
Defined.

(** *** The template of an update *)

(** X7: [updateStack] resubmits a template on every update and never asks
    the engine to reuse the previous one.  With a non-empty template in the
    configuration that template is sent and none is fetched.  Without one (or
    with an empty one) the template currently applied is fetched first and
    sent as it is, the empty string standing for a response without a body;
    when the fetch fails, its error reaches the caller and no update request
    is sent. *)
Theorem updateStack_template (cloud : Cloud) (name : string)
    (config : DeployConfig) (w : World) :
  (forall body,
     templateBody config = Some body -> body <> "" ->
     snd (updateStack cloud name config w)
     = extend w [EvUpdateStack (updateStack_input name config body)])
  /\ (templateBody config = None \/ templateBody config = Some "" ->
      (forall fetched,
         cfn_GetTemplate cloud name = Resolved fetched ->
         snd (updateStack cloud name config w)
         = extend w [EvGetTemplate name;
                     EvUpdateStack
                       (updateStack_input name config (nullish fetched ""))])
      /\ (forall e,
            cfn_GetTemplate cloud name = Rejected e ->
            updateStack cloud name config w
            = (Rejected e, extend w [EvGetTemplate name])))
  /\ (forall body,
        us_UsePreviousTemplate (updateStack_input name config body) = false
        /\ us_TemplateBody (updateStack_input name config body) = Some body).
Proof.
  split; [| split].
  - intros body Hb Hne. unfold updateStack. rewrite Hb. run.
    destruct body; [contradiction |]. cbn.
    destruct (cfn_UpdateStack cloud _); reflexivity.
  - intros Hnone.
    assert (Hf : truthy_opt (templateBody config) = false)
      by (destruct Hnone as [-> | ->]; reflexivity).
    split.
    + intros fetched Hg. unfold updateStack, getTemplateBody. rewrite Hf. run.
      rewrite Hg. cbn.
      destruct (cfn_UpdateStack cloud _); cbn; rewrite extend_extend;
        reflexivity.
    + intros e Hg. unfold updateStack, getTemplateBody. rewrite Hf. run.
      rewrite Hg. reflexivity.
  - intros body. split; reflexivity.
Qed.

Lemma updateStack_template_witness :
  snd (updateStack (artifact_store "v3" "abc123" []) "clapdb"
         (plain_config "clapdb" (Some "v3")) fresh)
  = extend fresh
      [EvGetTemplate "clapdb";
       EvUpdateStack
         (updateStack_input "clapdb" (plain_config "clapdb" (Some "v3"))
            "Resources: {}")].
Proof.
  destruct (updateStack_template (artifact_store "v3" "abc123" []) "clapdb"
              (plain_config "clapdb" (Some "v3")) fresh) as (_ & Hfetch & _).
  destruct (Hfetch (or_introl eq_refl)) as (Hsent & _).
  apply (Hsent (Some "Resources: {}")). reflexivity.
Defined.

(** *** From the resolved version to the stack request *)

Lemma mutations_extend (w : World) (evs : list Event) :
  mutations (events (extend w evs)) = mutations (events w) ++ mutations evs.
Proof. apply List.filter_app. Qed.

Lemma createStack_mutations (cloud : Cloud) (name : string)
    (config : DeployConfig) (w : World) :
  mutations (events (snd (createStack cloud name config w)))
  = mutations (events w) ++ [EvCreateStack (createStack_input name config)].
Proof. rewrite createStack_run. cbn [snd]. rewrite mutations_extend. reflexivity. Qed.

Lemma updateStack_mutations (cloud : Cloud) (name : string)
    (config : DeployConfig) (w : World) :
  mutations (events (snd (updateStack cloud name config w)))
  = mutations (events w)
  \/ exists template,
       mutations (events (snd (updateStack cloud name config w)))
       = mutations (events w)
         ++ [EvUpdateStack (updateStack_input name config template)].
Proof.
  unfold updateStack, getTemplateBody. run.
  destruct (truthy_opt (templateBody config)); cbn.
  - right. eexists.
    destruct (cfn_UpdateStack cloud _); cbn; rewrite mutations_extend;
      reflexivity.
  - destruct (cfn_GetTemplate cloud name); cbn.
    + left. rewrite mutations_extend. apply app_nil_r.
    + right. eexists.
      destruct (cfn_UpdateStack cloud _); cbn;
        rewrite extend_extend, mutations_extend; reflexivity.
    + left. rewrite mutations_extend. apply app_nil_r.
Qed.

(** X8: a stack request follows a successful resolution and carries its
    result.  [deployService] sends at most one create request and
    [updateService] at most one update request, and only when the store
    decided the version (the read of the tag, of the hash or of the artifact
    succeeded); the request is built from the configuration with that version
    and the bucket that was asked, so its [ClapDBVersion] parameter is the
    decided version and never left out. *)
Theorem stack_request_carries_resolved_version (cloud : Cloud)
    (region name : string) (config : DeployConfig) (w : World) :
  let bucket := nullish (artifactsBucket config) (getArtifactsBucket region) in
  let a := Arch_str (arch config) in
  let deployed :=
    mutations (events (snd (AWSCloudProvider.deployService cloud region name
                              config w))) in
  let updated :=
    mutations (events (snd (AWSCloudProvider.updateService cloud region name
                              config w))) in
  (deployed = mutations (events w)
   \/ exists v,
        version_from_store cloud bucket a (clapdbVersion config) v
        /\ deployed
           = mutations (events w)
             ++ [EvCreateStack
                   (createStack_input name (with_version_bucket config v bucket))])
  /\ (updated = mutations (events w)
      \/ exists v template,
           version_from_store cloud bucket a (clapdbVersion config) v
           /\ updated
              = mutations (events w)
                ++ [EvUpdateStack
                      (updateStack_input name
                         (with_version_bucket config v bucket) template)])
  /\ (forall v,
        find_param "ClapDBVersion"
          (createStack_Parameters name (with_version_bucket config v bucket))
        = Some (param_value "ClapDBVersion" (Some v))
        /\ find_param "ArtifactsBucket"
             (createStack_Parameters name (with_version_bucket config v bucket))
           = Some (param_value "ArtifactsBucket" (Some bucket))
        /\ find_param "ClapDBVersion"
             (updateStack_Parameters name (with_version_bucket config v bucket))
           = Some (param_value "ClapDBVersion" (Some v))).
Proof.
  cbn zeta.
  set (bucket := nullish (artifactsBucket config) (getArtifactsBucket region)).
  set (a := Arch_str (arch config)).
  assert (Hupd : forall v evs,
    mutations evs = [] ->
    version_from_store cloud bucket a (clapdbVersion config) v ->
    let sent :=
      mutations (events (snd (updateStack cloud name
                                (with_version_bucket config v bucket)
                                (extend w evs)))) in
    sent = mutations (events w)
    \/ exists v0 template,
         version_from_store cloud bucket a (clapdbVersion config) v0
         /\ sent
            = mutations (events w)
              ++ [EvUpdateStack
                    (updateStack_input name
                       (with_version_bucket config v0 bucket) template)]).
  { intros v evs Hevs Hv. cbn zeta.
    destruct (updateStack_mutations cloud name
                (with_version_bucket config v bucket) (extend w evs))
      as [H | (template & H)].
    - left. rewrite H, mutations_extend, Hevs. apply app_nil_r.
    - right. exists v, template. split; [exact Hv |].
      rewrite H, mutations_extend, Hevs, app_nil_r. reflexivity. }
  assert (Hcre : forall v evs,
    mutations evs = [] ->
    version_from_store cloud bucket a (clapdbVersion config) v ->
    exists v0,
      version_from_store cloud bucket a (clapdbVersion config) v0
      /\ mutations (events (snd (createStack cloud name
                                   (with_version_bucket config v bucket)
                                   (extend w evs))))
         = mutations (events w)
           ++ [EvCreateStack
                 (createStack_input name (with_version_bucket config v0 bucket))]).
  { intros v evs Hevs Hv. exists v. split; [exact Hv |].
    rewrite createStack_mutations, mutations_extend, Hevs, app_nil_r.
    reflexivity. }
  assert (Hnone : forall (A : Type) (r : Promise A) evs,
    mutations evs = [] ->
    mutations (events (snd (r, extend w evs))) = mutations (events w)).
  { intros A r evs Hevs. cbn [snd]. rewrite mutations_extend, Hevs.
    apply app_nil_r. }
  split; [| split; [| intros v; repeat split]].
  - destruct (clapdbVersion config) as [v |] eqn:Hv.
    + destruct (String.eqb_spec v "") as [-> | Hne].
      * rewrite deployService_tag by (right; exact Hv). fold bucket.
        destruct (s3_GetObject cloud bucket "LATEST_TAG") eqn:Hs;
          [left; apply Hnone; reflexivity | right | left; apply Hnone; reflexivity].
        apply Hcre; [reflexivity |].
        eapply from_tag; [right; reflexivity | exact Hs].
      * destruct (String.eqb_spec v "latest") as [-> | Hnl].
        -- rewrite deployService_latest by exact Hv. fold bucket.
           destruct (s3_GetObject cloud bucket "LATEST_HASH") eqn:Hs;
             [left; apply Hnone; reflexivity | right | left; apply Hnone; reflexivity].
           apply Hcre; [reflexivity |]. eapply from_hash, Hs.
        -- rewrite (deployService_version _ _ _ _ v) by assumption.
           fold bucket a.
           destruct (s3_GetObject cloud bucket (artifact_key v a)) eqn:Hs;
             [left; apply Hnone; reflexivity | right | left; apply Hnone; reflexivity].
           apply Hcre; [reflexivity |]. eapply from_token; eassumption.
    + rewrite deployService_tag by (left; exact Hv). fold bucket.
      destruct (s3_GetObject cloud bucket "LATEST_TAG") eqn:Hs;
        [left; apply Hnone; reflexivity | right | left; apply Hnone; reflexivity].
      apply Hcre; [reflexivity |].
      eapply from_tag; [left; reflexivity | exact Hs].
  - destruct (clapdbVersion config) as [v |] eqn:Hv.
    + destruct (String.eqb_spec v "") as [-> | Hne].
      * rewrite updateService_tag by (right; exact Hv). fold bucket.
        destruct (s3_GetObject cloud bucket "LATEST_TAG") eqn:Hs;
          [left; apply Hnone; reflexivity | | left; apply Hnone; reflexivity].
        apply Hupd; [reflexivity |].
        eapply from_tag; [right; reflexivity | exact Hs].
      * destruct (String.eqb_spec v "latest") as [-> | Hnl].
        -- rewrite updateService_latest by exact Hv. fold bucket.
           destruct (s3_GetObject cloud bucket "LATEST_HASH") eqn:Hs;
             [left; apply Hnone; reflexivity | | left; apply Hnone; reflexivity].
           apply Hupd; [reflexivity |]. eapply from_hash, Hs.
        -- rewrite (updateService_version _ _ _ _ v) by assumption.
           fold bucket a.
           destruct (s3_GetObject cloud bucket (artifact_key v a)) eqn:Hs;
             [left; apply Hnone; reflexivity | | left; apply Hnone; reflexivity].
           apply Hupd; [reflexivity |]. eapply from_token; eassumption.
    + rewrite updateService_tag by (left; exact Hv). fold bucket.
      destruct (s3_GetObject cloud bucket "LATEST_TAG") eqn:Hs;
        [left; apply Hnone; reflexivity | | left; apply Hnone; reflexivity].
      apply Hupd; [reflexivity |].
      eapply from_tag; [left; reflexivity | exact Hs].
Qed.

(** A deploy with no version against a store whose tag is [v3], with a line
    end after it: the create request carries [v3]. *)
Example deploy_with_latest_tag :
  let sent :=
    create_requests
      (events (snd (AWSCloudProvider.deployService
                      (artifact_store ("v3" +:+ String (ascii_of_nat 10) "")
                         "abc123" [])
                      "us-east-1" "clapdb" (plain_config "clapdb" None) fresh))) in
  find_param "ClapDBVersion" <$> sent
  = [Some (param_value "ClapDBVersion" (Some "v3"))].
Proof. reflexivity. Qed.

(** *** Artifact information *)

(** X9: [getArtifactInfo] reads the tag, then the hash, and checks the
    artifact only when both a version and an architecture are given and
    non-empty.  Without one of them it reports [exists] as true whatever the
    store holds; with both, [exists] tells whether the artifact could be
    read, a failed read counting as absent.  A failed read of the tag ends
    the call before the hash is read. *)
Theorem getArtifactInfo_exists (cloud : Cloud) (bucket : string)
    (version arch : option string) (w : World) :
  let run := AWSCloudProvider.getArtifactInfo cloud bucket version arch w in
  let reads :=
    [EvGetLatestTag bucket; EvGetObject bucket "LATEST_TAG";
     EvGetLatestHash bucket; EvGetObject bucket "LATEST_HASH"] in
  (forall e,
     s3_GetObject cloud bucket "LATEST_TAG" = Rejected e ->
     run
     = (Rejected (new_Error ("Failed to get latest tag from bucket " +:+ bucket)),
        extend w [EvGetLatestTag bucket; EvGetObject bucket "LATEST_TAG"]))
  /\ (forall tag hash,
        s3_GetObject cloud bucket "LATEST_TAG" = Resolved tag ->
        s3_GetObject cloud bucket "LATEST_HASH" = Resolved hash ->
        let info found :=
          {| AWSCloudProvider.latestTag := trim (nullish tag "");
             AWSCloudProvider.latestHash := trim (nullish hash "");
             AWSCloudProvider.exists_ := found |} in
        (truthy_opt version && truthy_opt arch = false ->
         run = (Resolved (info true), extend w reads))
        /\ (forall v a,
              version = Some v -> arch = Some a -> v <> "" -> a <> "" ->
              snd run
              = extend w (reads ++ [EvHasArtifact bucket v a;
                                    EvGetObject bucket (artifact_key v a)])
              /\ (forall body,
                    s3_GetObject cloud bucket (artifact_key v a) = Resolved body ->
                    fst run = Resolved (info true))
              /\ (forall e,
                    s3_GetObject cloud bucket (artifact_key v a) = Rejected e ->
                    fst run = Resolved (info false)))).
Proof.
  cbn zeta. unfold AWSCloudProvider.getArtifactInfo, mbind, M_bind, bind.
  rewrite getLatestTag_run. split.
  - intros e ->. reflexivity.
  - intros tag hash -> Hh. rewrite getLatestHash_run, Hh, extend_extend. split.
    + intros ->. reflexivity.
    + intros v a -> -> Hv Ha.
      assert (Ht : truthy_opt (Some v) && truthy_opt (Some a) = true)
        by (destruct v, a; try contradiction; reflexivity).
      rewrite Ht, hasArtifact_run, extend_extend. cbn [nullish].
      destruct (s3_GetObject cloud bucket (artifact_key v a)); cbn [fst snd];
        (split; [reflexivity |]); split; intros ? H; try discriminate H;
        reflexivity.
Qed.

Lemma getArtifactInfo_exists_witness :
  fst (AWSCloudProvider.getArtifactInfo (artifact_store "v3" "abc123" [])
         "clapdb-pkgs-us-east-1" (Some "v9") None fresh)
  = Resolved {| AWSCloudProvider.latestTag := "v3";
                AWSCloudProvider.latestHash := "abc123";
                AWSCloudProvider.exists_ := true |}.
Proof.
  destruct (getArtifactInfo_exists (artifact_store "v3" "abc123" [])
              "clapdb-pkgs-us-east-1" (Some "v9") None fresh) as (_ & H).
  destruct (H (Some "v3") (Some "abc123") eq_refl eq_refl) as (Hnone & _).
  rewrite (Hnone eq_refl). reflexivity.
Defined.

(** *** The progress report of the watcher *)

Lemma first_processed_spec (action : DeployAction)
    (status : list (string * string)) :
  match AWSCloudProvider.first_processed action status with
  | Some shown =>
      exists before after,
        status = before ++ shown :: after
        /\ just_completed action (snd shown) = true
        /\ Forall (fun entry => just_completed action (snd entry) = false) before
  | None =>
      Forall (fun entry => just_completed action (snd entry) = false) status
  end.
Proof.
  induction status as [| [resource st] status IH]; [constructor |].
  cbn [AWSCloudProvider.first_processed].
  assert (Hcases :
    just_completed action st = true
    /\ (if DeployAction_eqb action Deploy
           && (String.eqb st "CREATE_COMPLETE" || String.eqb st "UPDATE_COMPLETE")
        then Some (resource, st)
        else if DeployAction_eqb action Delete && String.eqb st "DELETE_COMPLETE"
        then Some (resource, st)
        else if DeployAction_eqb action Update && String.eqb st "UPDATE_COMPLETE"
        then Some (resource, st)
        else AWSCloudProvider.first_processed action status)
       = Some (resource, st)
    \/ just_completed action st = false
       /\ (if DeployAction_eqb action Deploy
              && (String.eqb st "CREATE_COMPLETE" || String.eqb st "UPDATE_COMPLETE")
           then Some (resource, st)
           else if DeployAction_eqb action Delete && String.eqb st "DELETE_COMPLETE"
           then Some (resource, st)
           else if DeployAction_eqb action Update && String.eqb st "UPDATE_COMPLETE"
           then Some (resource, st)
           else AWSCloudProvider.first_processed action status)
          = AWSCloudProvider.first_processed action status).
  { destruct action; cbn [DeployAction_eqb just_completed andb];
      repeat match goal with
             | |- context [String.eqb st ?x] => destruct (String.eqb st x)
             end; cbn; tauto. }
  destruct Hcases as [[Hj ->] | [Hj ->]].
  - exists [], status. repeat split; [exact Hj | constructor].
  - destruct (AWSCloudProvider.first_processed action status) as [shown |].
    + destruct IH as (before & after & -> & Hs & Hb).
      exists ((resource, st) :: before), after.
      repeat split; [exact Hs | constructor; assumption].
    + constructor; assumption.
Qed.

(** The first entry with a property splits a list in one way only. *)
Lemma first_split_unique {A : Type} (p : A -> bool) (before before' : list A)
    (x x' : A) (after after' : list A) :
  before ++ x :: after = before' ++ x' :: after' ->
  p x = true -> p x' = true ->
  Forall (fun y => p y = false) before ->
  Forall (fun y => p y = false) before' ->
  before' = before /\ x' = x.
Proof.
  revert before'. induction before as [| y before IH]; intros before' Heq Hx Hx' Hb Hb'.
  - destruct before' as [| y' before']; cbn in Heq; inversion Heq; subst.
    + split; reflexivity.
    + apply Forall_cons in Hb' as [Hy _]. congruence.
  - apply Forall_cons in Hb as [Hy Hb].
    destruct before' as [| y' before']; cbn in Heq; inversion Heq; subst.
    + congruence.
    + apply Forall_cons in Hb' as [_ Hb'].
      destruct (IH before' H1 Hx Hx' Hb Hb') as [-> ->]. split; reflexivity.
Qed.

(** X10: the progress report queries the resources once and shows, as
    [ <resource> => <status>], the first resource of the map, in its order,
    whose status is a just-completed one for the action ([CREATE_COMPLETE] or
    [UPDATE_COMPLETE] on deploy, [UPDATE_COMPLETE] on update,
    [DELETE_COMPLETE] on delete); when there is none, or when the query
    fails, the spinner text is left as it is. *)
Theorem progress_report_shows_first_completed (cloud : Cloud)
    (stackName : string) (action : DeployAction) (w : World) :
  let report :=
    AWSCloudProvider.showFirstProcessedResource cloud stackName action w in
  (forall status before resource st after,
     fst (getResourcesStatus cloud stackName w) = Resolved status ->
     status = before ++ (resource, st) :: after ->
     just_completed action st = true ->
     Forall (fun entry => just_completed action (snd entry) = false) before ->
     report
     = (Resolved true,
        extend w [EvDescribeStackResources stackName;
                  EvSpinnerText (" " +:+ resource +:+ " => " +:+ st)]))
  /\ (forall status,
        fst (getResourcesStatus cloud stackName w) = Resolved status ->
        Forall (fun entry => just_completed action (snd entry) = false) status ->
        report = (Resolved false, extend w [EvDescribeStackResources stackName]))
  /\ (forall e,
        cfn_DescribeStackResources cloud stackName = Rejected e ->
        report
        = (Resolved (negb (DeployAction_eqb action Update)),
           extend w [EvDescribeStackResources stackName])).
Proof.
  cbn zeta.
  unfold AWSCloudProvider.showFirstProcessedResource, getResourcesStatus.
  run.
  destruct (cfn_DescribeStackResources cloud stackName) as [| response | e];
    cbn.
  - repeat split; intros; discriminate.
  - set (status0 := foldl _ [] (nullish response [])).
    pose proof (first_processed_spec action status0) as Hspec.
    split; [| split].
    + intros status before resource st after Hs -> Hj Hb.
      inversion Hs as [Hs'].
      destruct (AWSCloudProvider.first_processed action status0)
        as [[r' s'] |].
      * destruct Hspec as (before' & after' & Heq & Hj' & Hb').
        rewrite Hs' in Heq.
        assert (Hsame : before' = before /\ (r', s') = (resource, st))
          by exact (first_split_unique
                      (fun entry => just_completed action (snd entry))
                      before before' (resource, st) (r', s') after after'
                      Heq Hj Hj' Hb Hb').
        destruct Hsame as [_ Hsame]. inversion Hsame; subst r' s'.
        cbn. rewrite extend_extend. reflexivity.
      * rewrite Hs' in Hspec.
        apply Forall_app in Hspec. destruct Hspec as [_ Hspec].
        apply Forall_cons in Hspec as [Hno _]. cbn in Hno. congruence.
    + intros status Hs Hall. inversion Hs as [Hs'].
      destruct (AWSCloudProvider.first_processed action status0)
        as [[r' s'] |].
      * destruct Hspec as (before & after & Heq & Hj & _).
        rewrite <- Hs', Heq in Hall.
        apply Forall_app in Hall. destruct Hall as [_ Hall].
        apply Forall_cons in Hall as [Hno _]. cbn in *. congruence.
      * reflexivity.
    + intros e H. discriminate H.
  - split; [| split]; try (intros; discriminate).
    intros e' _. destruct action; reflexivity.
Qed.

Lemma progress_report_shows_first_completed_witness :
  AWSCloudProvider.showFirstProcessedResource
    (stack_with_resources "CREATE_IN_PROGRESS"
       [("Bucket", "CREATE_IN_PROGRESS"); ("Role", "CREATE_COMPLETE")])
    "clapdb" Deploy fresh
  = (Resolved true,
     extend fresh [EvDescribeStackResources "clapdb";
                   EvSpinnerText " Role => CREATE_COMPLETE"]).
Proof.
  destruct (progress_report_shows_first_completed
              (stack_with_resources "CREATE_IN_PROGRESS"
                 [("Bucket", "CREATE_IN_PROGRESS"); ("Role", "CREATE_COMPLETE")])
              "clapdb" Deploy fresh) as (Hshown & _).
  apply (Hshown [("Bucket", "CREATE_IN_PROGRESS"); ("Role", "CREATE_COMPLETE")]
           [("Bucket", "CREATE_IN_PROGRESS")] "Role" "CREATE_COMPLETE" []);
    [reflexivity | reflexivity | reflexivity | repeat constructor].
Defined.

(** *** What the watcher's outcome depends on, and what a watch does *)

Lemma show_answered (cloud : Cloud) (name : string) (action : DeployAction) :
  cfn_DescribeStackResources cloud name <> Pending ->
  exists b,
    fst (AWSCloudProvider.showFirstProcessedResource cloud name action fresh)
    = Resolved b.
Proof.
  intros Hne. pose proof (show_result cloud name action) as Hs.
  destruct (cfn_DescribeStackResources cloud name);
    [contradiction | exact Hs | exact Hs].
Qed.

Lemma watchLoop_fst (script : list Cloud) (name : string)
    (action : DeployAction) (w : World) :
  fst (AWSCloudProvider.watchLoop script name action w)
  = fst (AWSCloudProvider.watchLoop script name action fresh).
Proof.
  revert w. induction script as [| cloud later IH]; intros w.
  - rewrite !watchLoop_nil. reflexivity.
  - rewrite !watchLoop_step.
    destruct (status_reply cloud name) as [| status | e]; try reflexivity.
    destruct (Set_has terminalStates status); try reflexivity.
    destruct (fst (AWSCloudProvider.showFirstProcessedResource
                     cloud name action fresh)); try reflexivity.
    rewrite (IH (extend w _)), (IH (extend fresh _)). reflexivity.
Qed.

(** X11: progress reporting is best effort.  The outcome of a watch
    (pending, success, or which error) depends on the answers to the status
    queries only: two scripts whose status queries answer alike give the same
    outcome, whatever their resource queries answer, failures included, as
    long as they answer. *)
Theorem watch_outcome_ignores_resources (script script' : list Cloud)
    (name : string) (action : DeployAction) (w w' : World) :
  Forall2 (same_status name) script script' ->
  fst (AWSCloudProvider.watchService script name action w)
  = fst (AWSCloudProvider.watchService script' name action w').
Proof.
  intros Hsame.
  assert (Hloop : fst (AWSCloudProvider.watchLoop script name action fresh)
                  = fst (AWSCloudProvider.watchLoop script' name action fresh)).
  { induction Hsame as [| c c' later later' (Hs & Hr & Hr') Hlater IH].
    - reflexivity.
    - rewrite !watchLoop_step, <- Hs.
      destruct (status_reply c name) as [| status | e]; try reflexivity.
      destruct (Set_has terminalStates status).
      + cbn [fst].
        assert (Hnext : status_reply (next_cloud later) name
                        = status_reply (next_cloud later') name).
        { destruct Hlater as [| d d' ? ? (Hd & _) _]; [reflexivity | exact Hd]. }
        rewrite Hnext. reflexivity.
      + destruct (show_answered c name action Hr) as [b ->].
        destruct (show_answered c' name action Hr') as [b' ->].
        rewrite (watchLoop_fst later), (watchLoop_fst later'). exact IH. }
  rewrite !watchService_run.
  pose proof (watchLoop_fst script name action w) as H1.
  pose proof (watchLoop_fst script' name action w') as H2.
  destruct (AWSCloudProvider.watchLoop script name action w) as [r1 w1].
  destruct (AWSCloudProvider.watchLoop script' name action w') as [r2 w2].
  cbn [fst] in H1, H2.
  assert (Hr : r1 = r2) by (rewrite H1, H2; exact Hloop).
  clear H1 H2 Hloop. subst r2.
  destruct r1 as [| [] |]; reflexivity.
Qed.

Lemma watch_outcome_ignores_resources_witness :
  fst (AWSCloudProvider.watchService
         [stack_with_resources "CREATE_IN_PROGRESS" [("Role", "CREATE_COMPLETE")];
          stack_in "CREATE_COMPLETE"; stack_in "CREATE_COMPLETE"]
         "clapdb" Deploy fresh)
  = fst (AWSCloudProvider.watchService
           [stack_in "CREATE_IN_PROGRESS";
            stack_in "CREATE_COMPLETE"; stack_in "CREATE_COMPLETE"]
           "clapdb" Deploy fresh).
Proof.
  apply watch_outcome_ignores_resources.
  repeat constructor; discriminate.
Defined.

(** X12: a watch only watches.  Whatever the script, the watcher does
    nothing but query the status and the resources of its own stack, sleep
    for 500 ms, and write to or stop the spinner: it sends no create or update
    request, reads nothing from the store, and leaves the outputs cache as it
    was.  It sleeps once after every progress report, so between the status
    queries of two rounds there is always one sleep: a run makes one or two
    more status queries than sleeps. *)
Theorem watch_only_observes (script : list Cloud) (name : string)
    (action : DeployAction) (w : World) :
  exists evs,
    snd (AWSCloudProvider.watchService script name action w) = extend w evs
    /\ Forall (watcher_event name) evs
    /\ (length (List.filter is_status_query evs)
        = length (List.filter is_sleep evs) + 1
        \/ length (List.filter is_status_query evs)
           = length (List.filter is_sleep evs) + 2).
Proof.
  assert (Hprog : forall cloud,
            Forall (watcher_event name) (progress_events cloud name action)).
  { intros cloud.
    destruct (progress_events_shape cloud name action) as [-> | (text & ->)];
      repeat constructor. }
  assert (Hloop : forall w0, exists evs,
    snd (AWSCloudProvider.watchLoop script name action w0) = extend w0 evs
    /\ Forall (watcher_event name) evs
    /\ List.filter is_spinner_stop evs = []
    /\ (length (List.filter is_status_query evs)
        = length (List.filter is_sleep evs) + 1
        \/ length (List.filter is_status_query evs)
           = length (List.filter is_sleep evs) + 2)).
  { induction script as [| cloud later IH]; intros w0.
    - rewrite watchLoop_nil. eexists. split; [reflexivity |].
      split; [repeat constructor |]. split; [reflexivity | left; reflexivity].
    - destruct (progress_events_quiet cloud name action) as (Q1 & Q2 & Q3).
      rewrite watchLoop_step.
      destruct (status_reply cloud name) as [| status | e].
      + eexists. split; [reflexivity |].
        split; [repeat constructor |]. split; [reflexivity | left; reflexivity].
      + destruct (Set_has terminalStates status).
        * eexists. split; [reflexivity |].
          split; [repeat constructor |]. split; [reflexivity | right; reflexivity].
        * destruct (fst (AWSCloudProvider.showFirstProcessedResource
                           cloud name action fresh)).
          -- eexists. split; [reflexivity |].
             split; [constructor; [reflexivity | apply Hprog] |].
             cbn [List.filter is_spinner_stop is_status_query is_sleep].
             rewrite Q1, Q2, Q3. split; [reflexivity | left; reflexivity].
          -- destruct (IH (extend w0 (EvDescribeStacks name
                                     :: progress_events cloud name action
                                     ++ [EvSleep 500])))
               as (evs & -> & Hall & Hstop & Hcount).
             rewrite extend_extend.
             exists ((EvDescribeStacks name
                      :: progress_events cloud name action ++ [EvSleep 500])
                     ++ evs).
             split; [reflexivity |].
             split.
             { apply Forall_app. split; [| exact Hall].
               constructor; [reflexivity |].
               apply Forall_app. split; [apply Hprog | repeat constructor]. }
             rewrite !List.filter_app, !length_app, Hstop.
             cbn [List.filter app is_spinner_stop is_status_query is_sleep].
             rewrite !List.filter_app, Q1, Q2, Q3. cbn.
             split; [reflexivity |]. lia.
          -- eexists. split; [reflexivity |].
             split; [constructor; [reflexivity | apply Hprog] |].
             cbn [List.filter is_spinner_stop is_status_query is_sleep].
             rewrite Q1, Q2, Q3. split; [reflexivity | left; reflexivity].
      + eexists. split; [reflexivity |].
        split; [repeat constructor |]. split; [reflexivity | left; reflexivity]. }
  rewrite watchService_run.
  destruct (Hloop w) as (evs & Hsnd & Hall & _ & Hcount).
  destruct (AWSCloudProvider.watchLoop script name action w) as [r w1].
  cbn [snd] in Hsnd. subst w1.
  destruct r as [| [] | e].
  - exists evs. repeat split; assumption.
  - exists (evs ++ [EvSpinnerStop]). rewrite extend_extend.
    split; [reflexivity |]. split.
    + apply Forall_app. split; [exact Hall | repeat constructor].
    + rewrite !List.filter_app, !length_app. cbn. lia.
  - exists (evs ++ [EvSpinnerStop]). rewrite extend_extend.
    split; [reflexivity |]. split.
    + apply Forall_app. split; [exact Hall | repeat constructor].
    + rewrite !List.filter_app, !length_app. cbn. lia.
Qed.

(** *** The registry over a sequence of registrations *)

Lemma map_get_none_keys {V : Type} (k : string) (m : list (string * V)) :
  map_get k m = None <-> ~ In k (map_keys m).
Proof.
  unfold map_keys. induction m as [| [k' v'] m IH]; cbn.
  - split; [intros _ [] | reflexivity].
  - destruct (String.eqb_spec k' k) as [-> | Hne].
    + split; [discriminate | intros H; destruct H; left; reflexivity].
    + rewrite IH. split.
      * intros H [Heq | Hin]; [contradiction | exact (H Hin)].
      * intros H Hin. apply H. right; exact Hin.
Qed.

Lemma map_keys_set_cases {V : Type} (k : string) (v : V)
    (m : list (string * V)) :
  (In k (map_keys m) /\ map_keys (map_set k v m) = map_keys m)
  \/ (~ In k (map_keys m) /\ map_keys (map_set k v m) = map_keys m ++ [k]).
Proof.
  destruct (map_get k m) eqn:Hg.
  - left. assert (Hin : In k (map_keys m)).
    { destruct (in_dec String.string_dec k (map_keys m)) as [Hin | Hno];
        [exact Hin |].
      apply map_get_none_keys in Hno. congruence. }
    split; [exact Hin | apply map_keys_set_present, Hin].
  - right. split; [apply map_get_none_keys, Hg | apply map_keys_set_absent, Hg].
Qed.

Lemma register_all_cons {CloudProvider : Type} (n : string)
    (f : string -> Promise CloudProvider)
    (regs registry : list (string * (string -> Promise CloudProvider))) :
  register_all ((n, f) :: regs) registry
  = register_all regs (map_set (toLowerCase n) f registry).
Proof. reflexivity. Qed.

(** X13: after any sequence of registrations the registry lists no name
    twice, its names are exactly the lower-cased forms of the registered
    names, and a create for a name calls the factory of the last registration
    whose name has the same lower-cased form. *)
Theorem registry_after_registrations {CloudProvider : Type}
    (regs : list (string * (string -> Promise CloudProvider))) :
  let registry := register_all regs [] in
  NoDup (provider.getRegisteredProviders registry)
  /\ (forall key,
        In key (provider.getRegisteredProviders registry)
        <-> exists reg, In reg regs /\ key = toLowerCase (fst reg))
  /\ (forall before reg after name profile,
        regs = before ++ reg :: after ->
        toLowerCase name = toLowerCase (fst reg) ->
        (forall later, In later after ->
                       toLowerCase (fst later) <> toLowerCase (fst reg)) ->
        provider.createCloudProvider registry name profile = snd reg profile).
Proof.
  cbn zeta. unfold provider.getRegisteredProviders.
  assert (Hgen : forall (registry0 : list (string * (string -> Promise CloudProvider))),
    NoDup (map_keys registry0) ->
    NoDup (map_keys (register_all regs registry0))
    /\ (forall key,
          In key (map_keys (register_all regs registry0))
          <-> In key (map_keys registry0)
              \/ exists reg, In reg regs /\ key = toLowerCase (fst reg))
    /\ (forall key,
          (forall reg, In reg regs -> toLowerCase (fst reg) <> key) ->
          map_get key (register_all regs registry0) = map_get key registry0)).
  { induction regs as [| [n f] regs IH]; intros registry0 Hnd.
    - cbn. split; [exact Hnd |]. split; [| reflexivity].
      intros key. split; [auto | intros [H | (reg & [] & _)]; exact H].
    - rewrite !register_all_cons.
      destruct (map_keys_set_cases (toLowerCase n) f registry0)
        as [[Hin Hk] | [Hno Hk]].
      + destruct (IH (map_set (toLowerCase n) f registry0)) as (I1 & I2 & I3);
          [rewrite Hk; exact Hnd |].
        split; [exact I1 |]. split.
        * intros key. rewrite I2, Hk. split.
          -- intros [H | (reg & Hr & ->)]; [left; exact H |].
             right. exists reg. split; [right; exact Hr | reflexivity].
          -- intros [H | (reg & [<- | Hr] & ->)]; [left; exact H | |].
             ++ left. exact Hin.
             ++ right. exists reg. split; [exact Hr | reflexivity].
        * intros key Hfar. rewrite I3.
          -- apply map_get_set_ne. intros ->.
             apply (Hfar (n, f)); [left; reflexivity | reflexivity].
          -- intros reg Hr. apply Hfar. right; exact Hr.
      + destruct (IH (map_set (toLowerCase n) f registry0)) as (I1 & I2 & I3).
        { rewrite Hk. apply NoDup_app. split; [exact Hnd |]. split.
          - intros x Hx Hx'. apply list_elem_of_singleton in Hx'. subst x.
            apply Hno, list_elem_of_In, Hx.
          - apply NoDup_singleton. }
        split; [exact I1 |]. split.
        * intros key. rewrite I2, Hk, in_app_iff. split.
          -- intros [[H | [<- | []]] | (reg & Hr & ->)].
             ++ left; exact H.
             ++ right. exists (n, f). split; [left; reflexivity | reflexivity].
             ++ right. exists reg. split; [right; exact Hr | reflexivity].
          -- intros [H | (reg & [<- | Hr] & ->)].
             ++ left; left; exact H.
             ++ left; right; left; reflexivity.
             ++ right. exists reg. split; [exact Hr | reflexivity].
        * intros key Hfar. rewrite I3.
          -- apply map_get_set_ne. intros ->.
             apply (Hfar (n, f)); [left; reflexivity | reflexivity].
          -- intros reg Hr. apply Hfar. right; exact Hr. }
  destruct (Hgen [] (NoDup_nil_2)) as (H1 & H2 & _).
  split; [exact H1 |]. split.
  - intros key. rewrite H2. cbn. tauto.
  - intros before [n f] after name profile -> Hname Hlast. cbn [fst snd] in *.
    unfold provider.createCloudProvider. rewrite Hname.
    assert (Hget : map_get (toLowerCase n)
                     (register_all (before ++ (n, f) :: after) [])
                   = Some f).
    { unfold register_all. rewrite foldl_app. cbn [foldl fst snd].
      assert (Hafter : forall r,
                map_get (toLowerCase n) r = Some f ->
                map_get (toLowerCase n)
                  (foldl (fun r reg =>
                            provider.registerCloudProvider (fst reg) (snd reg) r)
                         r after)
                = Some f).
      { clear - Hlast. induction after as [| [n' f'] after IH]; intros r Hr.
        - exact Hr.
        - cbn [foldl fst snd]. apply IH.
          + intros later Hin. apply Hlast. right; exact Hin.
          + unfold provider.registerCloudProvider.
            rewrite map_get_set_ne; [exact Hr |].
            intros Heq. apply (Hlast (n', f')); [left; reflexivity |].
            cbn. congruence. }
      apply Hafter. unfold provider.registerCloudProvider. apply map_get_set. }
    unfold provider.CloudProviderFactory in *. rewrite Hget. reflexivity.
Qed.

Lemma registry_after_registrations_witness :
  let first : string -> Promise nat := fun _ => Resolved 1 in
  let second : string -> Promise nat := fun _ => Resolved 2 in
  provider.createCloudProvider
    (register_all [("AWS", first); ("azure", first); ("aws", second)] [])
    "Aws" "default"
  = Resolved 2.
Proof.
  cbn zeta.
  destruct (registry_after_registrations
              [("AWS", fun _ => Resolved 1); ("azure", fun _ => Resolved 1);
               ("aws", fun _ : string => Resolved 2)]) as (_ & _ & H).
  apply (H [("AWS", fun _ => Resolved 1); ("azure", fun _ => Resolved 1)]
           ("aws", fun _ => Resolved 2) [] "Aws" "default");
    [reflexivity | reflexivity | intros later []].
Defined.

Lemma listed_later (answer : Promise ListObjectsV2Output)
    (later : list (Promise ListObjectsV2Output)) (key : string) :
  listed later key -> listed (answer :: later) key.
Proof.
  intros (page & contents & obj & Hin & H). exists page, contents, obj.
  split; [right; exact Hin | exact H].
Qed.

Lemma empties_later (remover : Remover) (answer : Promise ListObjectsV2Output)
    (later : list (Promise ListObjectsV2Output)) (bucketName : string)
    (c : Removal) :
  empties remover later bucketName c ->
  empties remover (answer :: later) bucketName c.
Proof.
  destruct c; cbn; try tauto. intros [-> H]. split; [reflexivity |].
  eapply Forall_impl; [exact H |]. intros k. apply listed_later.
Qed.

Lemma deleteAllObjects_run (remover : Remover)
    (listings : list (Promise ListObjectsV2Output)) (bucketName : string)
    (log : list Removal) :
  exists calls,
    snd (S3Service.deleteAllObjects remover listings bucketName log)
    = log ++ calls
    /\ Forall (empties remover listings bucketName) calls
    /\ (fst (S3Service.deleteAllObjects remover listings bucketName log)
        = Resolved tt ->
        Forall (fun d => rm_DeleteObjects remover (fst d) (snd d)
                         = Resolved tt)
               (object_deletions calls)).
Proof.
  revert log. induction listings as [| answer later IH]; intros log.
  - exists [RmListObjectsV2 bucketName]. cbn. split; [reflexivity |].
    split; [repeat constructor | discriminate].
  - cbn [S3Service.deleteAllObjects].
    unfold mbind, mret, Trace_bind, Trace_ret, trace_bind, trace_ret, call.
    destruct answer as [| response | e].
    + exists [RmListObjectsV2 bucketName]. cbn. split; [reflexivity |].
      split; [repeat constructor | discriminate].
    + destruct (nullish (Contents response) []) as [| obj contents] eqn:Hc.
      * exists [RmListObjectsV2 bucketName]. cbn. split; [reflexivity |].
        split; [repeat constructor | intros _; constructor].
      * set (objects := omap _ (obj :: contents)).
        assert (Hobjects : Forall (listed (Resolved response :: later))
                             objects).
        { apply Forall_forall. intros k Hk. unfold objects in Hk.
          apply list_elem_of_omap in Hk. destruct Hk as (o & Ho & Hkey).
          exists response, (obj :: contents), o.
          split; [left; reflexivity |]. split.
          - destruct (Contents response); [cbn in Hc; congruence | discriminate].
          - split; [apply list_elem_of_In, Ho |].
            destruct (ObjectKey o) as [key |]; [| discriminate].
            destruct (truthy key); congruence. }
        destruct (rm_DeleteObjects remover bucketName objects)
          as [| [] | e] eqn:Hdel.
        -- exists [RmListObjectsV2 bucketName;
                   RmDeleteObjects bucketName objects].
           cbn. rewrite <- app_assoc. split; [reflexivity |].
           split; [| discriminate].
           repeat constructor; cbn; auto.
        -- destruct (nullish (IsTruncated response) false).
           ++ destruct (IH ((log ++ [RmListObjectsV2 bucketName])
                            ++ [RmDeleteObjects bucketName objects]))
                as (calls & Hlog & Hall & Hres).
              exists (RmListObjectsV2 bucketName
                      :: RmDeleteObjects bucketName objects :: calls).
              rewrite Hlog, <- !app_assoc. split; [reflexivity |]. split.
              ** constructor; [reflexivity |].
                 constructor; [split; [reflexivity | exact Hobjects] |].
                 eapply Forall_impl; [exact Hall |].
                 intros c. apply empties_later.
              ** intros Hr. cbn. constructor; [exact Hdel |].
                 apply Hres. rewrite <- app_assoc. exact Hr.
           ++ exists [RmListObjectsV2 bucketName;
                      RmDeleteObjects bucketName objects].
              cbn. rewrite <- app_assoc. split; [reflexivity |]. split.
              ** repeat constructor; cbn; auto.
              ** intros _. repeat constructor. exact Hdel.
        -- exists [RmListObjectsV2 bucketName;
                   RmDeleteObjects bucketName objects].
           cbn. rewrite <- app_assoc. split; [reflexivity |].
           split; [| discriminate].
           repeat constructor; cbn; auto.
    + exists [RmListObjectsV2 bucketName]. cbn. split; [reflexivity |].
      split; [repeat constructor | discriminate].
Qed.


Lemma empties_not_stack (remover : Remover)
    (listings : list (Promise ListObjectsV2Output)) (bucketName : string)
    (calls : list Removal) :
  Forall (empties remover listings bucketName) calls ->
  Forall (fun c => forall s, c <> RmDeleteStack s) calls
  /\ forall b, ~ In (RmDeleteBucket b) calls.
Proof.
  intros Hall. split.
  - eapply Forall_impl; [exact Hall |]. intros [] H s; cbn in H; congruence.
  - intros b Hin. rewrite Forall_forall in Hall.
    apply (Hall (RmDeleteBucket b)). apply list_elem_of_In, Hin.
Qed.

(** An emptying that came to an end made at least one listing, and every
    listing it made was answered. *)
Lemma deleteAllObjects_resolved (remover : Remover)
    (listings : list (Promise ListObjectsV2Output)) (bucketName : string)
    (log calls : list Removal) :
  S3Service.deleteAllObjects remover listings bucketName log
  = (Resolved tt, log ++ calls) ->
  listings_made calls <= length listings
  /\ Forall (fun answer => exists page, answer = Resolved page)
            (firstn (listings_made calls) listings).
Proof.
  revert log calls. induction listings as [| answer later IH];
    intros log calls.
  - cbn. discriminate.
  - cbn [S3Service.deleteAllObjects].
    unfold mbind, mret, Trace_bind, Trace_ret, trace_bind, trace_ret, call.
    destruct answer as [| response | e]; [discriminate | | discriminate].
    destruct (nullish (Contents response) []) as [| obj contents].
    + intros H. injection H as H. apply app_inv_head in H. subst calls.
      cbn. split; [lia |]. repeat constructor. exists response. reflexivity.
    + set (objects := omap _ (obj :: contents)).
      destruct (rm_DeleteObjects remover bucketName objects) as [| [] | e];
        [discriminate | | discriminate].
      destruct (nullish (IsTruncated response) false).
      * intros H.
        destruct (deleteAllObjects_run remover later bucketName
                    ((log ++ [RmListObjectsV2 bucketName])
                     ++ [RmDeleteObjects bucketName objects]))
          as (calls' & Hlog & _).
        rewrite H in Hlog. cbn [snd] in Hlog.
        rewrite <- !app_assoc in Hlog. apply app_inv_head in Hlog.
        subst calls.
        replace (log ++ [RmListObjectsV2 bucketName]
                 ++ [RmDeleteObjects bucketName objects] ++ calls')
          with (((log ++ [RmListObjectsV2 bucketName])
                 ++ [RmDeleteObjects bucketName objects]) ++ calls') in H
          by (rewrite <- !app_assoc; reflexivity).
        apply IH in H. destruct H as [Hle Hall].
        unfold listings_made in *. cbn [app List.filter length firstn].
        split; [lia |].
        constructor; [exists response; reflexivity | exact Hall].
      * intros H. injection H as H. rewrite <- app_assoc in H.
        apply app_inv_head in H. subst calls.
        cbn. split; [lia |]. repeat constructor. exists response. reflexivity.
Qed.

(** What a run of [deleteBucket] consists of. *)
Lemma deleteBucket_facts (remover : Remover)
    (listings : list (Promise ListObjectsV2Output)) (bucketName : string)
    (log : list Removal) :
  exists calls,
    snd (S3Service.deleteBucket remover listings bucketName log)
    = log ++ calls
    /\ Forall (fun c => forall s, c <> RmDeleteStack s) calls
    /\ (fst (S3Service.deleteBucket remover listings bucketName log)
        = Resolved tt ->
        rm_DeleteBucket remover bucketName = Resolved tt
        /\ last calls = Some (RmDeleteBucket bucketName)
        /\ (forall b, In (RmDeleteBucket b) calls -> b = bucketName)
        /\ Forall (fun answer => exists page, answer = Resolved page)
                  (firstn (listings_made calls) listings)
        /\ Forall (fun d => rm_DeleteObjects remover (fst d) (snd d)
                            = Resolved tt)
                  (object_deletions calls)).
Proof.
  unfold S3Service.deleteBucket.
  destruct (deleteAllObjects_run remover listings bucketName log)
    as (calls & Hlog & Hall & Hres).
  destruct (empties_not_stack _ _ _ _ Hall) as [Hns Hnb].
  unfold mbind, Trace_bind, trace_bind, call.
  destruct (S3Service.deleteAllObjects remover listings bucketName log)
    as [[| [] | e] log'] eqn:Hrun; cbn [fst snd] in *; subst log'.
  - exists calls. split; [reflexivity |]. split; [exact Hns | discriminate].
  - exists (calls ++ [RmDeleteBucket bucketName]).
    rewrite <- app_assoc. split; [reflexivity |]. split.
    + apply Forall_app. split; [exact Hns | repeat constructor; discriminate].
    + intros Hb. split; [exact Hb |]. split; [apply last_snoc |]. split.
      * intros b Hin. apply in_app_iff in Hin.
        destruct Hin as [Hin | [Hin | []]]; [destruct (Hnb b Hin) |].
        congruence.
      * apply deleteAllObjects_resolved in Hrun.
        destruct Hrun as [_ Hlist].
        unfold listings_made, object_deletions in *.
        rewrite List.filter_app, length_app, omap_app. cbn.
        rewrite Nat.add_0_r, app_nil_r.
        split; [exact Hlist | apply Hres; reflexivity].
  - exists calls. split; [reflexivity |]. split; [exact Hns | discriminate].
Qed.

Lemma getStorageBucket_run (remover : Remover) (stackName : string)
    (log : list Removal) :
  CloudFormationService.getStorageBucket remover stackName log
  = (match rm_DescribeStackResources remover stackName with
     | Resolved response =>
         Resolved
           (nullish
              (map_get PARAMETER_NAMES.storageBucket
                 (foldl (fun resources resource =>
                           match rd_LogicalResourceId resource,
                                 rd_PhysicalResourceId resource with
                           | Some id, Some physical =>
                               if truthy id && truthy physical
                               then map_set id physical resources
                               else resources
                           | _, _ => resources
                           end)
                        [] (nullish response [])))
              "")
     | Rejected e => Rejected e
     | Pending => Pending
     end, log ++ [RmDescribeStackResources stackName]).
Proof.
  unfold CloudFormationService.getStorageBucket,
    CloudFormationService.getResources.
  unfold mbind, mret, Trace_bind, Trace_ret, trace_bind, trace_ret, call.
  destruct (rm_DescribeStackResources remover stackName); reflexivity.
Qed.

Lemma deleteService_run (remover : Remover)
    (listings : list (Promise ListObjectsV2Output)) (region : string)
    (stackName : string) (withStorage : bool) (log : list Removal) :
  AWSCloudProvider.deleteService remover listings region stackName
    withStorage log
  = let finish log' :=
      (match rm_DeleteStack remover stackName with
       | Resolved _ =>
           Resolved (AWSCloudProvider.getConsoleUrl region stackName)
       | Rejected e => Rejected e
       | Pending => Pending
       end, log' ++ [RmDeleteStack stackName]) in
    if withStorage
    then
      match CloudFormationService.getStorageBucket remover stackName log with
      | (Resolved bucket, described) =>
          if truthy bucket
          then
            match S3Service.deleteBucket remover listings bucket described
            with
            | (Resolved _, log') => finish log'
            | (Rejected e, log') => (Rejected e, log')
            | (Pending, log') => (Pending, log')
            end
          else finish described
      | (Rejected e, described) => (Rejected e, described)
      | (Pending, described) => (Pending, described)
      end
    else finish log.
Proof.
  cbn zeta. unfold AWSCloudProvider.deleteService,
    CloudFormationService.deleteStack.
  unfold mbind, mret, Trace_bind, Trace_ret, trace_bind, trace_ret, call.
  destruct withStorage.
  - destruct (CloudFormationService.getStorageBucket remover stackName log)
      as [[| bucket | e] described]; [reflexivity | | reflexivity].
    destruct (truthy bucket).
    + destruct (S3Service.deleteBucket remover listings bucket described)
        as [[| [] | e] log']; [reflexivity | | reflexivity].
      destruct (rm_DeleteStack remover stackName) as [| [] |]; reflexivity.
    + destruct (rm_DeleteStack remover stackName) as [| [] |]; reflexivity.
  - destruct (rm_DeleteStack remover stackName) as [| [] |]; reflexivity.
Qed.

(** X15: [deleteService] asks for the stack to be deleted at most once, as
    its last call, and only when everything before it came to an end without
    error: without storage nothing comes before it; with storage the
    description of the resources was answered, and, when it names a bucket,
    every listing and every request to delete objects was answered without
    error and the deletion of the bucket, the call just before, as well.  A
    failure to describe the resources, to empty the bucket or to delete it
    is the outcome of the call and leaves the stack as it is.  The outcome is
    the console URL of the stack when the stack deletion is answered without
    error. *)
Theorem deleteService_stack_last (remover : Remover)
    (listings : list (Promise ListObjectsV2Output)) (region : string)
    (stackName : string) (withStorage : bool) (log : list Removal) :
  let run :=
    AWSCloudProvider.deleteService remover listings region stackName
      withStorage log in
  let described := log ++ [RmDescribeStackResources stackName] in
  exists before,
    Forall (fun c => forall s, c <> RmDeleteStack s) before
    /\ (withStorage = false -> before = [])
    /\ ((snd run = log ++ before ++ [RmDeleteStack stackName]
         /\ fst run
            = match rm_DeleteStack remover stackName with
              | Resolved _ =>
                  Resolved (AWSCloudProvider.getConsoleUrl region stackName)
              | Rejected e => Rejected e
              | Pending => Pending
              end
         /\ (forall b, In (RmDeleteBucket b) before ->
                       rm_DeleteBucket remover b = Resolved tt)
         /\ (withStorage = true ->
             exists response bucket,
               rm_DescribeStackResources remover stackName
               = Resolved response
               /\ fst (CloudFormationService.getStorageBucket remover
                         stackName log)
                  = Resolved bucket
               /\ (bucket = "" ->
                   before = [RmDescribeStackResources stackName])
               /\ (bucket <> "" ->
                   S3Service.deleteBucket remover listings bucket described
                   = (Resolved tt, log ++ before)
                   /\ last before = Some (RmDeleteBucket bucket)
                   /\ rm_DeleteBucket remover bucket = Resolved tt
                   /\ Forall (fun answer => exists page,
                                answer = Resolved page)
                             (firstn (listings_made before) listings)
                   /\ Forall (fun d => rm_DeleteObjects remover (fst d) (snd d)
                                       = Resolved tt)
                             (object_deletions before))))
        \/ (snd run = log ++ before /\ withStorage = true
            /\ (forall url, fst run <> Resolved url)
            /\ ((before = [RmDescribeStackResources stackName]
                 /\ ((rm_DescribeStackResources remover stackName = Pending
                      /\ fst run = Pending)
                     \/ exists e,
                          rm_DescribeStackResources remover stackName
                          = Rejected e
                          /\ fst run = Rejected e))
                \/ exists bucket,
                     fst (CloudFormationService.getStorageBucket remover
                            stackName log)
                     = Resolved bucket
                     /\ bucket <> ""
                     /\ ((S3Service.deleteBucket remover listings bucket
                            described
                          = (Pending, log ++ before)
                          /\ fst run = Pending)
                         \/ exists e,
                              S3Service.deleteBucket remover listings bucket
                                described
                              = (Rejected e, log ++ before)
                              /\ fst run = Rejected e)))).
Proof.
  cbn zeta. rewrite deleteService_run. cbn zeta.
  destruct withStorage.
  - rewrite getStorageBucket_run.
    destruct (rm_DescribeStackResources remover stackName)
      as [| response | e]; cbn [fst snd].
    + exists [RmDescribeStackResources stackName].
      split; [repeat constructor; discriminate |].
      split; [discriminate |]. right.
      split; [reflexivity |]. split; [reflexivity |].
      split; [discriminate |]. left.
      split; [reflexivity |]. left. split; reflexivity.
    + set (bucketName := nullish (map_get _ _) "").
      destruct (truthy bucketName) eqn:Htruthy.
      * assert (Hne : bucketName <> "")
          by (intros Heq; rewrite Heq in Htruthy; discriminate).
        destruct (deleteBucket_facts remover listings bucketName
                    (log ++ [RmDescribeStackResources stackName]))
          as (calls & Hlog & Hns & Hres).
        destruct (S3Service.deleteBucket remover listings bucketName
                    (log ++ [RmDescribeStackResources stackName]))
          as [[| [] | e] log'] eqn:Hrun; cbn [fst snd] in *; subst log'.
        -- exists (RmDescribeStackResources stackName :: calls).
           split; [constructor; [discriminate | exact Hns] |].
           split; [discriminate |]. right.
           rewrite <- app_assoc. split; [reflexivity |].
           split; [reflexivity |]. split; [discriminate |]. right.
           exists bucketName. split; [reflexivity |]. split; [exact Hne |].
           left. rewrite Hrun, <- app_assoc. split; reflexivity.
        -- destruct (Hres eq_refl) as (Hb & Hlast & Honly & Hlist & Hdel).
           exists (RmDescribeStackResources stackName :: calls).
           split; [constructor; [discriminate | exact Hns] |].
           split; [discriminate |]. left.
           split; [cbn [app]; rewrite <- ?app_assoc; reflexivity |].
           split; [reflexivity |]. split.
           ++ intros b [Hin | Hin]; [discriminate |].
              rewrite (Honly b Hin). exact Hb.
           ++ intros _. exists response, bucketName.
              split; [reflexivity |]. split; [reflexivity |].
              split; [intros Heq; contradiction |]. intros _.
              split; [rewrite Hrun, <- app_assoc; reflexivity |].
              split.
              { destruct calls as [| c calls']; [discriminate Hlast |].
                exact Hlast. }
              split; [exact Hb |].
              split; [exact Hlist | exact Hdel].
        -- exists (RmDescribeStackResources stackName :: calls).
           split; [constructor; [discriminate | exact Hns] |].
           split; [discriminate |]. right.
           rewrite <- app_assoc. split; [reflexivity |].
           split; [reflexivity |]. split; [discriminate |]. right.
           exists bucketName. split; [reflexivity |]. split; [exact Hne |].
           right. exists e. rewrite Hrun, <- app_assoc. split; reflexivity.
      * assert (Heq : bucketName = "")
          by (destruct bucketName; [reflexivity | discriminate]).
        exists [RmDescribeStackResources stackName].
        split; [repeat constructor; discriminate |].
        split; [discriminate |]. left.
        split; [rewrite <- app_assoc; reflexivity |].
        split; [reflexivity |]. split.
        -- intros b [Hin | []]. discriminate.
        -- intros _. exists response, bucketName.
           split; [reflexivity |]. split; [reflexivity |].
           split; [reflexivity |]. intros Hne. contradiction.
    + exists [RmDescribeStackResources stackName].
      split; [repeat constructor; discriminate |].
      split; [discriminate |]. right.
      split; [reflexivity |]. split; [reflexivity |].
      split; [discriminate |]. left.
      split; [reflexivity |]. right. exists e. split; reflexivity.
  - exists []. split; [constructor |]. split; [reflexivity |]. left.
    cbn [fst snd app].
    split; [reflexivity |]. split; [reflexivity |].
    split; [intros b [] | discriminate].
Qed.

(** [deleteService] with storage on a stack whose bucket cannot be listed:
    the failure of the listing is the outcome, and neither the bucket nor
    the stack is asked to be deleted. *)
Example deleteService_failed_listing_keeps_stack :
  let remover :=
    {| rm_DescribeStackResources := fun _ =>
         Resolved (Some [ {| rd_LogicalResourceId := Some "StorageBucket";
                             rd_PhysicalResourceId := Some "bucket" |} ]);
       rm_DeleteObjects := fun _ _ => Resolved tt;
       rm_DeleteBucket := fun _ => Resolved tt;
       rm_DeleteStack := fun _ => Resolved tt |} in
  AWSCloudProvider.deleteService remover [Rejected access_denied]
    "us-east-1" "clapdb" true []
  = (Rejected access_denied,
     [RmDescribeStackResources "clapdb"; RmListObjectsV2 "bucket"]).
Proof. reflexivity. Qed.

Lemma resources_without (key : string) (resources : list StackResourceDetail)
    (m : list (string * string)) :
  (forall r physical,
     In r resources -> rd_LogicalResourceId r = Some key ->
     rd_PhysicalResourceId r = Some physical -> physical = "") ->
  map_get key
    (foldl (fun resources resource =>
              match rd_LogicalResourceId resource,
                    rd_PhysicalResourceId resource with
              | Some id, Some physical =>
                  if truthy id && truthy physical
                  then map_set id physical resources
                  else resources
              | _, _ => resources
              end)
           m resources)
  = map_get key m.
Proof.
  revert m. induction resources as [| r resources IH]; intros m Hno.
  - reflexivity.
  - cbn [foldl]. rewrite IH.
    + destruct (rd_LogicalResourceId r) as [id |] eqn:Hid; [| reflexivity].
      destruct (rd_PhysicalResourceId r) as [physical |] eqn:Hp;
        [| reflexivity].
      destruct (truthy id && truthy physical) eqn:Ht; [| reflexivity].
      apply map_get_set_ne. intros <-.
      rewrite (Hno r physical (or_introl eq_refl) Hid Hp) in Ht.
      rewrite andb_false_r in Ht. discriminate.
    + intros r' physical Hin. apply Hno. right; exact Hin.
Qed.

(** X16: the storage bucket of a stack is the physical id of the last
    resource of the description whose logical id is [StorageBucket] and whose
    physical id is not empty; when the description holds no such resource it
    is the empty string. *)
Theorem getStorageBucket_last_resource (remover : Remover)
    (stackName : string) (resources : list StackResourceDetail)
    (log : list Removal)
    (Hanswer : rm_DescribeStackResources remover stackName
               = Resolved (Some resources)) :
  let bucket :=
    fst (CloudFormationService.getStorageBucket remover stackName log) in
  (forall before r after physical,
     resources = before ++ r :: after ->
     rd_LogicalResourceId r = Some "StorageBucket" ->
     rd_PhysicalResourceId r = Some physical -> physical <> "" ->
     (forall r' physical',
        In r' after -> rd_LogicalResourceId r' = Some "StorageBucket" ->
        rd_PhysicalResourceId r' = Some physical' -> physical' = "") ->
     bucket = Resolved physical)
  /\ ((forall r physical,
         In r resources -> rd_LogicalResourceId r = Some "StorageBucket" ->
         rd_PhysicalResourceId r = Some physical -> physical = "") ->
      bucket = Resolved "").
Proof.
  cbn zeta. rewrite getStorageBucket_run, Hanswer. cbn [fst nullish].
  split.
  - intros before r after physical -> Hid Hp Hne Hlast.
    rewrite foldl_app. cbn [foldl]. rewrite Hid, Hp.
    replace (truthy "StorageBucket" && truthy physical) with true
      by (destruct physical; [congruence | reflexivity]).
    change PARAMETER_NAMES.storageBucket with "StorageBucket".
    rewrite (resources_without "StorageBucket" after _ Hlast).
    rewrite map_get_set. reflexivity.
  - intros Hno.
    change PARAMETER_NAMES.storageBucket with "StorageBucket".
    rewrite (resources_without "StorageBucket" resources [] Hno).
    reflexivity.
Qed.

Lemma getStorageBucket_last_resource_witness :
  let remover :=
    {| rm_DescribeStackResources := fun _ =>
         Resolved (Some [ {| rd_LogicalResourceId := Some "StorageBucket";
                             rd_PhysicalResourceId := Some "first" |};
                          {| rd_LogicalResourceId := Some "StorageBucket";
                             rd_PhysicalResourceId := Some "second" |};
                          {| rd_LogicalResourceId := Some "StorageBucket";
                             rd_PhysicalResourceId := Some "" |} ]);
       rm_DeleteObjects := fun _ _ => Resolved tt;
       rm_DeleteBucket := fun _ => Resolved tt;
       rm_DeleteStack := fun _ => Resolved tt |} in
  fst (CloudFormationService.getStorageBucket remover "stack" [])
  = Resolved "second".
Proof.
  cbn zeta.
  match goal with
  | |- fst (CloudFormationService.getStorageBucket ?rm _ _) = _ =>
      set (remover := rm)
  end.
  refine (proj1 (getStorageBucket_last_resource remover "stack" _ [] eq_refl)
            [ {| rd_LogicalResourceId := Some "StorageBucket";
                 rd_PhysicalResourceId := Some "first" |} ]
            {| rd_LogicalResourceId := Some "StorageBucket";
               rd_PhysicalResourceId := Some "second" |}
            [ {| rd_LogicalResourceId := Some "StorageBucket";
                 rd_PhysicalResourceId := Some "" |} ]
            "second" eq_refl eq_refl eq_refl _ _).
  - discriminate.
  - intros r' physical' [<- | []] _ H. cbn in H. congruence.
Defined.

Lemma hex_digit_inj (a b : nat) :
  a < 16 -> b < 16 -> hex_digit a = hex_digit b -> a = b.
Proof.
  intros Ha Hb H. unfold hex_digit in H.
  apply (f_equal nat_of_ascii) in H.
  rewrite !nat_ascii_embedding in H
    by (destruct (Nat.ltb_spec a 10), (Nat.ltb_spec b 10); lia).
  destruct (Nat.ltb_spec a 10), (Nat.ltb_spec b 10); lia.
Qed.

Lemma hex_digit_unreserved (n : nat) :
  n < 16 -> is_unreserved (hex_digit n) = true.
Proof.
  intros Hn.
  do 16 (destruct n as [| n]; [reflexivity |]). lia.
Qed.

Lemma encodeURIComponent_inj (s t : string) :
  encodeURIComponent s = encodeURIComponent t -> s = t.
Proof.
  revert t. induction s as [| c s IH]; intros [| c' t] H.
  - reflexivity.
  - cbn [encodeURIComponent] in H. destruct (is_unreserved c'); discriminate.
  - cbn [encodeURIComponent] in H. destruct (is_unreserved c); discriminate.
  - cbn [encodeURIComponent] in H.
    destruct (is_unreserved c) eqn:Hc, (is_unreserved c') eqn:Hc'.
    + injection H as -> H. f_equal. apply IH, H.
    + injection H as -> _. discriminate Hc.
    + injection H as <- _. discriminate Hc'.
    + pose proof (nat_ascii_bounded c) as Bc.
      pose proof (nat_ascii_bounded c') as Bc'.
      pose proof (Nat.div_mod_eq (nat_of_ascii c) 16) as Dc.
      pose proof (Nat.div_mod_eq (nat_of_ascii c') 16) as Dc'.
      assert (Qc : nat_of_ascii c / 16 < 16)
        by (apply Nat.Div0.div_lt_upper_bound; lia).
      assert (Qc' : nat_of_ascii c' / 16 < 16)
        by (apply Nat.Div0.div_lt_upper_bound; lia).
      assert (Rc : nat_of_ascii c mod 16 < 16)
        by (apply Nat.mod_upper_bound; lia).
      assert (Rc' : nat_of_ascii c' mod 16 < 16)
        by (apply Nat.mod_upper_bound; lia).
      remember (nat_of_ascii c / 16) as q. remember (nat_of_ascii c mod 16) as r.
      remember (nat_of_ascii c' / 16) as q'.
      remember (nat_of_ascii c' mod 16) as r'.
      injection H as H1 H2 H. f_equal; [| apply IH, H].
      apply hex_digit_inj in H1; [| assumption ..].
      apply hex_digit_inj in H2; [| assumption ..].
      rewrite <- (ascii_nat_embedding c), <- (ascii_nat_embedding c').
      f_equal. congruence.
Qed.

Lemma string_app_inv_head (p a b : string) : p +:+ a = p +:+ b -> a = b.
Proof.
  induction p as [| c p IH]; cbn; intros H; [exact H |].
  injection H as H. apply IH, H.
Qed.

(** X17: in one region, the console URLs of two different stack ids are
    different: the encoding of the id loses nothing. *)
Theorem getConsoleUrl_distinguishes_stacks (region stackId stackId' : string)
    (Hids : stackId <> stackId') :
  AWSCloudProvider.getConsoleUrl region stackId
  <> AWSCloudProvider.getConsoleUrl region stackId'.
Proof.
  unfold AWSCloudProvider.getConsoleUrl. cbn zeta. intros H.
  apply Hids, encodeURIComponent_inj.
  do 4 apply string_app_inv_head in H. exact H.
Qed.

Lemma getConsoleUrl_distinguishes_stacks_witness :
  "stack/1" <> "stack%2F1"
  /\ AWSCloudProvider.getConsoleUrl "cn-north-1" "stack/1"
     <> AWSCloudProvider.getConsoleUrl "cn-north-1" "stack%2F1".
Proof.
  split; [discriminate |].
  apply (getConsoleUrl_distinguishes_stacks "cn-north-1" "stack/1"
           "stack%2F1").
  discriminate.
Defined.

(** X18: the console URL is the console of the China partition exactly for
    the regions whose name starts with [cn-], followed by the region as it
    is and the encoded stack id; the encoded id holds only letters, digits,
    [- _ . ! ~ * ' ( )] and [%], so that it adds no [#], [?], [&], [=] or
    [/] to the URL, and an id of such characters without [%] is left as it
    is. *)
Theorem getConsoleUrl_shape (region stackId : string) :
  exists encoded,
    AWSCloudProvider.getConsoleUrl region stackId
    = (if String.prefix "cn-" region then "https://console.amazonaws.cn"
       else "https://console.aws.amazon.com")
      +:+ "/cloudformation/home?region=" +:+ region
      +:+ "#/stacks/stackinfo?stackId=" +:+ encoded
    /\ Forall (fun c => is_unreserved c = true \/ c = "%"%char)
              (list_ascii_of_string encoded)
    /\ (Forall (fun c => is_unreserved c = true)
               (list_ascii_of_string stackId) ->
        encoded = stackId).
Proof.
  exists (encodeURIComponent stackId). split; [reflexivity |]. split.
  - induction stackId as [| c s IH]; [constructor |].
    cbn [encodeURIComponent]. destruct (is_unreserved c) eqn:Hc.
    + constructor; [left; exact Hc | exact IH].
    + pose proof (nat_ascii_bounded c) as Bc.
      assert (Qc : nat_of_ascii c / 16 < 16)
        by (apply Nat.Div0.div_lt_upper_bound; lia).
      assert (Rc : nat_of_ascii c mod 16 < 16)
        by (apply Nat.mod_upper_bound; lia).
      remember (nat_of_ascii c / 16) as q. remember (nat_of_ascii c mod 16) as r.
      cbn [list_ascii_of_string].
      constructor; [right; reflexivity |].
      constructor;
        [left; apply hex_digit_unreserved, Qc |].
      constructor;
        [left; apply hex_digit_unreserved, Rc |].
      exact IH.
  - induction stackId as [| c s IH]; [reflexivity |].
    cbn [list_ascii_of_string encodeURIComponent]. intros H.
    apply Forall_cons in H. destruct H as [Hc Hs].
    rewrite Hc. f_equal. apply IH, Hs.
Qed.

Lemma Array_sort_newest_first (images : list ImageDetail) :
  images <> [] ->
  exists before latest after rest,
    images = before ++ latest :: after
    /\ Forall (fun i => (ECRService.pushed i < ECRService.pushed latest)%Z)
              before
    /\ Forall (fun i => (ECRService.pushed i <= ECRService.pushed latest)%Z)
              after
    /\ Array_sort
         (fun a b => (ECRService.pushed b - ECRService.pushed a)%Z) images
       = latest :: rest.
Proof.
  induction images as [| x l IH]; [congruence |]. intros _.
  destruct l as [| y l].
  - exists [], x, [], []. repeat split; constructor.
  - destruct IH as (b & m & a & rest & Hl & Hb & Ha & Hsort); [discriminate |].
    unfold Array_sort in *. cbn [foldr] in *. rewrite Hsort.
    cbn [sort_insert].
    destruct (Z.leb_spec (ECRService.pushed m - ECRService.pushed x) 0).
    + exists [], x, (y :: l), (m :: rest).
      split; [reflexivity |]. split; [constructor |].
      split; [| reflexivity].
      rewrite Hl. apply Forall_app. split.
      * eapply Forall_impl; [exact Hb |]. cbn. intros; lia.
      * constructor; [lia |].
        eapply Forall_impl; [exact Ha |]. cbn. intros; lia.
    + exists (x :: b), m, a,
        (sort_insert
           (fun a0 b0 => (ECRService.pushed b0 - ECRService.pushed a0)%Z)
           x rest).
      split; [rewrite Hl; reflexivity |].
      split; [constructor; [lia | exact Hb] |].
      split; [exact Ha | reflexivity].
Qed.

(** X19: [getLatestImage] answers with the first tag of the image pushed
    last, the first such in the description when several were pushed at the
    same time and an image without a push date counting as the oldest; when
    that image has no tag or an empty first tag the call fails, whatever tags
    the older images have. *)
Theorem getLatestImage_newest (images : list ImageDetail)
    (repositoryName : string) (Himages : images <> []) :
  exists before latest after,
    images = before ++ latest :: after
    /\ Forall (fun i => (ECRService.pushed i < ECRService.pushed latest)%Z)
              before
    /\ Forall (fun i => (ECRService.pushed i <= ECRService.pushed latest)%Z)
              after
    /\ ECRService.getLatestImage (Resolved (Some images)) repositoryName
       = match imageTags latest with
         | Some (tag :: _) =>
             if truthy tag then Resolved tag
             else Rejected (new_Error "Latest image has no tag")
         | _ => Rejected (new_Error "Latest image has no tag")
         end.
Proof.
  destruct (Array_sort_newest_first images Himages)
    as (before & latest & after & rest & Himg & Hb & Ha & Hsort).
  exists before, latest, after.
  split; [exact Himg |]. split; [exact Hb |]. split; [exact Ha |].
  unfold ECRService.getLatestImage. cbn [nullish].
  destruct images as [| x l]; [congruence |].
  cbn zeta. rewrite Hsort.
  destruct (imageTags latest) as [[| tag tags] |]; reflexivity.
Qed.

Lemma getLatestImage_newest_witness :
  ECRService.getLatestImage
    (Resolved (Some [ {| imagePushedAt := None; imageTags := Some ["old"] |};
                      {| imagePushedAt := Some 5%Z;
                         imageTags := Some ["v2"; "latest"] |};
                      {| imagePushedAt := Some 5%Z;
                         imageTags := Some ["v3"] |} ]))
    "clapdb"
  = Resolved "v2".
Proof.
  destruct (getLatestImage_newest
              [ {| imagePushedAt := None; imageTags := Some ["old"] |};
                {| imagePushedAt := Some 5%Z;
                   imageTags := Some ["v2"; "latest"] |};
                {| imagePushedAt := Some 5%Z; imageTags := Some ["v3"] |} ]
              "clapdb")
    as (before & latest & after & Himg & Hb & Ha & Hrun); [discriminate |].
  rewrite Hrun.
  destruct before as [| b0 [| b1 [| b2 before]]].
  - injection Himg as <- <-. apply Forall_cons in Ha. cbn in Ha. lia.
  - injection Himg as <- <- <-. reflexivity.
  - injection Himg as <- <- <- <-. apply Forall_cons in Hb.
    destruct Hb as [_ Hb]. apply Forall_cons in Hb. cbn in Hb. lia.
  - injection Himg as _ _ _ Himg. destruct before; discriminate.
Defined.


Lemma digits_value_acc (d : Decimal.uint) (a : positive) :
  digits_value (NilEmpty.string_of_uint d) (Some (Z.pos a))
  = Some (Z.pos (Pos.of_uint_acc d a)).
Proof.
  revert a. induction d; intros a; cbn [NilEmpty.string_of_uint digits_value];
    [reflexivity | ..];
    match goal with
    | |- context [is_digit ?c] => change (is_digit c) with true
    end; cbv iota; cbn [Pos.of_uint_acc nullish];
    match goal with
    | |- context [Z.of_nat ?n] =>
        let v := eval vm_compute in (Z.of_nat n) in
        change (Z.of_nat n) with v
    end;
    match goal with
    | |- digits_value _ (Some ?v) = Some (Z.pos (Pos.of_uint_acc _ ?p)) =>
        replace v with (Z.pos p) by lia
    end; apply IHd.
Qed.

Lemma digits_value_uint (d : Decimal.uint) (acc : option Z) :
  d <> Decimal.Nil -> nullish acc 0%Z = 0%Z ->
  digits_value (NilEmpty.string_of_uint d) acc
  = Some (Z.of_N (Pos.of_uint d)).
Proof.
  revert acc. induction d; intros acc Hd Hacc; [congruence | ..];
    cbn [NilEmpty.string_of_uint digits_value Pos.of_uint];
    match goal with
    | |- context [is_digit ?c] => change (is_digit c) with true
    end; cbv iota; rewrite Hacc.
  - destruct d; [reflexivity | apply IHd; [discriminate | reflexivity] ..].
  - apply (digits_value_acc d 1).
  - apply (digits_value_acc d 2).
  - apply (digits_value_acc d 3).
  - apply (digits_value_acc d 4).
  - apply (digits_value_acc d 5).
  - apply (digits_value_acc d 6).
  - apply (digits_value_acc d 7).
  - apply (digits_value_acc d 8).
  - apply (digits_value_acc d 9).
Qed.

(** The characters of a printed number: no white space and no comma. *)
Lemma string_of_uint_plain (d : Decimal.uint) :
  Forall (fun c => is_space c = false /\ Ascii.eqb c "," = false)
         (list_ascii_of_string (NilEmpty.string_of_uint d)).
Proof.
  induction d; cbn [NilEmpty.string_of_uint list_ascii_of_string];
    constructor; try (split; reflexivity); exact IHd.
Qed.

Lemma String_of_number_plain (n : Z) :
  Forall (fun c => is_space c = false /\ Ascii.eqb c "," = false)
         (list_ascii_of_string (String_of_number n))
  /\ String_of_number n <> "".
Proof.
  unfold String_of_number.
  destruct n as [| p | p]; cbn [Z.to_int NilZero.string_of_int].
  - split; [repeat constructor | discriminate].
  - pose proof (DecimalPos.Unsigned.to_uint_nonnil p) as Hp.
    pose proof (string_of_uint_plain (Pos.to_uint p)) as H.
    destruct (Pos.to_uint p); [congruence | ..];
      (split; [exact H | discriminate]).
  - pose proof (DecimalPos.Unsigned.to_uint_nonnil p) as Hp.
    pose proof (string_of_uint_plain (Pos.to_uint p)) as H.
    split; [| discriminate]. cbn [list_ascii_of_string].
    constructor; [split; reflexivity |].
    destruct (Pos.to_uint p); [congruence | ..]; exact H.
Qed.

Lemma trim_end_plain (s : string) :
  Forall (fun c => is_space c = false) (list_ascii_of_string s) ->
  trim_end s = s.
Proof.
  induction s as [| c s IH]; [reflexivity |].
  cbn [list_ascii_of_string trim_end]. intros H.
  apply Forall_cons in H. destruct H as [Hc Hs].
  rewrite (IH Hs), Hc. destruct s; reflexivity.
Qed.

Lemma trim_plain (s : string) :
  Forall (fun c => is_space c = false) (list_ascii_of_string s) ->
  trim s = s.
Proof.
  intros H. unfold trim.
  assert (Hstart : trim_start s = s).
  { destruct s as [| c s]; [reflexivity |].
    cbn [list_ascii_of_string] in H. apply Forall_cons in H.
    cbn [trim_start]. destruct H as [-> _]. reflexivity. }
  rewrite Hstart. apply trim_end_plain, H.
Qed.

Lemma parseInt_String_of_number (n : Z) :
  parseInt (String_of_number n) = Some n.
Proof.
  unfold String_of_number.
  destruct n as [| p | p]; cbn [Z.to_int NilZero.string_of_int].
  - reflexivity.
  - pose proof (DecimalPos.Unsigned.to_uint_nonnil p) as Hp.
    pose proof (digits_value_uint (Pos.to_uint p) None Hp eq_refl) as H.
    rewrite DecimalPos.Unsigned.of_to in H. cbn [Z.of_N] in H.
    unfold parseInt.
    destruct (Pos.to_uint p); [congruence | ..]; exact H.
  - pose proof (DecimalPos.Unsigned.to_uint_nonnil p) as Hp.
    pose proof (digits_value_uint (Pos.to_uint p) None Hp eq_refl) as H.
    rewrite DecimalPos.Unsigned.of_to in H. cbn [Z.of_N] in H.
    unfold parseInt.
    assert (Hs : NilZero.string_of_uint (Pos.to_uint p)
                 = NilEmpty.string_of_uint (Pos.to_uint p))
      by (destruct (Pos.to_uint p); [congruence | reflexivity ..]).
    rewrite Hs. cbn [trim_start].
    change (is_space "-") with false. cbv iota.
    rewrite H. reflexivity.
Qed.

Lemma String_split_piece (sep : ascii) (piece : string) :
  Forall (fun c => Ascii.eqb c sep = false) (list_ascii_of_string piece) ->
  String_split sep piece = [piece]
  /\ forall rest,
       String_split sep (piece +:+ String sep rest)
       = piece :: String_split sep rest.
Proof.
  induction piece as [| c piece IH]; cbn [list_ascii_of_string]; intros H.
  - split; [reflexivity |]. intros rest.
    change ("" +:+ String sep rest) with (String sep rest).
    cbn [String_split]. rewrite Ascii.eqb_refl. reflexivity.
  - apply Forall_cons in H. destruct H as [Hc Hp].
    destruct (IH Hp) as [IH1 IH2].
    split.
    + cbn [String_split]. rewrite Hc, IH1. reflexivity.
    + intros rest.
      change (String c piece +:+ String sep rest)
        with (String c (piece +:+ String sep rest)).
      cbn [String_split]. rewrite Hc, IH2. reflexivity.
Qed.

Lemma String_split_join (sep : ascii) (pieces : list string) :
  pieces <> [] ->
  Forall (fun piece =>
            Forall (fun c => Ascii.eqb c sep = false)
                   (list_ascii_of_string piece))
         pieces ->
  String_split sep (join (String sep "") pieces) = pieces.
Proof.
  unfold join. induction pieces as [| piece pieces IH]; [congruence |].
  intros _ H. apply Forall_cons in H. destruct H as [Hp Hps].
  destruct pieces as [| piece' pieces].
  - apply String_split_piece, Hp.
  - change (String.concat (String sep "") (piece :: piece' :: pieces))
      with (piece +:+ String sep
                        (String.concat (String sep "") (piece' :: pieces))).
    rewrite (proj2 (String_split_piece sep piece Hp)).
    f_equal. apply IH; [discriminate | exact Hps].
Qed.

Lemma parse_printed (indices : list Z) :
  omap (fun s => parseInt (trim s)) (map String_of_number indices) = indices.
Proof.
  induction indices as [| m l IH]; [reflexivity |].
  cbn [map].
  change (omap ?f (?x :: ?xs))
    with (match f x with Some y => y :: omap f xs | None => omap f xs end).
  cbv beta.
  rewrite trim_plain, parseInt_String_of_number, IH; [reflexivity |].
  eapply Forall_impl; [apply String_of_number_plain |].
  cbn. intros c [Hc _]. exact Hc.
Qed.

(** X20: a list of safe integers (the integers that a number holds exactly)
    written in decimal, separated by commas, is parsed back to the same list,
    in the same order. *)
Theorem parseSubset_reads_decimal_list (indices : list Z)
    (Hsafe : Forall safe_integer indices) :
  regression.parseSubset (join "," (map String_of_number indices)) = indices.
Proof.
  clear Hsafe. unfold regression.parseSubset.
  destruct indices as [| n indices]; [reflexivity |].
  assert (Htruthy : truthy (join "," (map String_of_number (n :: indices)))
                    = true).
  { unfold join. cbn [map].
    destruct (String_of_number_plain n) as [_ Hne].
    destruct (String_of_number n) as [| c s]; [congruence |].
    destruct (map String_of_number indices); reflexivity. }
  rewrite Htruthy. cbn [negb].
  rewrite String_split_join.
  - apply parse_printed.
  - discriminate.
  - apply Forall_forall. intros piece Hin.
    apply list_elem_of_fmap in Hin. destruct Hin as (m & -> & _).
    eapply Forall_impl; [apply String_of_number_plain |].
    cbn. intros c [_ Hc]. exact Hc.
Qed.

Lemma parseSubset_reads_decimal_list_witness :
  regression.parseSubset (join "," (map String_of_number [0; 2; 14]%Z))
  = [0; 2; 14]%Z.
Proof.
  apply (parseSubset_reads_decimal_list [0; 2; 14]%Z).
  repeat constructor.
Defined.

Lemma parseSubset_pieces (value : string) :
  regression.parseSubset value
  = omap (fun s => parseInt (trim s)) (String_split "," value).
Proof.
  unfold regression.parseSubset. destruct value; reflexivity.
Qed.

(** X21: an index is selected by a subset string when one of the pieces
    between its commas reads as that index, and also when no piece reads as
    a number at all: a subset string without a number selects every index.
    Pieces are at most 15 characters long, so that their values are exact. *)
Theorem subset_selection (value : string) (val : Z)
    (Hexact : Forall (fun piece => String.length piece <= 15)
                     (String_split "," value)) :
  regression.isInSubset val (regression.parseSubset value) = true
  <-> (forall piece, In piece (String_split "," value) ->
                     parseInt (trim piece) = None)
      \/ (exists piece, In piece (String_split "," value)
                        /\ parseInt (trim piece) = Some val).
Proof.
  clear Hexact. rewrite parseSubset_pieces.
  unfold regression.isInSubset.
  set (pieces := String_split "," value).
  set (f := fun s => parseInt (trim s)).
  destruct (omap f pieces) as [| n subset] eqn:Hsub.
  - cbn. split; [intros _ | reflexivity]. left. intros piece Hin.
    destruct (f piece) as [v |] eqn:Hv; [| exact Hv].
    assert (Hel : v ∈ omap f pieces).
    { apply list_elem_of_omap. exists piece.
      split; [apply list_elem_of_In, Hin | exact Hv]. }
    rewrite Hsub in Hel. apply elem_of_nil in Hel. destruct Hel.
  - cbn [length Nat.eqb]. rewrite existsb_exists. split.
    + intros (x & Hx & Heq). apply Z.eqb_eq in Heq. subst x. right.
      rewrite <- Hsub in Hx. apply list_elem_of_In in Hx.
      apply list_elem_of_omap in Hx. destruct Hx as (piece & Hin & Hv).
      exists piece. split; [apply list_elem_of_In, Hin | exact Hv].
    + intros [Hnone | (piece & Hin & Hv)].
      * assert (Hel : n ∈ omap f pieces) by (rewrite Hsub; left).
        apply list_elem_of_omap in Hel. destruct Hel as (piece & Hin & Hv).
        apply list_elem_of_In in Hin. unfold f in Hv.
        rewrite (Hnone piece Hin) in Hv. discriminate.
      * exists val. split; [| apply Z.eqb_refl].
        rewrite <- Hsub. apply list_elem_of_In, list_elem_of_omap.
        exists piece. split; [apply list_elem_of_In, Hin | exact Hv].
Qed.

Lemma subset_selection_witness :
  regression.isInSubset 7 (regression.parseSubset "first, second") = true.
Proof.
  apply (subset_selection "first, second" 7).
  - repeat constructor.
  - left. intros piece [<- | [<- | []]]; reflexivity.
Defined.

Lemma get_in_range (chars : string) (i : nat) :
  i < String.length chars ->
  exists c, String.get i chars = Some c
            /\ In c (list_ascii_of_string chars).
Proof.
  revert i. induction chars as [| c chars IH]; intros i Hi; cbn in Hi;
    [lia |].
  destruct i as [| i].
  - exists c. split; [reflexivity | left; reflexivity].
  - destruct (IH i) as (c' & Hget & Hin); [lia |].
    exists c'. split; [exact Hget | right; exact Hin].
Qed.

Lemma list_ascii_app (a b : string) :
  list_ascii_of_string (a +:+ b)
  = list_ascii_of_string a ++ list_ascii_of_string b.
Proof.
  induction a as [| c a IH]; [reflexivity |].
  change (String c a +:+ b) with (String c (a +:+ b)).
  cbn [list_ascii_of_string]. rewrite IH. reflexivity.
Qed.

Lemma fill_run (random : nat -> nat -> nat) (allChars : string)
    (k count : nat) (start : string) :
  (forall k n, 0 < n -> random k n < n) -> 0 < String.length allChars ->
  exists rest,
    list_ascii_of_string (password.fill random allChars k count start)
    = list_ascii_of_string start ++ rest
    /\ length rest = count.
Proof.
  intros Hrandom Hall. revert k start.
  induction count as [| count IH]; intros k start.
  - exists []. cbn. rewrite app_nil_r. split; reflexivity.
  - cbn [password.fill].
    destruct (get_in_range allChars (random k (String.length allChars)))
      as (c & Hget & _); [apply Hrandom, Hall |].
    unfold password.pick. rewrite Hget.
    destruct (IH (S k) (start +:+ String c "")) as (rest & Hrest & Hlen).
    exists (c :: rest). rewrite Hrest, list_ascii_app, <- app_assoc.
    split; [reflexivity | cbn; lia].
Qed.

Lemma existsb_shuffle (p : ascii -> bool) (l l' : list ascii) :
  l' ≡ₚ l -> existsb p l' = existsb p l.
Proof.
  intros Hperm. apply eq_true_iff_eq. rewrite !existsb_exists.
  split; intros (c & Hin & Hc); exists c; (split; [| exact Hc]);
    apply list_elem_of_In; apply list_elem_of_In in Hin.
  - rewrite <- Hperm. exact Hin.
  - rewrite Hperm. exact Hin.
Qed.

Lemma string_length_list (l : list ascii) :
  String.length (string_of_list_ascii l) = length l.
Proof.
  induction l as [| c l IH]; cbn; [reflexivity | rewrite IH; reflexivity].
Qed.

(** X22: whatever the random numbers and the shuffle, the generated
    password has the asked length, and four characters when less is asked;
    it holds a lower-case letter, an upper-case letter, a digit and a special
    character, so that it passes [isPasswordValid] exactly when the asked
    length is at least 8. *)
Theorem generated_password_valid (random : nat -> nat -> nat)
    (shuffle : list ascii -> list ascii) (length : nat)
    (Hrandom : forall k n, 0 < n -> random k n < n)
    (Hshuffle : forall l, shuffle l ≡ₚ l) :
  let generated := password.generateRandomPassword random shuffle length in
  String.length generated = Nat.max 4 length
  /\ password.isPasswordValid generated = Nat.leb 8 length.
Proof.
  cbn zeta. unfold password.generateRandomPassword. cbn zeta.
  destruct (get_in_range password.lowercase
              (random 0 (String.length password.lowercase)))
    as (c0 & Hget0 & Hin0); [apply Hrandom; vm_compute; lia |].
  destruct (get_in_range password.uppercase
              (random 1 (String.length password.uppercase)))
    as (c1 & Hget1 & Hin1); [apply Hrandom; vm_compute; lia |].
  destruct (get_in_range password.digits
              (random 2 (String.length password.digits)))
    as (c2 & Hget2 & Hin2); [apply Hrandom; vm_compute; lia |].
  destruct (get_in_range password.special
              (random 3 (String.length password.special)))
    as (c3 & Hget3 & Hin3); [apply Hrandom; vm_compute; lia |].
  unfold password.pick. rewrite Hget0, Hget1, Hget2, Hget3.
  change ((("" +:+ String c0 "") +:+ String c1 "") +:+ String c2 ""
          +:+ String c3 "")
    with (String c0 (String c1 (String c2 (String c3 "")))).
  change ((("" +:+ String c0 "") +:+ String c1 "") +:+ String c2 "")
    with (String c0 (String c1 (String c2 ""))).
  set (start := String c0 (String c1 (String c2 (String c3 "")))).
  destruct (fill_run random
              (password.lowercase +:+ password.uppercase +:+ password.digits
               +:+ password.special)
              4 (length - String.length start) start Hrandom)
    as (rest & Hfill & Hrest); [vm_compute; lia |].
  set (filled := password.fill _ _ _ _ _) in *.
  assert (Hlen : String.length
                   (string_of_list_ascii
                      (shuffle (list_ascii_of_string filled)))
                 = Nat.max 4 length).
  { rewrite string_length_list, (Permutation_length (Hshuffle _)), Hfill.
    rewrite length_app, Hrest. cbn. lia. }
  split; [exact Hlen |].
  unfold password.isPasswordValid. rewrite Hlen.
  destruct (Nat.ltb_spec (Nat.max 4 length) 8) as [Hshort | Hlong].
  - symmetry. apply Nat.leb_gt. lia.
  - rewrite list_ascii_of_string_of_list_ascii.
    rewrite !(existsb_shuffle _ _ _ (Hshuffle _)), Hfill.
    assert (H0 : password.is_lowercase c0 = true).
    { clear - Hin0. cbn in Hin0.
      repeat (destruct Hin0 as [<- | Hin0]; [reflexivity |]).
      destruct Hin0. }
    assert (H1 : password.is_uppercase c1 = true).
    { clear - Hin1. cbn in Hin1.
      repeat (destruct Hin1 as [<- | Hin1]; [reflexivity |]).
      destruct Hin1. }
    assert (H2 : password.is_decimal c2 = true).
    { clear - Hin2. cbn in Hin2.
      repeat (destruct Hin2 as [<- | Hin2]; [reflexivity |]).
      destruct Hin2. }
    assert (H3 : password.is_special c3 = true).
    { clear - Hin3. cbn in Hin3.
      repeat (destruct Hin3 as [<- | Hin3]; [reflexivity |]).
      destruct Hin3. }
    unfold start. cbn [list_ascii_of_string app existsb].
    rewrite H0, H1, H2, H3. rewrite !orb_true_r. cbn [orb andb].
    symmetry. apply Nat.leb_le. lia.
Qed.

Lemma generated_password_valid_witness :
  password.isPasswordValid
    (password.generateRandomPassword (fun _ _ => 0) (@rev ascii) 12)
  = true.
Proof.
  apply (generated_password_valid (fun _ _ => 0) (@rev ascii) 12).
  - intros _ n Hn. exact Hn.
  - intros l. apply Permutation_sym, Permutation_rev.
Defined.

Lemma string_length_app (a b : string) :
  String.length (a +:+ b) = String.length a + String.length b.
Proof.
  induction a as [| c a IH]; [reflexivity |].
  change (String c a +:+ b) with (String c (a +:+ b)).
  cbn [String.length]. rewrite IH. reflexivity.
Qed.

Lemma string_last_two (s : string) :
  2 <= String.length s ->
  exists init c d, s = init +:+ String c (String d "").
Proof.
  induction s as [| a s IH]; cbn [String.length]; [lia |]. intros Hlen.
  destruct s as [| b [| c s]].
  - cbn in Hlen. lia.
  - exists "", a, b. reflexivity.
  - destruct IH as (init & c' & d' & Heq); [cbn; lia |].
    exists (String a init), c', d'. rewrite Heq. reflexivity.
Qed.

Lemma substring_after (p s : string) (n : nat) :
  substring (String.length p) n (p +:+ s) = substring 0 n s.
Proof.
  induction p as [| c p IH]; [reflexivity |].
  change (String c p +:+ s) with (String c (p +:+ s)).
  cbn [String.length substring]. exact IH.
Qed.

Lemma stars_length (n : nat) : String.length (stars n) = n.
Proof.
  induction n as [| n IH]; cbn; [reflexivity | rewrite IH; reflexivity].
Qed.

(** X23: [mask] keeps the length of the value and shows none of the
    characters of a value of at most four characters; of a longer value it
    shows the first two and the last two characters and replaces every
    other one by a star. *)
Theorem mask_hides (value : string) :
  String.length (mask value) = String.length value
  /\ (String.length value <= 4 -> mask value = stars (String.length value))
  /\ (4 < String.length value ->
      exists a b middle c d,
        value = String a (String b (middle +:+ String c (String d "")))
        /\ mask value
           = String a (String b (stars (String.length middle)
                                 +:+ String c (String d "")))).
Proof.
  assert (Hshort : String.length value <= 4 ->
                   mask value = stars (String.length value)).
  { intros H. unfold mask.
    destruct (Nat.leb_spec (String.length value) 4); [reflexivity | lia]. }
  assert (Hlong : 4 < String.length value ->
                  exists a b middle c d,
                    value = String a (String b
                                        (middle +:+ String c (String d "")))
                    /\ mask value
                       = String a (String b
                                     (stars (String.length middle)
                                      +:+ String c (String d "")))).
  { intros H. unfold mask.
    destruct (Nat.leb_spec (String.length value) 4) as [| _]; [lia |].
    destruct value as [| a [| b rest]]; cbn [String.length] in H;
      [lia | lia |].
    destruct (string_last_two rest) as (middle & c & d & ->); [lia |].
    exists a, b, middle, c, d. split; [reflexivity |].
    cbn [String.length]. rewrite string_length_app. cbn [String.length].
    replace (S (S (String.length middle + 2)) - 4)
      with (String.length middle) by lia.
    replace (S (S (String.length middle + 2)) - 2)
      with (String.length (String a (String b middle)))
      by (cbn [String.length]; lia).
    change (String a (String b (middle +:+ String c (String d ""))))
      with (String a (String b middle) +:+ String c (String d "")).
    rewrite substring_after.
    change (String a (String b middle) +:+ String c (String d ""))
      with (String a (String b (middle +:+ String c (String d "")))).
    cbn [substring].
    replace (substring 0 0 (middle +:+ String c (String d ""))) with ""
      by (destruct middle; reflexivity).
    reflexivity. }
  split; [| split; [exact Hshort | exact Hlong]].
  destruct (Nat.le_gt_cases (String.length value) 4) as [H | H].
  - rewrite (Hshort H). apply stars_length.
  - destruct (Hlong H) as (a & b & middle & c & d & -> & ->).
    cbn [String.length]. rewrite !string_length_app, stars_length.
    reflexivity.
Qed.

Lemma isClapDB_spec (stack : ListedStack) :
  CloudFormationService.isClapDB stack = true
  <-> exists tags, ls_Tags stack = Some tags
                   /\ In (Some "Vendor", Some "ClapDB") tags.
Proof.
  unfold CloudFormationService.isClapDB.
  destruct (ls_Tags stack) as [tags |].
  - rewrite existsb_exists. split.
    + intros ([[k |] [v |]] & Hin & H); try discriminate.
      apply andb_prop in H. destruct H as [Hk Hv].
      apply String.eqb_eq in Hk, Hv. subst k v.
      exists tags. split; [reflexivity | exact Hin].
    + intros (tags' & [= <-] & Hin).
      exists (Some "Vendor", Some "ClapDB"). split; [exact Hin | reflexivity].
  - split; [discriminate | intros (tags & H & _); discriminate].
Qed.

(** X24: the stacks that [listClapDBStacks] lists are those of the
    description that carry the tag [Vendor] with the value [ClapDB] and have
    a name, a status and a creation time, with these three values: a stack
    without that tag is never listed. *)
Theorem listClapDBStacks_only_tagged (stacks : list ListedStack) :
  exists result,
    CloudFormationService.listClapDBStacks (Resolved (Some stacks))
    = Resolved result
    /\ forall s,
         In s result
         <-> exists stack tags,
               In stack stacks
               /\ ls_Tags stack = Some tags
               /\ In (Some "Vendor", Some "ClapDB") tags
               /\ ls_StackName stack = Some (cfs_name s)
               /\ cfs_name s <> ""
               /\ ls_StackStatus stack = Some (cfs_status s)
               /\ cfs_status s <> ""
               /\ ls_CreationTime stack = Some (cfs_createdAt s).
Proof.
  unfold CloudFormationService.listClapDBStacks. cbn [nullish].
  eexists. split; [reflexivity |].
  set (step := fun (stacks0 : list CloudFormationStack) stack => _).
  set (P := fun (s : CloudFormationStack) (stack : ListedStack) =>
              exists tags,
                ls_Tags stack = Some tags
                /\ In (Some "Vendor", Some "ClapDB") tags
                /\ ls_StackName stack = Some (cfs_name s)
                /\ cfs_name s <> ""
                /\ ls_StackStatus stack = Some (cfs_status s)
                /\ cfs_status s <> ""
                /\ ls_CreationTime stack = Some (cfs_createdAt s)).
  assert (Hgen : forall acc s,
            In s (foldl step acc stacks)
            <-> In s acc \/ exists stack, In stack stacks /\ P s stack).
  { induction stacks as [| stack stacks IH]; intros acc s.
    - cbn. split; [tauto | intros [H | (x & [] & _)]; exact H].
    - cbn [foldl]. rewrite IH.
      assert (Hstep : In s (step acc stack) <-> In s acc \/ P s stack).
      { unfold step, P.
        destruct (ls_StackName stack) as [n |] eqn:Hn;
          [| split; [tauto | intros [H | (t & _ & _ & H & _)];
                              [exact H | discriminate]]].
        destruct (ls_StackStatus stack) as [st |] eqn:Hst;
          [| split; [tauto | intros [H | (t & _ & _ & _ & _ & H & _)];
                              [exact H | discriminate]]].
        destruct (ls_CreationTime stack) as [t |] eqn:Ht;
          [| split; [tauto
                    | intros [H | (t & _ & _ & _ & _ & _ & _ & H)];
                      [exact H | discriminate]]].
        destruct (CloudFormationService.isClapDB stack) eqn:Hc.
        - apply isClapDB_spec in Hc. destruct Hc as (tags & Htags & Hin).
          destruct n as [| c0 n]; cbn [truthy andb].
          + split; [tauto |].
            intros [H | (_ & _ & _ & [= <-] & Hne & _)];
              [exact H | congruence].
          + destruct st as [| c1 st]; cbn [truthy andb].
            * split; [tauto |].
              intros [H | (_ & _ & _ & _ & _ & [= <-] & Hne & _)];
                [exact H | congruence].
            * rewrite in_app_iff. cbn [In]. split.
              -- intros [H | [<- | []]]; [left; exact H |]. right.
                 exists tags. cbn. repeat split; try assumption;
                   discriminate.
              -- intros [H | (_ & _ & _ & [= Hn'] & _ & [= Hst'] & _
                              & [= Ht'])]; [left; exact H |].
                 right; left. destruct s as [n' st' t']. cbn in *.
                 congruence.
        - cbn [andb]. split; [tauto |].
          intros [H | (tags & Htags & Hin & _)]; [exact H |].
          assert (Hc' : CloudFormationService.isClapDB stack = true)
            by (apply isClapDB_spec; exists tags; split; assumption).
          congruence. }
      rewrite Hstep. split.
      + intros [[H | H] | (x & Hx & H)].
        * left; exact H.
        * right. exists stack. split; [left; reflexivity | exact H].
        * right. exists x. split; [right; exact Hx | exact H].
      + intros [H | (x & [<- | Hx] & H)].
        * left; left; exact H.
        * left; right; exact H.
        * right. exists x. split; [exact Hx | exact H]. }
  intros s. rewrite Hgen. cbn [In]. unfold P. split.
  - intros [[] | (stack & Hin & tags & H)].
    exists stack, tags. split; [exact Hin | exact H].
  - intros (stack & tags & Hin & H). right.
    exists stack. split; [exact Hin |]. exists tags. exact H.
Qed.
